(** * StudySphere: the in-memory data store (server/storage.ts)

    A shallow embedding of [MemStorage], the class behind the route
    handlers, together with the properties of it that the specification
    states.

    The store keeps nine JavaScript [Map]s of entity objects and nine id
    counters.  Entity objects are ordinary JavaScript objects: they live
    on the heap, the maps hold references to them, and the methods hand
    those references to their callers.  The embedding therefore has an
    explicit heap, and every method is a computation over a [world]: the
    heap together with the fields of the [MemStorage] instance.

    Numbers are modelled as unbounded integers plus [NaN]; this is exact
    for ids, counters and epoch milliseconds of magnitude below 2^53.
    The parameters that TypeScript types as [number] (ids, vote values,
    limits) are integers.  A vote is added to a count as the runtime
    adds two doubles: the sum is rounded to 53 significant bits. *)

From stdpp Require Import gmap strings list fin_maps pretty sorting.
From Stdlib Require Import ZArith Lia Sorted Permutation.

Local Open Scope Z_scope.

(** ** JavaScript values, objects and the heap *)

Definition loc := nat.

Inductive val :=
  | VUndef
  | VNull
  | VBool (b : bool)
  | VNum (n : Z)
  | VNaN
  | VStr (s : string)
  | VRef (l : loc).

Global Instance val_eq_dec : EqDecision val.
Proof. solve_decision. Defined.

(** A plain object: its own enumerable properties. *)
Abbreviation obj := (gmap string val).

(** A heap cell is a plain object or a [Date] (its time value, [None]
    for an invalid date). *)
Inductive cell :=
  | HObj (o : obj)
  | HDate (t : option Z).

Abbreviation heap := (list cell).

(** [a === b] *)
Definition strict_eq (a b : val) : bool :=
  match a, b with
  | VUndef, VUndef => true
  | VNull, VNull => true
  | VBool x, VBool y => Bool.eqb x y
  | VNum x, VNum y => (x =? y)%Z
  | VStr x, VStr y => String.eqb x y
  | VRef x, VRef y => (x =? y)%nat
  | _, _ => false
  end.

(** SameValueZero, the comparison of [Array.prototype.includes]: as
    [===] but [NaN] is equal to itself. *)
Definition same_value_zero (a b : val) : bool :=
  match a, b with
  | VNaN, VNaN => true
  | _, _ => strict_eq a b
  end.

(** [arr.includes(x)] *)
Definition includes (arr : list val) (x : val) : bool :=
  existsb (fun y => same_value_zero y x) arr.

(** [o[k]]: an absent property reads as [undefined].  Only own
    properties are modelled, not the ones inherited from
    [Object.prototype]. *)
Definition prop (o : obj) (k : string) : val := default VUndef (o !! k).

(** The own properties of the object at [l]; a [Date] has none. *)
Definition fields (h : heap) (l : loc) : obj :=
  match h !! l with
  | Some (HObj o) => o
  | _ => ∅
  end.

(** [l.k] for a reference [l]. *)
Definition get (h : heap) (l : loc) (k : string) : val := prop (fields h l) k.

(** [l.k = v], an assignment through a reference (what a caller holding
    the reference can do). *)
Definition put (h : heap) (l : loc) (k : string) (v : val) : heap :=
  match h !! l with
  | Some (HObj o) => <[l := HObj (<[k := v]> o)]> h
  | _ => h
  end.

(** Built-ins of the JavaScript runtime that the store calls and whose
    results depend on locale, time zone or the class of an object. *)
Class Builtins := {
  (** [s.toLowerCase()] *)
  toLowerCase : string → string;
  (** [Date.parse(s)], [None] for [NaN] *)
  Date_parse : string → option Z;
  (** the string an object operand is converted to by [+] and by the
      [Date] constructor (objects with a numeric [valueOf] are not
      modelled) *)
  object_to_string : heap → loc → string
}.

(** ToString on primitives. *)
Definition to_string (v : val) : string :=
  match v with
  | VUndef => "undefined"
  | VNull => "null"
  | VBool true => "true"
  | VBool false => "false"
  | VNum n => pretty n
  | VNaN => "NaN"
  | VStr s => s
  | VRef _ => ""
  end.

(** ToNumber on the primitives that are not strings; [None] is [NaN]. *)
Definition to_number (v : val) : option Z :=
  match v with
  | VNull => Some 0
  | VBool b => Some (Z.b2z b)
  | VNum n => Some n
  | _ => None
  end.

Definition of_number (n : option Z) : val :=
  match n with
  | Some z => VNum z
  | None => VNaN
  end.

(** The double nearest to the integer [z], a tie going to the even
    significand: the Number that an arithmetic operation returns when
    its exact result is [z].  Every integer of magnitude up to 2^53 is a
    double; beyond that a double has 53 significant bits.  Overflow to
    [Infinity], from 2^1024 on, is not modelled. *)
Definition to_double (z : Z) : Z :=
  let a := Z.abs z in
  if a <=? 2 ^ 53 then z
  else
    let e := Z.log2 a - 52 in
    let q := a / 2 ^ e in
    let r := a mod 2 ^ e in
    let half := 2 ^ (e - 1) in
    let q' := if r <? half then q
              else if half <? r then q + 1
              else if Z.even q then q else q + 1 in
    Z.sgn z * (q' * 2 ^ e).

Section Operators.
Context `{Builtins}.

(** ToPrimitive with the default hint. *)
Definition to_primitive (h : heap) (v : val) : val :=
  match v with
  | VRef l => VStr (object_to_string h l)
  | _ => v
  end.

(** [a + b] *)
Definition js_add (h : heap) (a b : val) : val :=
  match to_primitive h a, to_primitive h b with
  | VStr x, y => VStr (x +:+ to_string y)
  | x, VStr y => VStr (to_string x +:+ y)
  | x, y =>
      match to_number x, to_number y with
      | Some m, Some n => VNum (m + n)
      | _, _ => VNaN
      end
  end.

(** [a + b] for operands of any size: the sum of two Numbers is rounded
    to a double.  [js_add] is the exact sum; the two agree while the sum
    is at most 2^53 in magnitude, as it is where a counter that starts
    at 0 grows by 1. *)
Definition js_add_double (h : heap) (a b : val) : val :=
  match js_add h a b with
  | VNum z => VNum (to_double z)
  | v => v
  end.

(** TimeClip *)
Definition time_clip (n : Z) : option Z :=
  if (Z.abs n <=? 8640000000000000)%Z then Some n else None.

(** [new Date(v).getTime()], [None] for [NaN]. *)
Definition Date_getTime (h : heap) (v : val) : option Z :=
  match v with
  | VRef l =>
      match h !! l with
      | Some (HDate t) => t
      | _ => Date_parse (object_to_string h l)
      end
  | VStr s => Date_parse s
  | VNum n => time_clip n
  | VNull => Some 0
  | VBool b => Some (Z.b2z b)
  | VUndef | VNaN => None
  end.
End Operators.

(** ** JavaScript [Map] with number keys

    A [Map] iterates in insertion order; [set] on a present key keeps the
    key's position, [delete] removes the entry. *)

Abbreviation jsmap := (list (Z * loc)).

Fixpoint map_get (m : jsmap) (k : Z) : option loc :=
  match m with
  | [] => None
  | (k', l) :: m' => if (k' =? k)%Z then Some l else map_get m' k
  end.

Fixpoint map_set (m : jsmap) (k : Z) (l : loc) : jsmap :=
  match m with
  | [] => [(k, l)]
  | (k', l') :: m' =>
      if (k' =? k)%Z then (k, l) :: m' else (k', l') :: map_set m' k l
  end.

Fixpoint map_delete (m : jsmap) (k : Z) : jsmap :=
  match m with
  | [] => []
  | (k', l') :: m' =>
      if (k' =? k)%Z then m' else (k', l') :: map_delete m' k
  end.

Definition map_has (m : jsmap) (k : Z) : bool := bool_decide (is_Some (map_get m k)).

Definition map_values (m : jsmap) : list loc := map snd m.
Definition map_keys (m : jsmap) : list Z := map fst m.

(** ** The [MemStorage] instance and the world it runs in *)

Inductive etype :=
  | User | Paper | DiscussionPost | DiscussionReply | Resource
  | StudyGroup | StudyGroupMember | StudySession | Activity.

Global Instance etype_eq_dec : EqDecision etype.
Proof. solve_decision. Defined.

Record MemStorage := mkStorage {
  users : jsmap;
  papers : jsmap;
  discussionPosts : jsmap;
  discussionReplies : jsmap;
  resources : jsmap;
  studyGroups : jsmap;
  studyGroupMembers : jsmap;
  studySessions : jsmap;
  activities : jsmap;
  currentUserId : Z;
  currentPaperId : Z;
  currentDiscussionPostId : Z;
  currentDiscussionReplyId : Z;
  currentResourceId : Z;
  currentStudyGroupId : Z;
  currentStudyGroupMemberId : Z;
  currentStudySessionId : Z;
  currentActivityId : Z
}.

(** The map and the counter of an entity type. *)
Definition table (t : etype) (s : MemStorage) : jsmap :=
  match t with
  | User => users s
  | Paper => papers s
  | DiscussionPost => discussionPosts s
  | DiscussionReply => discussionReplies s
  | Resource => resources s
  | StudyGroup => studyGroups s
  | StudyGroupMember => studyGroupMembers s
  | StudySession => studySessions s
  | Activity => activities s
  end.

Definition current (t : etype) (s : MemStorage) : Z :=
  match t with
  | User => currentUserId s
  | Paper => currentPaperId s
  | DiscussionPost => currentDiscussionPostId s
  | DiscussionReply => currentDiscussionReplyId s
  | Resource => currentResourceId s
  | StudyGroup => currentStudyGroupId s
  | StudyGroupMember => currentStudyGroupMemberId s
  | StudySession => currentStudySessionId s
  | Activity => currentActivityId s
  end.

Definition with_table (t : etype) (m : jsmap) (s : MemStorage) : MemStorage :=
  let '(mkStorage u p dp dr r sg sgm ss a cu cp cdp cdr cr csg csgm css ca) := s in
  match t with
  | User => mkStorage m p dp dr r sg sgm ss a cu cp cdp cdr cr csg csgm css ca
  | Paper => mkStorage u m dp dr r sg sgm ss a cu cp cdp cdr cr csg csgm css ca
  | DiscussionPost => mkStorage u p m dr r sg sgm ss a cu cp cdp cdr cr csg csgm css ca
  | DiscussionReply => mkStorage u p dp m r sg sgm ss a cu cp cdp cdr cr csg csgm css ca
  | Resource => mkStorage u p dp dr m sg sgm ss a cu cp cdp cdr cr csg csgm css ca
  | StudyGroup => mkStorage u p dp dr r m sgm ss a cu cp cdp cdr cr csg csgm css ca
  | StudyGroupMember => mkStorage u p dp dr r sg m ss a cu cp cdp cdr cr csg csgm css ca
  | StudySession => mkStorage u p dp dr r sg sgm m a cu cp cdp cdr cr csg csgm css ca
  | Activity => mkStorage u p dp dr r sg sgm ss m cu cp cdp cdr cr csg csgm css ca
  end.

Definition with_current (t : etype) (c : Z) (s : MemStorage) : MemStorage :=
  let '(mkStorage u p dp dr r sg sgm ss a cu cp cdp cdr cr csg csgm css ca) := s in
  match t with
  | User => mkStorage u p dp dr r sg sgm ss a c cp cdp cdr cr csg csgm css ca
  | Paper => mkStorage u p dp dr r sg sgm ss a cu c cdp cdr cr csg csgm css ca
  | DiscussionPost => mkStorage u p dp dr r sg sgm ss a cu cp c cdr cr csg csgm css ca
  | DiscussionReply => mkStorage u p dp dr r sg sgm ss a cu cp cdp c cr csg csgm css ca
  | Resource => mkStorage u p dp dr r sg sgm ss a cu cp cdp cdr c csg csgm css ca
  | StudyGroup => mkStorage u p dp dr r sg sgm ss a cu cp cdp cdr cr c csgm css ca
  | StudyGroupMember => mkStorage u p dp dr r sg sgm ss a cu cp cdp cdr cr csg c css ca
  | StudySession => mkStorage u p dp dr r sg sgm ss a cu cp cdp cdr cr csg csgm c ca
  | Activity => mkStorage u p dp dr r sg sgm ss a cu cp cdp cdr cr csg csgm css c
  end.

(** [new MemStorage()] *)
Definition constructor : MemStorage :=
  mkStorage [] [] [] [] [] [] [] [] [] 1 1 1 1 1 1 1 1 1.

Record world := mkWorld {
  mem : heap;
  this : MemStorage
}.

(** Computations over the world. *)
Definition M (A : Type) : Type := world → A * world.

Definition ret {A} (a : A) : M A := fun w => (a, w).

Definition bind {A B} (m : M A) (f : A → M B) : M B :=
  fun w => let '(a, w') := m w in f a w'.

Notation "'do' x <- c1 ; c2" := (bind c1 (fun x => c2))
  (at level 10, x name, c1 at level 100, c2 at level 200,
   format "'[v' 'do'  x  <-  c1 ; '/' c2 ']'").
Notation "'run' c1 ; c2" := (bind c1 (fun _ => c2))
  (at level 10, c1 at level 100, c2 at level 200,
   format "'[v' 'run'  c1 ; '/' c2 ']'").

(** The heap as it is now. *)
Definition the_heap : M heap := fun w => (mem w, w).

(** Allocation: the new cell goes at the end of the heap. *)
Definition alloc (c : cell) : M loc :=
  fun w => (length (mem w), mkWorld (mem w ++ [c]) (this w)).

(** [new Date()] when the clock reads [now]. *)
Definition new_Date (now : Z) : M loc := alloc (HDate (Some now)).

(** An object literal [{ ... }] with the given properties. *)
Definition new_object (o : obj) : M loc := alloc (HObj o).

(** [this.currentXId++] *)
Definition next_id (t : etype) : M Z :=
  fun w => (current t (this w),
            mkWorld (mem w) (with_current t (current t (this w) + 1) (this w))).

(** [this.xs.get(id)] *)
Definition Map_get (t : etype) (id : Z) : M (option loc) :=
  fun w => (map_get (table t (this w)) id, w).

(** [this.xs.set(id, l)] *)
Definition Map_set (t : etype) (id : Z) (l : loc) : M unit :=
  fun w => (tt, mkWorld (mem w) (with_table t (map_set (table t (this w)) id l) (this w))).

(** [this.xs.delete(id)] *)
Definition Map_delete (t : etype) (id : Z) : M bool :=
  fun w => (map_has (table t (this w)) id,
            mkWorld (mem w) (with_table t (map_delete (table t (this w)) id) (this w))).

(** [Array.from(this.xs.values())] *)
Definition Map_values (t : etype) : M (list loc) :=
  fun w => (map_values (table t (this w)), w).

(** [{ ...l }]: the own properties of the object at [l]. *)
Definition spread (l : loc) : M obj := fun w => (fields (mem w) l, w).

(** ** Array helpers *)

(** [Object.entries(filters).every(([key, value]) => l[key] === value)] *)
Definition matches (h : heap) (filters : obj) (l : loc) : bool :=
  forallb (fun '(key, value) => strict_eq (get h l key) value) (map_to_list filters).

(** The names of the members that every object inherits from
    [Object.prototype].  For such a [key], [l[key]] is the inherited
    member when [l] has no property of its own under that name, and
    [get], which reads own properties, does not say so. *)
Definition inherited_names : list string :=
  ["constructor"; "hasOwnProperty"; "isPrototypeOf"; "propertyIsEnumerable";
   "toLocaleString"; "toString"; "valueOf"; "__defineGetter__"; "__defineSetter__";
   "__lookupGetter__"; "__lookupSetter__"; "__proto__"].

(** A filter that names no inherited member. *)
Definition own_names (filters : obj) : Prop :=
  ∀ key, key ∈ inherited_names → filters !! key = None.

(** [Array.prototype.sort] is stable.  [gt a b] says that the comparator
    returned a positive number on [(a, b)]; zero and [NaN] leave the two
    elements in their order.  (When the comparator is not a consistent
    ordering, which takes a [NaN] time value, the standard leaves the
    order to the implementation; this is one such order.) *)
Fixpoint sort_insert {A} (gt : A → A → bool) (x : A) (l : list A) : list A :=
  match l with
  | [] => [x]
  | y :: l' => if gt x y then y :: sort_insert gt x l' else x :: y :: l'
  end.

Definition js_sort {A} (gt : A → A → bool) (l : list A) : list A :=
  foldr (sort_insert gt) [] l.

(** [x - y > 0] on time values, [NaN] when either is. *)
Definition minus_positive (x y : option Z) : bool :=
  match x, y with
  | Some a, Some b => (0 <? a - b)%Z
  | _, _ => false
  end.

(** [arr.slice(0, n)] *)
Definition slice0 {A} (arr : list A) (n : Z) : list A :=
  if (n <? 0)%Z then take (Z.to_nat (Z.max 0 (Z.of_nat (length arr) + n))) arr
  else take (Z.to_nat n) arr.

(** ** The methods of [MemStorage]

    A method that calls [new Date()] takes the reading of the clock as
    its argument [clock].  Argument objects are passed by their
    properties, which is all the methods use of them. *)

Section Methods.
Context `{Builtins}.

(** *** Users *)

Definition getUser (id : Z) : M (option loc) :=
  Map_get User id.

(** [find] with the predicate
    [user[key].toLowerCase() === s.toLowerCase()]; the outer [None]
    is the [TypeError] thrown when the property is not a string. *)
Fixpoint find_lower (h : heap) (key s : string) (ls : list loc)
  : option (option loc) :=
  match ls with
  | [] => Some None
  | user :: ls' =>
      match get h user key with
      | VStr x =>
          if String.eqb (toLowerCase x) (toLowerCase s) then Some (Some user)
          else find_lower h key s ls'
      | _ => None
      end
  end.

Definition getUserByUsername (username : string) : M (option (option loc)) :=
  do values <- Map_values User;
  do h <- the_heap;
  ret (find_lower h "username" username values).

Definition getUserByEmail (email : string) : M (option (option loc)) :=
  do values <- Map_values User;
  do h <- the_heap;
  ret (find_lower h "email" email values).

Definition createUser (insertUser : obj) (clock : Z) : M loc :=
  do id <- next_id User;
  do now <- new_Date clock;
  do user <- new_object
    (<["points" := VNum 0]>
       (<["createdAt" := VRef now]> (<["id" := VNum id]> insertUser)));
  run Map_set User id user;
  ret user.

Definition updateUser (id : Z) (userData : obj) : M (option loc) :=
  do user <- getUser id;
  match user with
  | None => ret None
  | Some user =>
      do o <- spread user;
      do updatedUser <- new_object (userData ∪ o);
      run Map_set User id updatedUser;
      ret (Some updatedUser)
  end.

(** *** Papers *)

Definition createPaper (paper : obj) (clock : Z) : M loc :=
  do id <- next_id Paper;
  do now <- new_Date clock;
  do newPaper <- new_object
    (<["downloads" := VNum 0]>
       (<["uploadDate" := VRef now]> (<["id" := VNum id]> paper)));
  run Map_set Paper id newPaper;
  ret newPaper.

Definition getPaper (id : Z) : M (option loc) :=
  Map_get Paper id.

Definition getPapers (filters : option obj) : M (list loc) :=
  match filters with
  | None => Map_values Paper
  | Some filters =>
      do values <- Map_values Paper;
      do h <- the_heap;
      ret (List.filter (matches h filters) values)
  end.

Definition incrementPaperDownloads (id : Z) : M (option loc) :=
  do paper <- getPaper id;
  match paper with
  | None => ret None
  | Some paper =>
      do h <- the_heap;
      do o <- spread paper;
      do updatedPaper <- new_object
        (<["downloads" := js_add h (get h paper "downloads") (VNum 1)]> o);
      run Map_set Paper id updatedPaper;
      ret (Some updatedPaper)
  end.

(** *** Discussions *)

Definition createDiscussionPost (post : obj) (clock : Z) : M loc :=
  do id <- next_id DiscussionPost;
  do now <- new_Date clock;
  do newPost <- new_object
    (<["votes" := VNum 0]>
       (<["updatedAt" := VRef now]>
          (<["createdAt" := VRef now]> (<["id" := VNum id]> post))));
  run Map_set DiscussionPost id newPost;
  ret newPost.

Definition getDiscussionPost (id : Z) : M (option loc) :=
  Map_get DiscussionPost id.

Definition getDiscussionPosts (filters : option obj) : M (list loc) :=
  match filters with
  | None => Map_values DiscussionPost
  | Some filters =>
      do values <- Map_values DiscussionPost;
      do h <- the_heap;
      ret (List.filter (matches h filters) values)
  end.

Definition createDiscussionReply (reply : obj) (clock : Z) : M loc :=
  do id <- next_id DiscussionReply;
  do now <- new_Date clock;
  do newReply <- new_object
    (<["votes" := VNum 0]>
       (<["updatedAt" := VRef now]>
          (<["createdAt" := VRef now]> (<["id" := VNum id]> reply))));
  run Map_set DiscussionReply id newReply;
  ret newReply.

Definition getDiscussionReplies (postId : Z) : M (list loc) :=
  do values <- Map_values DiscussionReply;
  do h <- the_heap;
  ret (List.filter (fun reply => strict_eq (get h reply "postId") (VNum postId)) values).

Definition voteDiscussionPost (id : Z) (value : Z) : M (option loc) :=
  do post <- getDiscussionPost id;
  match post with
  | None => ret None
  | Some post =>
      do h <- the_heap;
      do o <- spread post;
      do updatedPost <- new_object
        (<["votes" := js_add_double h (get h post "votes") (VNum value)]> o);
      run Map_set DiscussionPost id updatedPost;
      ret (Some updatedPost)
  end.

Definition voteDiscussionReply (id : Z) (value : Z) : M (option loc) :=
  do reply <- Map_get DiscussionReply id;
  match reply with
  | None => ret None
  | Some reply =>
      do h <- the_heap;
      do o <- spread reply;
      do updatedReply <- new_object
        (<["votes" := js_add_double h (get h reply "votes") (VNum value)]> o);
      run Map_set DiscussionReply id updatedReply;
      ret (Some updatedReply)
  end.

(** *** Resources *)

Definition createResource (resource : obj) (clock : Z) : M loc :=
  do id <- next_id Resource;
  do now <- new_Date clock;
  do newResource <- new_object
    (<["rating" := VNum 0]>
       (<["downloads" := VNum 0]>
          (<["uploadDate" := VRef now]> (<["id" := VNum id]> resource))));
  run Map_set Resource id newResource;
  ret newResource.

Definition getResource (id : Z) : M (option loc) :=
  Map_get Resource id.

Definition getResources (filters : option obj) : M (list loc) :=
  match filters with
  | None => Map_values Resource
  | Some filters =>
      do values <- Map_values Resource;
      do h <- the_heap;
      ret (List.filter (matches h filters) values)
  end.

Definition incrementResourceDownloads (id : Z) : M (option loc) :=
  do resource <- getResource id;
  match resource with
  | None => ret None
  | Some resource =>
      do h <- the_heap;
      do o <- spread resource;
      do updatedResource <- new_object
        (<["downloads" := js_add h (get h resource "downloads") (VNum 1)]> o);
      run Map_set Resource id updatedResource;
      ret (Some updatedResource)
  end.

Definition rateResource (id : Z) (rating : Z) : M (option loc) :=
  do resource <- getResource id;
  match resource with
  | None => ret None
  | Some resource =>
      do o <- spread resource;
      do updatedResource <- new_object (<["rating" := VNum rating]> o);
      run Map_set Resource id updatedResource;
      ret (Some updatedResource)
  end.

(** *** Study groups *)

Definition createStudyGroup (group : obj) (clock : Z) : M loc :=
  do id <- next_id StudyGroup;
  do now <- new_Date clock;
  do newGroup <- new_object
    (<["createdAt" := VRef now]> (<["id" := VNum id]> group));
  run Map_set StudyGroup id newGroup;
  ret newGroup.

Definition getStudyGroup (id : Z) : M (option loc) :=
  Map_get StudyGroup id.

Definition getStudyGroups (filters : option obj) : M (list loc) :=
  match filters with
  | None => Map_values StudyGroup
  | Some filters =>
      do values <- Map_values StudyGroup;
      do h <- the_heap;
      ret (List.filter (matches h filters) values)
  end.

(** The [groupId]s of the membership rows of [userId]:
    [members.filter(member => member.userId === userId).map(member => member.groupId)] *)
Definition memberGroups_of (h : heap) (userId : Z) (members : list loc) : list val :=
  map (fun member => get h member "groupId")
    (List.filter (fun member => strict_eq (get h member "userId") (VNum userId)) members).

Definition getUserStudyGroups (userId : Z) : M (list loc) :=
  do members <- Map_values StudyGroupMember;
  do h <- the_heap;
  let memberGroups := memberGroups_of h userId members in
  do groups <- Map_values StudyGroup;
  ret (List.filter (fun group => includes memberGroups (get h group "id")) groups).

(** *** Study group members *)

Definition addStudyGroupMember (member : obj) (clock : Z) : M loc :=
  do id <- next_id StudyGroupMember;
  do now <- new_Date clock;
  do newMember <- new_object
    (<["joinedAt" := VRef now]> (<["id" := VNum id]> member));
  run Map_set StudyGroupMember id newMember;
  ret newMember.

Definition getStudyGroupMembers (groupId : Z) : M (list loc) :=
  do values <- Map_values StudyGroupMember;
  do h <- the_heap;
  ret (List.filter (fun member => strict_eq (get h member "groupId") (VNum groupId)) values).

(** [this.studyGroupMembers.delete(key)] for a key read from an
    object: only a number can be a key of the map. *)
Definition Map_delete_key (t : etype) (key : val) : M bool :=
  match key with
  | VNum id => Map_delete t id
  | _ => ret false
  end.

Definition removeStudyGroupMember (groupId userId : Z) : M bool :=
  do values <- Map_values StudyGroupMember;
  do h <- the_heap;
  let memberToDelete :=
    List.find (fun member => strict_eq (get h member "groupId") (VNum groupId)
                             && strict_eq (get h member "userId") (VNum userId)) values in
  match memberToDelete with
  | Some memberToDelete => Map_delete_key StudyGroupMember (get h memberToDelete "id")
  | None => ret false
  end.

(** *** Study sessions *)

Definition createStudySession (session : obj) : M loc :=
  do id <- next_id StudySession;
  do newSession <- new_object (<["id" := VNum id]> session);
  run Map_set StudySession id newSession;
  ret newSession.

Definition getStudySession (id : Z) : M (option loc) :=
  Map_get StudySession id.

Definition getStudySessions (groupId : Z) : M (list loc) :=
  do values <- Map_values StudySession;
  do h <- the_heap;
  ret (List.filter (fun session => strict_eq (get h session "groupId") (VNum groupId)) values).

(** [new Date(session.startTime) > now] *)
Definition starts_after (h : heap) (now : Z) (session : loc) : bool :=
  match Date_getTime h (get h session "startTime") with
  | Some t => (now <? t)%Z
  | None => false
  end.

(** The comparator [(a, b) => new Date(a.startTime).getTime() -
    new Date(b.startTime).getTime()] returns a positive number. *)
Definition later_start (h : heap) (a b : loc) : bool :=
  minus_positive (Date_getTime h (get h a "startTime"))
                 (Date_getTime h (get h b "startTime")).

Definition getUpcomingStudySessions (userId : Z) (clock : Z) : M (list loc) :=
  do members <- Map_values StudyGroupMember;
  do h <- the_heap;
  let memberGroups := memberGroups_of h userId members in
  let now := clock in
  do sessions <- Map_values StudySession;
  ret (js_sort (later_start h)
         (List.filter (fun session => includes memberGroups (get h session "groupId")
                                      && starts_after h now session) sessions)).

(** *** Activities *)

Definition createActivity (activity : obj) (clock : Z) : M loc :=
  do id <- next_id Activity;
  do now <- new_Date clock;
  do newActivity <- new_object
    (<["createdAt" := VRef now]> (<["id" := VNum id]> activity));
  run Map_set Activity id newActivity;
  ret newActivity.

(** The comparator [(a, b) => new Date(b.createdAt).getTime() -
    new Date(a.createdAt).getTime()] returns a positive number. *)
Definition earlier_created (h : heap) (a b : loc) : bool :=
  minus_positive (Date_getTime h (get h b "createdAt"))
                 (Date_getTime h (get h a "createdAt")).

(** [limit ? arr.slice(0, limit) : arr] *)
Definition limited (limit : option Z) (arr : list loc) : list loc :=
  match limit with
  | Some n => if (n =? 0)%Z then arr else slice0 arr n
  | None => arr
  end.

Definition getUserActivities (userId : Z) (limit : option Z) : M (list loc) :=
  do values <- Map_values Activity;
  do h <- the_heap;
  let userActivities :=
    js_sort (earlier_created h)
      (List.filter (fun activity => strict_eq (get h activity "userId") (VNum userId)) values) in
  ret (limited limit userActivities).

Definition getRecentActivities (limit : option Z) : M (list loc) :=
  do values <- Map_values Activity;
  do h <- the_heap;
  let allActivities := js_sort (earlier_created h) values in
  ret (limited limit allActivities).

(** *** Calls

    One constructor per method of [IStorage], and what a call
    returns. *)

Inductive call :=
  | GetUser (id : Z)
  | GetUserByUsername (username : string)
  | GetUserByEmail (email : string)
  | CreateUser (insertUser : obj) (clock : Z)
  | UpdateUser (id : Z) (userData : obj)
  | CreatePaper (paper : obj) (clock : Z)
  | GetPaper (id : Z)
  | GetPapers (filters : option obj)
  | IncrementPaperDownloads (id : Z)
  | CreateDiscussionPost (post : obj) (clock : Z)
  | GetDiscussionPost (id : Z)
  | GetDiscussionPosts (filters : option obj)
  | CreateDiscussionReply (reply : obj) (clock : Z)
  | GetDiscussionReplies (postId : Z)
  | VoteDiscussionPost (id value : Z)
  | VoteDiscussionReply (id value : Z)
  | CreateResource (resource : obj) (clock : Z)
  | GetResource (id : Z)
  | GetResources (filters : option obj)
  | IncrementResourceDownloads (id : Z)
  | RateResource (id rating : Z)
  | CreateStudyGroup (group : obj) (clock : Z)
  | GetStudyGroup (id : Z)
  | GetStudyGroups (filters : option obj)
  | GetUserStudyGroups (userId : Z)
  | AddStudyGroupMember (member : obj) (clock : Z)
  | GetStudyGroupMembers (groupId : Z)
  | RemoveStudyGroupMember (groupId userId : Z)
  | CreateStudySession (session : obj)
  | GetStudySession (id : Z)
  | GetStudySessions (groupId : Z)
  | GetUpcomingStudySessions (userId : Z) (clock : Z)
  | CreateActivity (activity : obj) (clock : Z)
  | GetUserActivities (userId : Z) (limit : option Z)
  | GetRecentActivities (limit : option Z).

Inductive result :=
  | Undefined
  | Entity (l : loc)
  | Entities (ls : list loc)
  | Boolean (b : bool)
  | TypeError.

Definition fmap_M {A B} (f : A → B) (m : M A) : M B :=
  do a <- m; ret (f a).

Definition of_option (o : option loc) : result :=
  match o with
  | Some l => Entity l
  | None => Undefined
  end.

Definition of_find (o : option (option loc)) : result :=
  match o with
  | Some r => of_option r
  | None => TypeError
  end.

Definition exec (c : call) : M result :=
  match c with
  | GetUser id => fmap_M of_option (getUser id)
  | GetUserByUsername username => fmap_M of_find (getUserByUsername username)
  | GetUserByEmail email => fmap_M of_find (getUserByEmail email)
  | CreateUser insertUser clock => fmap_M Entity (createUser insertUser clock)
  | UpdateUser id userData => fmap_M of_option (updateUser id userData)
  | CreatePaper paper clock => fmap_M Entity (createPaper paper clock)
  | GetPaper id => fmap_M of_option (getPaper id)
  | GetPapers filters => fmap_M Entities (getPapers filters)
  | IncrementPaperDownloads id => fmap_M of_option (incrementPaperDownloads id)
  | CreateDiscussionPost post clock => fmap_M Entity (createDiscussionPost post clock)
  | GetDiscussionPost id => fmap_M of_option (getDiscussionPost id)
  | GetDiscussionPosts filters => fmap_M Entities (getDiscussionPosts filters)
  | CreateDiscussionReply reply clock => fmap_M Entity (createDiscussionReply reply clock)
  | GetDiscussionReplies postId => fmap_M Entities (getDiscussionReplies postId)
  | VoteDiscussionPost id value => fmap_M of_option (voteDiscussionPost id value)
  | VoteDiscussionReply id value => fmap_M of_option (voteDiscussionReply id value)
  | CreateResource resource clock => fmap_M Entity (createResource resource clock)
  | GetResource id => fmap_M of_option (getResource id)
  | GetResources filters => fmap_M Entities (getResources filters)
  | IncrementResourceDownloads id => fmap_M of_option (incrementResourceDownloads id)
  | RateResource id rating => fmap_M of_option (rateResource id rating)
  | CreateStudyGroup group clock => fmap_M Entity (createStudyGroup group clock)
  | GetStudyGroup id => fmap_M of_option (getStudyGroup id)
  | GetStudyGroups filters => fmap_M Entities (getStudyGroups filters)
  | GetUserStudyGroups userId => fmap_M Entities (getUserStudyGroups userId)
  | AddStudyGroupMember member clock => fmap_M Entity (addStudyGroupMember member clock)
  | GetStudyGroupMembers groupId => fmap_M Entities (getStudyGroupMembers groupId)
  | RemoveStudyGroupMember groupId userId =>
      fmap_M Boolean (removeStudyGroupMember groupId userId)
  | CreateStudySession session => fmap_M Entity (createStudySession session)
  | GetStudySession id => fmap_M of_option (getStudySession id)
  | GetStudySessions groupId => fmap_M Entities (getStudySessions groupId)
  | GetUpcomingStudySessions userId clock =>
      fmap_M Entities (getUpcomingStudySessions userId clock)
  | CreateActivity activity clock => fmap_M Entity (createActivity activity clock)
  | GetUserActivities userId limit => fmap_M Entities (getUserActivities userId limit)
  | GetRecentActivities limit => fmap_M Entities (getRecentActivities limit)
  end.
End Methods.

(** ** Histories

    What happens to a store during the life of the process: the route
    handlers call its methods, and allocate objects of their own in
    between. *)

Inductive action :=
  | Call (c : call)
  | New (c : cell).

(** The entity type a call creates an entity of. *)
Definition creates (c : call) : option etype :=
  match c with
  | CreateUser _ _ => Some User
  | CreatePaper _ _ => Some Paper
  | CreateDiscussionPost _ _ => Some DiscussionPost
  | CreateDiscussionReply _ _ => Some DiscussionReply
  | CreateResource _ _ => Some Resource
  | CreateStudyGroup _ _ => Some StudyGroup
  | AddStudyGroupMember _ _ => Some StudyGroupMember
  | CreateStudySession _ => Some StudySession
  | CreateActivity _ _ => Some Activity
  | _ => None
  end.

Section Histories.
Context `{Builtins}.

Definition step (a : action) (w : world) : world :=
  match a with
  | Call c => (exec c w).2
  | New c => (alloc c w).2
  end.

Definition play (acts : list action) (w : world) : world :=
  foldl (fun w a => step a w) w acts.

(** The [id] of the entity that a call returns when it is a create of
    type [t], read when the call returns. *)
Definition issued_by (t : etype) (a : action) (w : world) : list val :=
  match a with
  | Call c =>
      if decide (creates c = Some t) then
        match exec c w with
        | (Entity l, w') => [get (mem w') l "id"]
        | _ => []
        end
      else []
  | New _ => []
  end.

(** The ids issued for [t], in order, while [acts] is played from [w]. *)
Fixpoint issued (t : etype) (acts : list action) (w : world) : list val :=
  match acts with
  | [] => []
  | a :: acts' => issued_by t a w ++ issued t acts' (step a w)
  end.

(** The worlds a store gets into, starting from [new MemStorage()] on
    any heap, when its entities change only through its methods: the
    callers allocate objects but do not assign through the references
    the store gave them. *)
Definition reachable (w : world) : Prop :=
  ∃ h acts, w = play acts (mkWorld h constructor).
End Histories.

(** The methods [list(filters?)] and [getById(id)] of the entity types
    that have them. *)
Inductive list_method : etype → (option obj → M (list loc)) → Prop :=
  | list_papers : list_method Paper getPapers
  | list_discussionPosts : list_method DiscussionPost getDiscussionPosts
  | list_resources : list_method Resource getResources
  | list_studyGroups : list_method StudyGroup getStudyGroups.

Inductive get_method : etype → (Z → M (option loc)) → Prop :=
  | get_user : get_method User getUser
  | get_paper : get_method Paper getPaper
  | get_discussionPost : get_method DiscussionPost getDiscussionPost
  | get_resource : get_method Resource getResource
  | get_studyGroup : get_method StudyGroup getStudyGroup
  | get_studySession : get_method StudySession getStudySession.

(** The calls that only read. *)
Definition reads (c : call) : bool :=
  match c with
  | GetUser _ | GetUserByUsername _ | GetUserByEmail _
  | GetPaper _ | GetPapers _
  | GetDiscussionPost _ | GetDiscussionPosts _ | GetDiscussionReplies _
  | GetResource _ | GetResources _
  | GetStudyGroup _ | GetStudyGroups _ | GetUserStudyGroups _
  | GetStudyGroupMembers _
  | GetStudySession _ | GetStudySessions _ | GetUpcomingStudySessions _ _
  | GetUserActivities _ _ | GetRecentActivities _ => true
  | _ => false
  end.

(** The references a result carries. *)
Definition refs_of (r : result) : list loc :=
  match r with
  | Entity l => [l]
  | Entities ls => ls
  | _ => []
  end.

(** The references the store holds. *)
Definition stored (t : etype) (w : world) : list loc :=
  map_values (table t (this w)).

(** What a caller does with a reference it holds: [l.k = v]. *)
Definition assign (l : loc) (k : string) (v : val) (w : world) : world :=
  mkWorld (put (mem w) l k v) (this w).

(** A runtime for examples: ASCII lower-casing, no date strings, plain
    objects. *)
Definition lower_ascii (a : Ascii.ascii) : Ascii.ascii :=
  let n := Ascii.nat_of_ascii a in
  if ((65 <=? n) && (n <=? 90))%nat then Ascii.ascii_of_nat (n + 32) else a.

Fixpoint lower_string (s : string) : string :=
  match s with
  | EmptyString => EmptyString
  | String a s' => String (lower_ascii a) (lower_string s')
  end.

Definition sample_builtins : Builtins :=
  {| toLowerCase := lower_string;
     Date_parse := fun _ => None;
     object_to_string := fun _ _ => "[object Object]" |}.

(** The time value of a stored session's [startTime]. *)
Definition start_time `{Builtins} (w : world) (session : loc) : option Z :=
  Date_getTime (mem w) (get (mem w) session "startTime").

(** ** The shapes of the methods

    Every method is a read, a create, a read-modify-replace of one
    entity, or the removal of a membership row.  The two generic
    computations below are what the creates and the updates are
    instances of. *)

Definition gen_create (t : etype) (stamp : option Z) (build : Z → loc → obj) : M loc :=
  do id <- next_id t;
  do now <- match stamp with
            | Some clock => new_Date clock
            | None => ret 0%nat
            end;
  do l <- new_object (build id now);
  run Map_set t id l;
  ret l.

Definition gen_update (t : etype) (id : Z) (f : heap → loc → obj) : M (option loc) :=
  do x <- Map_get t id;
  match x with
  | None => ret None
  | Some l =>
      do h <- the_heap;
      do u <- new_object (f h l);
      run Map_set t id u;
      ret (Some u)
  end.

Inductive shape :=
  | SRead
  | SCreate (t : etype) (stamp : option Z) (build : Z → loc → obj)
  | SUpdate (t : etype) (id : Z) (f : heap → loc → obj)
  | SRemove (groupId userId : Z).

Definition shape_of `{Builtins} (c : call) : shape :=
  match c with
  | CreateUser insertUser clock =>
      SCreate User (Some clock) (fun id now =>
        <["points" := VNum 0]>
          (<["createdAt" := VRef now]> (<["id" := VNum id]> insertUser)))
  | UpdateUser id userData =>
      SUpdate User id (fun h l => userData ∪ fields h l)
  | CreatePaper paper clock =>
      SCreate Paper (Some clock) (fun id now =>
        <["downloads" := VNum 0]>
          (<["uploadDate" := VRef now]> (<["id" := VNum id]> paper)))
  | IncrementPaperDownloads id =>
      SUpdate Paper id (fun h l =>
        <["downloads" := js_add h (get h l "downloads") (VNum 1)]> (fields h l))
  | CreateDiscussionPost post clock =>
      SCreate DiscussionPost (Some clock) (fun id now =>
        <["votes" := VNum 0]>
          (<["updatedAt" := VRef now]>
             (<["createdAt" := VRef now]> (<["id" := VNum id]> post))))
  | CreateDiscussionReply reply clock =>
      SCreate DiscussionReply (Some clock) (fun id now =>
        <["votes" := VNum 0]>
          (<["updatedAt" := VRef now]>
             (<["createdAt" := VRef now]> (<["id" := VNum id]> reply))))
  | VoteDiscussionPost id value =>
      SUpdate DiscussionPost id (fun h l =>
        <["votes" := js_add_double h (get h l "votes") (VNum value)]> (fields h l))
  | VoteDiscussionReply id value =>
      SUpdate DiscussionReply id (fun h l =>
        <["votes" := js_add_double h (get h l "votes") (VNum value)]> (fields h l))
  | CreateResource resource clock =>
      SCreate Resource (Some clock) (fun id now =>
        <["rating" := VNum 0]>
          (<["downloads" := VNum 0]>
             (<["uploadDate" := VRef now]> (<["id" := VNum id]> resource))))
  | IncrementResourceDownloads id =>
      SUpdate Resource id (fun h l =>
        <["downloads" := js_add h (get h l "downloads") (VNum 1)]> (fields h l))
  | RateResource id rating =>
      SUpdate Resource id (fun h l => <["rating" := VNum rating]> (fields h l))
  | CreateStudyGroup group clock =>
      SCreate StudyGroup (Some clock) (fun id now =>
        <["createdAt" := VRef now]> (<["id" := VNum id]> group))
  | AddStudyGroupMember member clock =>
      SCreate StudyGroupMember (Some clock) (fun id now =>
        <["joinedAt" := VRef now]> (<["id" := VNum id]> member))
  | RemoveStudyGroupMember groupId userId => SRemove groupId userId
  | CreateStudySession session =>
      SCreate StudySession None (fun id _ => <["id" := VNum id]> session)
  | CreateActivity activity clock =>
      SCreate Activity (Some clock) (fun id now =>
        <["createdAt" := VRef now]> (<["id" := VNum id]> activity))
  | _ => SRead
  end.

(** ** Well-formed worlds *)

(** A row [(k, l)] of the map of [t]: the key was issued, [l] is a live
    object whose [id] is the key (a user's [id] can be overwritten by
    [updateUser]), and a post's [votes] is a number. *)
Definition row_ok (t : etype) (h : heap) (s : MemStorage) (r : Z * loc) : Prop :=
  1 ≤ r.1 < current t s ∧
  ∃ o, h !! r.2 = Some (HObj o) ∧
       (t ≠ User → o !! "id" = Some (VNum r.1)) ∧
       (t = DiscussionPost → ∃ n, o !! "votes" = Some (VNum n)).

Definition wf (w : world) : Prop :=
  ∀ t, 1 ≤ current t (this w) ∧
       StronglySorted Z.lt (map_keys (table t (this w))) ∧
       Forall (row_ok t (mem w) (this w)) (table t (this w)).

(** The properties of the object stored under [id], if any. *)
Definition stored_entity (t : etype) (id : Z) (w : world) : option obj :=
  fields (mem w) <$> map_get (table t (this w)) id.

(** The name of the property that holds the creation time, and the clock
    reading a create is given. *)
Definition timestamp_field (t : etype) : string :=
  match t with
  | Paper | Resource => "uploadDate"
  | StudyGroupMember => "joinedAt"
  | _ => "createdAt"
  end.

Definition clock_of (c : call) : option Z :=
  match c with
  | CreateUser _ clock | CreatePaper _ clock | CreateDiscussionPost _ clock
  | CreateDiscussionReply _ clock | CreateResource _ clock
  | CreateStudyGroup _ clock | AddStudyGroupMember _ clock
  | CreateActivity _ clock => Some clock
  | _ => None
  end.

(** A property of the entity [l] refers to a [Date] that did not exist
    in the heap [before]. *)
Definition has_timestamp (before : heap) (w : world) (l : loc) : Prop :=
  ∃ k d t, fields (mem w) l !! k = Some (VRef d) ∧
           before !! d = None ∧ mem w !! d = Some (HDate t).

(** A membership row of [userId] in the group [groupId]. *)
Definition is_membership (h : heap) (groupId userId : Z) (member : loc) : bool :=
  strict_eq (get h member "groupId") (VNum groupId)
  && strict_eq (get h member "userId") (VNum userId).

(** [userId] has a membership row whose [groupId] is [g]. *)
Definition member_of (w : world) (userId : Z) (g : val) : Prop :=
  ∃ m, m ∈ stored StudyGroupMember w ∧
       strict_eq (get (mem w) m "userId") (VNum userId) = true ∧
       same_value_zero (get (mem w) m "groupId") g = true.

(** Ascending start times. *)
Definition starts_no_later `{Builtins} (w : world) (a b : loc) : Prop :=
  ∃ ta tb, start_time w a = Some ta ∧ start_time w b = Some tb ∧ ta ≤ tb.

(** ** What a create does *)

(** The cells a create allocates: the [Date] when it reads the clock,
    then the entity. *)
Definition new_cells (stamp : option Z) (o : obj) : list cell :=
  match stamp with
  | Some clock => [HDate (Some clock); HObj o]
  | None => [HObj o]
  end.

(** Where the entity goes. *)
Definition new_loc (stamp : option Z) (h : heap) : loc :=
  match stamp with
  | Some _ => S (length h)
  | None => length h
  end.

(** The id a step issues for [t], as a key. *)
Definition key_issued (t : etype) (a : action) (w : world) : list Z :=
  match a with
  | Call c => if decide (creates c = Some t) then [current t (this w)] else []
  | New _ => []
  end.


(** Sorting by a time value: the comparator subtracts the time values of
    its arguments. *)
Definition time_gt {A} (key : A → option Z) (a b : A) : bool :=
  minus_positive (key a) (key b).

Definition time_le {A} (key : A → option Z) (a b : A) : Prop :=
  ∃ ta tb, key a = Some ta ∧ key b = Some tb ∧ ta ≤ tb.

Definition has_time {A} (key : A → option Z) (a : A) : Prop :=
  ∃ t, key a = Some t.

(** ** A worked history *)

(** A user founds a group and joins it twice; a post, two papers and
    three sessions are created; the first paper is downloaded once. *)
Definition example_history : list action :=
  [ Call (CreateUser {[ "username" := VStr "Ada"; "email" := VStr "ada@example.org" ]} 1000);
    Call (CreateStudyGroup {[ "name" := VStr "Algebra"; "creatorId" := VNum 1 ]} 2000);
    Call (AddStudyGroupMember
            {[ "groupId" := VNum 1; "userId" := VNum 1; "isAdmin" := VBool true ]} 2000);
    Call (AddStudyGroupMember
            {[ "groupId" := VNum 1; "userId" := VNum 1; "isAdmin" := VBool false ]} 2500);
    Call (CreateDiscussionPost {[ "title" := VStr "Rings"; "authorId" := VNum 1 ]} 3000);
    Call (CreatePaper {[ "course" := VStr "MATH101"; "year" := VNum 2020 ]} 4000);
    Call (CreatePaper {[ "course" := VStr "MATH102"; "year" := VNum 2020 ]} 4500);
    Call (CreateStudySession {[ "groupId" := VNum 1; "startTime" := VNum 9000 ]});
    Call (CreateStudySession {[ "groupId" := VNum 1; "startTime" := VNum 7000 ]});
    Call (CreateStudySession {[ "groupId" := VNum 1; "startTime" := VNum 100 ]});
    Call (IncrementPaperDownloads 1) ].

Definition fresh_world : world := mkWorld [] constructor.

Definition example_world : world :=
  @play sample_builtins example_history fresh_world.

(** A membership row and a session that carry a group id under which
    no group is stored. *)
Definition orphan_history : list action :=
  [ Call (AddStudyGroupMember {[ "groupId" := VNum 9; "userId" := VNum 1 ]} 1000);
    Call (CreateStudySession {[ "groupId" := VNum 9; "startTime" := VNum 9000 ]}) ].

Definition orphan_world : world :=
  @play sample_builtins orphan_history fresh_world.



(** ** Further definitions: invariants, users, updates, feeds and group routes *)

(** The reference a create passes to the builder of the entity as
    [now]: the new [Date], when the create makes one. *)
Definition new_now (stamp : option Z) (h : heap) : loc :=
  match stamp with
  | Some _ => length h
  | None => 0%nat
  end.

(** The entity type whose map and counter a call can change. *)
Definition touches (c : call) : option etype :=
  match c with
  | UpdateUser _ _ => Some User
  | IncrementPaperDownloads _ => Some Paper
  | VoteDiscussionPost _ _ => Some DiscussionPost
  | VoteDiscussionReply _ _ => Some DiscussionReply
  | IncrementResourceDownloads _ | RateResource _ _ => Some Resource
  | RemoveStudyGroupMember _ _ => Some StudyGroupMember
  | _ => creates c
  end.

(** The one property that a counter update writes. *)
Definition written_property (c : call) : option string :=
  match c with
  | IncrementPaperDownloads _ | IncrementResourceDownloads _ => Some "downloads"
  | VoteDiscussionPost _ _ | VoteDiscussionReply _ _ => Some "votes"
  | RateResource _ _ => Some "rating"
  | _ => None
  end.

(** The entity types whose entities are never replaced or removed. *)
Definition append_only (t : etype) : bool :=
  match t with
  | StudyGroup | StudySession | Activity => true
  | _ => false
  end.

(** Every row of every map refers to a live object that satisfies [P]. *)
Definition rows_satisfy (P : etype → heap → obj → Prop) (w : world) : Prop :=
  ∀ t k l, (k, l) ∈ table t (this w) →
    ∃ o, mem w !! l = Some (HObj o) ∧ P t (mem w) o.

(** What the store's own code guarantees of the properties it writes:
    download counters are natural numbers, votes and ratings are
    numbers, and every timestamp refers to a valid [Date].  Users are
    left out: [updateUser] can overwrite any property of a user. *)
Definition well_typed (t : etype) (h : heap) (o : obj) : Prop :=
  match t with
  | User => True
  | Paper =>
      (∃ n, o !! "downloads" = Some (VNum n) ∧ 0 ≤ n) ∧
      ∃ d time, o !! "uploadDate" = Some (VRef d) ∧ h !! d = Some (HDate (Some time))
  | DiscussionPost | DiscussionReply =>
      (∃ n, o !! "votes" = Some (VNum n)) ∧
      ∃ d time, o !! "createdAt" = Some (VRef d) ∧ h !! d = Some (HDate (Some time))
  | Resource =>
      (∃ n, o !! "downloads" = Some (VNum n) ∧ 0 ≤ n) ∧
      (∃ r, o !! "rating" = Some (VNum r)) ∧
      ∃ d time, o !! "uploadDate" = Some (VRef d) ∧ h !! d = Some (HDate (Some time))
  | StudyGroup | Activity =>
      ∃ d time, o !! "createdAt" = Some (VRef d) ∧ h !! d = Some (HDate (Some time))
  | StudyGroupMember =>
      ∃ d time, o !! "joinedAt" = Some (VRef d) ∧ h !! d = Some (HDate (Some time))
  | StudySession => True
  end.

(** The lookups of a user by a string property, case-insensitively. *)
Inductive user_lookup `{Builtins} : string → (string → M (option (option loc))) → Prop :=
  | lookup_username : user_lookup "username" getUserByUsername
  | lookup_email : user_lookup "email" getUserByEmail.

(** The property [key] of [l] is a string that is [s] up to case. *)
Definition same_lower `{Builtins} (h : heap) (key s : string) (l : loc) : Prop :=
  ∃ x, get h l key = VStr x ∧ toLowerCase x = toLowerCase s.

(** The property [key] of [l] is a string that is not [s] up to case. *)
Definition other_lower `{Builtins} (h : heap) (key s : string) (l : loc) : Prop :=
  ∃ x, get h l key = VStr x ∧ toLowerCase x ≠ toLowerCase s.

(** The property [key] of the entity stored under [id]. *)
Definition stored_prop (t : etype) (id : Z) (key : string) (w : world) : option val :=
  (fun o => prop o key) <$> stored_entity t id w.

(** The id argument of an update. *)
Definition updated_id (c : call) : option Z :=
  match c with
  | UpdateUser id _ | IncrementPaperDownloads id | VoteDiscussionPost id _
  | VoteDiscussionReply id _ | IncrementResourceDownloads id | RateResource id _ => Some id
  | _ => None
  end.

(** The lists of the entities of a type whose property [key] is a given
    number. *)
Inductive field_list : etype → string → (Z → M (list loc)) → Prop :=
  | replies_of_post : field_list DiscussionReply "postId" getDiscussionReplies
  | members_of_group : field_list StudyGroupMember "groupId" getStudyGroupMembers
  | sessions_of_group : field_list StudySession "groupId" getStudySessions.

(** The time value of a stored activity's [createdAt]. *)
Definition created_time `{Builtins} (w : world) (activity : loc) : option Z :=
  Date_getTime (mem w) (get (mem w) activity "createdAt").

(** Descending creation times. *)
Definition created_no_earlier `{Builtins} (w : world) (a b : loc) : Prop :=
  ∃ ta tb, created_time w a = Some ta ∧ created_time w b = Some tb ∧ tb ≤ ta.

(** The two activity feeds: all activities, or those of one user. *)
Definition in_feed (w : world) (userId : option Z) (activity : loc) : Prop :=
  activity ∈ stored Activity w ∧
  match userId with
  | Some u => strict_eq (get (mem w) activity "userId") (VNum u) = true
  | None => True
  end.

Definition feed `{Builtins} (userId : option Z) (limit : option Z) : M (list loc) :=
  match userId with
  | Some u => getUserActivities u limit
  | None => getRecentActivities limit
  end.

(** The object a create is given, and the properties that the store
    assigns to the entity whatever that object says. *)
Definition input_of (c : call) : obj :=
  match c with
  | CreateUser o _ | CreatePaper o _ | CreateDiscussionPost o _
  | CreateDiscussionReply o _ | CreateResource o _ | CreateStudyGroup o _
  | AddStudyGroupMember o _ | CreateStudySession o | CreateActivity o _ => o
  | _ => ∅
  end.

Definition store_assigned (t : etype) : list (string * option val) :=
  match t with
  | User => [("id", None); ("createdAt", None); ("points", Some (VNum 0))]
  | Paper => [("id", None); ("uploadDate", None); ("downloads", Some (VNum 0))]
  | DiscussionPost | DiscussionReply =>
      [("id", None); ("createdAt", None); ("updatedAt", None); ("votes", Some (VNum 0))]
  | Resource =>
      [("id", None); ("uploadDate", None); ("downloads", Some (VNum 0));
       ("rating", Some (VNum 0))]
  | StudyGroup | Activity => [("id", None); ("createdAt", None)]
  | StudyGroupMember => [("id", None); ("joinedAt", None)]
  | StudySession => [("id", None)]
  end.

(** ** Route handlers

    The handlers of the routes that call the store, each run on its own:
    no other request runs between its calls of the store.  A path
    parameter read with [parseInt] is an integer.  [req.user] is the
    object [deserializeUser] got from [storage.getUser]. *)

(** ToBoolean *)
Definition truthy (v : val) : bool :=
  match v with
  | VUndef | VNull | VNaN => false
  | VBool b => b
  | VNum n => negb (n =? 0)%Z
  | VStr s => negb (String.eqb s "")
  | VRef _ => true
  end.

(** What a handler answers; [Next] is [next(error)]. *)
Inductive response :=
  | Send (status : Z) (text : string)
  | SendJson (status : Z) (entity : loc)
  | SendValidationError (status : Z)
  | End_ (status : Z)
  | Redirect (url : string)
  | Next.

(** The insert schemas of [@shared/schema]: [parse] returns the
    validated data, [None] when it throws a [ZodError]. *)
Class Schemas := {
  insertStudyGroupSchema : obj → option obj;
  insertStudyGroupMemberSchema : obj → option obj
}.

Section Routes.
Context `{Builtins} `{Schemas}.

(** [POST /api/groups] *)
Definition post_groups (body : obj) (clock1 clock2 clock3 : Z) (user : loc) : M response :=
  do h <- the_heap;
  match insertStudyGroupSchema (<["creatorId" := get h user "id"]> body) with
  | None => ret (SendValidationError 400)
  | Some groupData =>
      do newGroup <- createStudyGroup groupData clock1;
      do h <- the_heap;
      run addStudyGroupMember
        (<["isAdmin" := VBool true]>
           (<["userId" := get h user "id"]> {[ "groupId" := get h newGroup "id" ]}))
        clock2;
      do h <- the_heap;
      do metadata <- new_object {[ "name" := get h newGroup "name" ]};
      run createActivity
        (<["metadata" := VRef metadata]>
           (<["targetType" := VStr "study_group"]>
              (<["targetId" := get h newGroup "id"]>
                 (<["type" := VStr "group_created"]>
                    {[ "userId" := get h user "id" ]}))))
        clock3;
      ret (SendJson 201 newGroup)
  end.

(** [POST /api/groups/:id/members] *)
Definition post_group_members (groupId : Z) (body : obj) (clock1 clock2 : Z)
    (user : loc) : M response :=
  do group <- getStudyGroup groupId;
  match group with
  | None => ret (Send 404 "Study group not found")
  | Some group =>
      match insertStudyGroupMemberSchema (<["groupId" := VNum groupId]> body) with
      | None => ret (SendValidationError 400)
      | Some memberData =>
          do newMember <- addStudyGroupMember memberData clock1;
          do h <- the_heap;
          do metadata <- new_object {[ "name" := get h group "name" ]};
          run createActivity
            (<["metadata" := VRef metadata]>
               (<["targetType" := VStr "study_group"]>
                  (<["targetId" := VNum groupId]>
                     (<["type" := VStr "group_joined"]>
                        {[ "userId" := prop memberData "userId" ]}))))
            clock2;
          ret (SendJson 201 newMember)
      end
  end.

(** [members.find(m => m.userId === req.user.id)] *)
Definition requestingUserMembership (h : heap) (user : loc) (members : list loc)
  : option loc :=
  List.find (fun m => strict_eq (get h m "userId") (get h user "id")) members.

(** [userId !== req.user.id &&
     (!requestingUserMembership || !requestingUserMembership.isAdmin)] *)
Definition may_not_remove (h : heap) (user : loc) (userId : Z) (members : list loc) : bool :=
  negb (strict_eq (VNum userId) (get h user "id"))
  && match requestingUserMembership h user members with
     | None => true
     | Some m => negb (truthy (get h m "isAdmin"))
     end.

(** [DELETE /api/groups/:groupId/members/:userId] *)
Definition delete_group_member (groupId userId : Z) (user : loc) : M response :=
  do members <- getStudyGroupMembers groupId;
  do h <- the_heap;
  if may_not_remove h user userId members then
    ret (Send 403 "You are not authorized to remove this member")
  else
    do result <- removeStudyGroupMember groupId userId;
    if negb result then ret (Send 404 "Member not found in group")
    else ret (End_ 204).
End Routes.

(** Schemas for examples: a group needs a name, a membership row a
    user id. *)
Definition sample_schemas : Schemas :=
  {| insertStudyGroupSchema := fun o =>
       match o !! "name" with
       | Some (VStr _) => Some o
       | _ => None
       end;
     insertStudyGroupMemberSchema := fun o =>
       match o !! "userId" with
       | Some (VNum _) => Some o
       | _ => None
       end |}.

(** After the example history: a second user, a reply, a resource and
    two activities. *)
Definition second_history : list action :=
  example_history ++
  [ Call (CreateUser {[ "username" := VStr "Bob"; "email" := VStr "Bob@Example.org" ]} 6000);
    Call (CreateDiscussionReply {[ "postId" := VNum 1; "authorId" := VNum 2 ]} 6100);
    Call (CreateResource {[ "title" := VStr "Notes" ]} 6200);
    Call (CreateActivity {[ "userId" := VNum 1; "type" := VStr "group_created" ]} 6300);
    Call (CreateActivity {[ "userId" := VNum 2; "type" := VStr "group_joined" ]} 6400) ].

Definition second_world : world :=
  @play sample_builtins second_history fresh_world.

(** ** Registration

    [POST /api/register] of the authentication module and
    [POST /api/direct-register] of the routes.  The body is the object
    that the body parser made of the request, and its properties are not
    validated: the handlers pass [req.body.username] and
    [req.body.email] on as they are.  The result of [hashPassword] and
    the outcome of [req.login] are inputs of the handler.
    [post_register] and [post_direct_register] are the handlers run in
    one piece, for a request that is alone at the server. *)

(** [storage.getUserByUsername(x)] and [storage.getUserByEmail(x)] for
    an [x] of any type.  When [x] is not a string, the callback of
    [find] throws a [TypeError] at the first user, at
    [user.username.toLowerCase()] or else at [x.toLowerCase()]; without
    users the callback is not called. *)
Definition untyped_lookup (method : string → M (option (option loc))) (x : val)
  : M (option (option loc)) :=
  match x with
  | VStr s => method s
  | _ =>
      do values <- Map_values User;
      ret (match values with
           | [] => Some None
           | _ :: _ => None
           end)
  end.

Section Registration.
Context `{Builtins}.

(** [POST /api/register] *)
Definition post_register (body : obj) (hashed : option string) (clock : Z)
    (login_err : bool) : M response :=
  do existingUser <- untyped_lookup getUserByUsername (prop body "username");
  match existingUser with
  | None => ret Next
  | Some (Some _) => ret (Send 400 "Username already exists")
  | Some None =>
      do existingEmail <- untyped_lookup getUserByEmail (prop body "email");
      match existingEmail with
      | None => ret Next
      | Some (Some _) => ret (Send 400 "Email already exists")
      | Some None =>
          match hashed with
          | None => ret Next
          | Some hashedPassword =>
              do user <- createUser (<["password" := VStr hashedPassword]> body) clock;
              do o <- spread user;
              do userResponse <- new_object (delete "password" o);
              if login_err then ret Next else ret (SendJson 201 userResponse)
          end
      end
  end.

(** [POST /api/direct-register] *)
Definition post_direct_register (body : obj) (hashed : option string) (clock : Z)
    (login_err : bool) : M response :=
  do existingUser <- untyped_lookup getUserByUsername (prop body "username");
  match existingUser with
  | None => ret (Redirect "/direct-register?error=Registration+failed")
  | Some (Some _) => ret (Redirect "/direct-register?error=Username+already+exists")
  | Some None =>
      do existingEmail <- untyped_lookup getUserByEmail (prop body "email");
      match existingEmail with
      | None => ret (Redirect "/direct-register?error=Registration+failed")
      | Some (Some _) => ret (Redirect "/direct-register?error=Email+already+exists")
      | Some None =>
          match hashed with
          | None => ret (Redirect "/direct-register?error=Registration+failed")
          | Some hashedPassword =>
              run createUser (<["password" := VStr hashedPassword]> body) clock;
              if login_err then ret Next else ret (Redirect "/")
          end
      end
  end.
End Registration.

(** *** Requests that overlap

    Both handlers wait for [hashPassword] between the two lookups and
    [createUser], and while one request waits the server handles
    others.  Nothing else in these handlers lets another request in:
    the methods of the store settle at once, and after [createUser] a
    handler does not touch the store again. *)

Section RegistrationSteps.
Context `{Builtins}.

(** [POST /api/register] up to [await hashPassword(...)]: [Some r] when
    the handler answers [r] there, [None] when it goes on to hash the
    password. *)
Definition register_lookups (body : obj) : M (option response) :=
  do existingUser <- untyped_lookup getUserByUsername (prop body "username");
  match existingUser with
  | None => ret (Some Next)
  | Some (Some _) => ret (Some (Send 400 "Username already exists"))
  | Some None =>
      do existingEmail <- untyped_lookup getUserByEmail (prop body "email");
      match existingEmail with
      | None => ret (Some Next)
      | Some (Some _) => ret (Some (Send 400 "Email already exists"))
      | Some None => ret None
      end
  end.

(** [POST /api/register] from the result of [hashPassword] on. *)
Definition register_resume (body : obj) (hashed : option string) (clock : Z)
    (login_err : bool) : M response :=
  match hashed with
  | None => ret Next
  | Some hashedPassword =>
      do user <- createUser (<["password" := VStr hashedPassword]> body) clock;
      do o <- spread user;
      do userResponse <- new_object (delete "password" o);
      if login_err then ret Next else ret (SendJson 201 userResponse)
  end.

(** [POST /api/direct-register] up to [await hashPassword(...)]. *)
Definition direct_register_lookups (body : obj) : M (option response) :=
  do existingUser <- untyped_lookup getUserByUsername (prop body "username");
  match existingUser with
  | None => ret (Some (Redirect "/direct-register?error=Registration+failed"))
  | Some (Some _) => ret (Some (Redirect "/direct-register?error=Username+already+exists"))
  | Some None =>
      do existingEmail <- untyped_lookup getUserByEmail (prop body "email");
      match existingEmail with
      | None => ret (Some (Redirect "/direct-register?error=Registration+failed"))
      | Some (Some _) =>
          ret (Some (Redirect "/direct-register?error=Email+already+exists"))
      | Some None => ret None
      end
  end.

(** [POST /api/direct-register] from the result of [hashPassword] on. *)
Definition direct_register_resume (body : obj) (hashed : option string) (clock : Z)
    (login_err : bool) : M response :=
  match hashed with
  | None => ret (Redirect "/direct-register?error=Registration+failed")
  | Some hashedPassword =>
      run createUser (<["password" := VStr hashedPassword]> body) clock;
      if login_err then ret Next else ret (Redirect "/")
  end.
End RegistrationSteps.

(** The two registration routes. *)
Inductive route :=
  | ApiRegister
  | ApiDirectRegister.

Definition handler `{Builtins} (r : route)
  : obj → option string → Z → bool → M response :=
  match r with
  | ApiRegister => post_register
  | ApiDirectRegister => post_direct_register
  end.

Definition lookups `{Builtins} (r : route) : obj → M (option response) :=
  match r with
  | ApiRegister => register_lookups
  | ApiDirectRegister => direct_register_lookups
  end.

Definition resume `{Builtins} (r : route) : obj → option string → Z → bool → M response :=
  match r with
  | ApiRegister => register_resume
  | ApiDirectRegister => direct_register_resume
  end.

(** What happens at the server: a registration request arrives and
    runs up to [hashPassword], or the hash of the [k]-th waiting request
    is ready (with the result [hashed], [None] when hashing failed) and
    that request runs to its end. *)
Inductive event :=
  | Arrives (r : route) (body : obj)
  | Hashed (k : nat) (hashed : option string) (clock : Z) (login_err : bool).

(** The store and the requests that wait for their hash. *)
Record server := mkServer {
  state : world;
  waiting : list (route * obj)
}.

Definition handle `{Builtins} (e : event) (s : server) : server :=
  match e with
  | Arrives r body =>
      match (lookups r body (state s)).1 with
      | Some _ => mkServer (lookups r body (state s)).2 (waiting s)
      | None => mkServer (lookups r body (state s)).2 (waiting s ++ [(r, body)])
      end
  | Hashed k hashed clock login_err =>
      match waiting s !! k with
      | None => s
      | Some (r, body) =>
          mkServer (resume r body hashed clock login_err (state s)).2
            (delete k (waiting s))
      end
  end.

Definition handle_all `{Builtins} (es : list event) (s : server) : server :=
  fold_left (fun s e => handle e s) es s.

(** No request arrives while another waits for its hash. *)
Fixpoint one_at_a_time `{Builtins} (es : list event) (s : server) : Prop :=
  match es with
  | [] => True
  | e :: es' =>
      match e with
      | Arrives _ _ => waiting s = []
      | Hashed _ _ _ _ => True
      end ∧ one_at_a_time es' (handle e s)
  end.

(** The property [key] of the objects [ls] is a string, and no two of
    these strings are equal up to case. *)
Definition distinct_lower `{Builtins} (h : heap) (key : string) (ls : list loc) : Prop :=
  ∃ names, map (fun l => get h l key) ls = map VStr names ∧
           NoDup (map toLowerCase names).

(** No two stored users share a user name or an e-mail address up to
    case; a single user can have any. *)
Definition names_unique `{Builtins} (w : world) : Prop :=
  (length (stored User w) ≤ 1)%nat ∨
  (distinct_lower (mem w) "username" (stored User w) ∧
   distinct_lower (mem w) "email" (stored User w)).

(** Two requests arrive one after the other; then their passwords are
    hashed, in the same order. *)
Definition overlapping (r1 r2 : route) (body1 body2 : obj) (hashed1 hashed2 : string)
    (clock1 clock2 : Z) (login_err1 login_err2 : bool) : list event :=
  [ Arrives r1 body1; Arrives r2 body2;
    Hashed 0 (Some hashed1) clock1 login_err1;
    Hashed 0 (Some hashed2) clock2 login_err2 ].

(** What holds between the events when no two requests overlap: the
    names are unique, at most one request waits, and its lookups would
    still find nobody. *)
Definition settled `{Builtins} (s : server) : Prop :=
  reachable (state s) ∧ names_unique (state s) ∧
  (waiting s = [] ∨
   ∃ r body, waiting s = [(r, body)] ∧ (lookups r body (state s)).1 = None).

(** ** Lemmas on maps *)

Lemma map_get_set_eq m k l : map_get (map_set m k l) k = Some l.
Proof.
  induction m as [|[k' l'] m IH]; simpl.
  - by rewrite Z.eqb_refl.
  - destruct (k' =? k) eqn:E; simpl; [by rewrite Z.eqb_refl | by rewrite E].
Qed.

Lemma map_get_set_ne m k k' l : k ≠ k' → map_get (map_set m k l) k' = map_get m k'.
Proof.
  intros Hne. induction m as [|[k0 l0] m IH]; simpl.
  - destruct (k =? k') eqn:E; [lia | done].
  - destruct (k0 =? k) eqn:E; simpl.
    + destruct (k =? k') eqn:E1; [lia|]. destruct (k0 =? k') eqn:E2; [lia | done].
    + destruct (k0 =? k'); [done | apply IH].
Qed.

Lemma map_get_None m k : map_get m k = None ↔ k ∉ map_keys m.
Proof.
  induction m as [|[k' l'] m IH]; simpl.
  - split; [intros _; apply not_elem_of_nil | done].
  - rewrite not_elem_of_cons. destruct (k' =? k) eqn:E.
    + split; [done | intros [? _]; lia].
    + rewrite IH. split; [intros ?; split; [lia | done] | tauto].
Qed.

Lemma map_get_Some_elem m k l : map_get m k = Some l → (k, l) ∈ m.
Proof.
  induction m as [|[k' l'] m IH]; simpl; [done|].
  destruct (k' =? k) eqn:E.
  - intros [= ->]. assert (k' = k) as -> by lia. apply list_elem_of_here.
  - intros ?. apply list_elem_of_further. by apply IH.
Qed.

Lemma map_set_fresh m k l : k ∉ map_keys m → map_set m k l = m ++ [(k, l)].
Proof.
  induction m as [|[k' l'] m IH]; simpl; [done|].
  rewrite not_elem_of_cons. intros [Hne Hni].
  destruct (k' =? k) eqn:E; [lia|]. by rewrite IH.
Qed.

Lemma map_set_keys m k l : k ∈ map_keys m → map_keys (map_set m k l) = map_keys m.
Proof.
  induction m as [|[k' l'] m IH]; simpl.
  - by intros ?%elem_of_nil.
  - destruct (k' =? k) eqn:E; simpl.
    + intros _. f_equal. lia.
    + rewrite elem_of_cons. intros [?|?]; [lia|]. by rewrite IH.
Qed.

Lemma map_set_elem m k l r : r ∈ map_set m k l → r = (k, l) ∨ r ∈ m.
Proof.
  induction m as [|[k' l'] m IH]; simpl.
  - rewrite list_elem_of_singleton. auto.
  - destruct (k' =? k) eqn:E; rewrite !elem_of_cons; [tauto|].
    intros [?|?]; [tauto|]. destruct IH; auto.
Qed.

Lemma map_delete_sublist m k : sublist (map_delete m k) m.
Proof.
  induction m as [|[k' l'] m IH]; simpl; [done|].
  destruct (k' =? k); [by apply sublist_cons | by apply sublist_skip].
Qed.

(** Deleting the key of a row of a map with distinct keys removes that
    row and nothing else. *)
Lemma map_delete_split m1 m2 k l :
  k ∉ map_keys m1 →
  map_delete (m1 ++ (k, l) :: m2) k = m1 ++ m2 ∧
  map_get (m1 ++ (k, l) :: m2) k = Some l.
Proof.
  induction m1 as [|[k' l'] m1 IH]; simpl.
  - intros _. by rewrite Z.eqb_refl.
  - rewrite not_elem_of_cons. intros [Hne Hni].
    destruct (k' =? k) eqn:E; [lia|].
    destruct (IH Hni) as [-> ->]. done.
Qed.

(** ** Lemmas on the fields of [MemStorage] *)

Lemma table_with_table t t' m s :
  table t' (with_table t m s) = if decide (t' = t) then m else table t' s.
Proof. destruct s, t, t'; reflexivity. Qed.

Lemma table_with_current t t' c s : table t' (with_current t c s) = table t' s.
Proof. destruct s, t, t'; reflexivity. Qed.

Lemma current_with_table t t' m s : current t' (with_table t m s) = current t' s.
Proof. destruct s, t, t'; reflexivity. Qed.

Lemma current_with_current t t' c s :
  current t' (with_current t c s) = if decide (t' = t) then c else current t' s.
Proof. destruct s, t, t'; reflexivity. Qed.

Lemma with_table_id t s : with_table t (table t s) s = s.
Proof. destruct s, t; reflexivity. Qed.

Create Rewrite HintDb store.
#[local] Hint Rewrite table_with_table table_with_current
  current_with_table current_with_current : store.

(** ** Lemmas on the heap *)

Lemma fields_app_old (h h' : heap) l c :
  h !! l = Some c → fields (h ++ h') l = fields h l.
Proof. intros Hl. unfold fields. by rewrite (lookup_app_l_Some _ _ _ _ Hl), Hl. Qed.

Lemma lookup_new (h : heap) c : (h ++ [c]) !! length h = Some c.
Proof. by rewrite lookup_app_r, Nat.sub_diag. Qed.

Lemma lookup_new2 (h : heap) c1 c2 : (h ++ [c1; c2]) !! S (length h) = Some c2.
Proof.
  rewrite lookup_app_r by lia.
  by replace (S (length h) - length h)%nat with 1%nat by lia.
Qed.

Lemma fields_new (h : heap) o : fields (h ++ [HObj o]) (length h) = o.
Proof. unfold fields. by rewrite lookup_new. Qed.

Lemma lookup_old (h h' : heap) (l : loc) :
  (l < length h)%nat → (h ++ h') !! l = h !! l.
Proof. intros. by apply lookup_app_l. Qed.

(** ** The generic computations, unfolded *)

Lemma gen_create_Some t clock build w :
  gen_create t (Some clock) build w =
  (S (length (mem w)),
   mkWorld (mem w ++ [HDate (Some clock); HObj (build (current t (this w)) (length (mem w)))])
     (with_table t
        (map_set (table t (this w)) (current t (this w)) (S (length (mem w))))
        (with_current t (current t (this w) + 1) (this w)))).
Proof.
  unfold gen_create, bind, next_id, new_Date, new_object, alloc, Map_set, ret; simpl.
  rewrite length_app, Nat.add_comm, <- app_assoc. simpl.
  by rewrite table_with_current.
Qed.

Lemma gen_create_None t build w :
  gen_create t None build w =
  (length (mem w),
   mkWorld (mem w ++ [HObj (build (current t (this w)) 0%nat)])
     (with_table t
        (map_set (table t (this w)) (current t (this w)) (length (mem w)))
        (with_current t (current t (this w) + 1) (this w)))).
Proof.
  unfold gen_create, bind, next_id, new_object, alloc, Map_set, ret; simpl.
  by rewrite table_with_current.
Qed.

Lemma gen_update_Some t id f w l :
  map_get (table t (this w)) id = Some l →
  gen_update t id f w =
  (Some (length (mem w)),
   mkWorld (mem w ++ [HObj (f (mem w) l)])
     (with_table t (map_set (table t (this w)) id (length (mem w))) (this w))).
Proof.
  intros Hl. unfold gen_update, bind, Map_get, the_heap, new_object, alloc, Map_set, ret.
  by rewrite Hl.
Qed.

Lemma gen_update_None t id f w :
  map_get (table t (this w)) id = None → gen_update t id f w = (None, w).
Proof. intros Hl. unfold gen_update, bind, Map_get, ret. by rewrite Hl. Qed.

Section Shapes.
Context `{Builtins}.

(** Every call is an instance of its shape. *)
Lemma exec_shape c w :
  match shape_of c with
  | SRead => reads c = true ∧ (exec c w).2 = w
  | SCreate t stamp build =>
      creates c = Some t ∧ stamp = clock_of c ∧
      exec c w = fmap_M Entity (gen_create t stamp build) w
  | SUpdate t id f => exec c w = fmap_M of_option (gen_update t id f) w
  | SRemove groupId userId =>
      exec c w = fmap_M Boolean (removeStudyGroupMember groupId userId) w
  end.
Proof.
  destruct c; simpl; try (split; [reflexivity|]); try (split; [reflexivity|]);
    try reflexivity;
    try (destruct filters; reflexivity);
    unfold fmap_M, bind, gen_update, updateUser, incrementPaperDownloads,
      voteDiscussionPost, voteDiscussionReply, incrementResourceDownloads,
      rateResource, getUser, getPaper, getDiscussionPost, getResource, Map_get;
    destruct (map_get _ _); reflexivity.
Qed.

Lemma reads_shape c : reads c = true → shape_of c = SRead.
Proof. destruct c; simpl; congruence. Qed.

Lemma creates_shape c t :
  creates c = Some t →
  ∃ build, shape_of c = SCreate t (clock_of c) build ∧
    ∀ id now, build id now !! "id" = Some (VNum id) ∧
              (t = DiscussionPost → build id now !! "votes" = Some (VNum 0)) ∧
              (∀ clock, clock_of c = Some clock →
                 build id now !! timestamp_field t = Some (VRef now)).
Proof.
  destruct c; simpl; intros [= <-]; eexists; (split; [reflexivity|]);
    intros id now; (split; [by simplify_map_eq|]);
    (split; [intros; by simplify_map_eq|]);
    intros; simpl; by simplify_map_eq.
Qed.
End Shapes.

(** ** Well-formedness is an invariant *)

Lemma elem_of_map_keys (m : jsmap) k : k ∈ map_keys m ↔ ∃ l, (k, l) ∈ m.
Proof.
  unfold map_keys. change (map fst m) with (m.*1). rewrite list_elem_of_fmap. split.
  - intros [[k' l] [-> ?]]. by exists l.
  - intros [l ?]. by exists (k, l).
Qed.

Lemma elem_of_map_values (m : jsmap) l : l ∈ map_values m ↔ ∃ k, (k, l) ∈ m.
Proof.
  unfold map_values. change (map snd m) with (m.*2). rewrite list_elem_of_fmap. split.
  - intros [[k l'] [-> ?]]. by exists k.
  - intros [k ?]. by exists (k, l).
Qed.

Lemma map_delete_elem m k r : r ∈ map_delete m k → r ∈ m.
Proof. intros ?. by eapply elem_of_sublist; [|apply map_delete_sublist]. Qed.

Lemma map_delete_sorted m k :
  StronglySorted Z.lt (map_keys m) → StronglySorted Z.lt (map_keys (map_delete m k)).
Proof.
  induction m as [|[k' l'] m IH]; simpl; [done|].
  intros [Hall Hs]%StronglySorted_cons.
  destruct (k' =? k); [done|]. simpl. apply StronglySorted_cons. split; [|auto].
  apply Forall_forall. intros x [l Hx%map_delete_elem]%elem_of_map_keys.
  eapply Forall_forall in Hall; [done|]. apply elem_of_map_keys; eauto.
Qed.

Lemma sorted_NoDup (ks : list Z) : StronglySorted Z.lt ks → NoDup ks.
Proof.
  induction ks as [|k ks IH]; [constructor|].
  intros [Hall Hs]%StronglySorted_cons. constructor; [|auto].
  intros Hk. eapply Forall_forall in Hall; [|done]. lia.
Qed.

Lemma row_ok_mono t h h' s s' r :
  row_ok t h s r →
  (∀ l c, h !! l = Some c → h' !! l = Some c) →
  current t s ≤ current t s' →
  row_ok t h' s' r.
Proof.
  intros [Hk (o & Ho & Hid & Hv)] Hh Hc. split; [lia|]. exists o. eauto.
Qed.

Lemma wf_row w t k l : wf w → (k, l) ∈ table t (this w) → row_ok t (mem w) (this w) (k, l).
Proof.
  intros Hw Hk. destruct (Hw t) as (_ & _ & Hall).
  by eapply Forall_forall in Hall.
Qed.

Lemma wf_sorted w t : wf w → StronglySorted Z.lt (map_keys (table t (this w))).
Proof. intros Hw. by destruct (Hw t) as (_ & ? & _). Qed.

Lemma wf_keys_lt w t k : wf w → k ∈ map_keys (table t (this w)) → 1 ≤ k < current t (this w).
Proof. intros Hw [l Hk]%elem_of_map_keys. by destruct (wf_row _ _ _ _ Hw Hk). Qed.

Lemma wf_current_fresh w t : wf w → current t (this w) ∉ map_keys (table t (this w)).
Proof. intros Hw Hk. apply (wf_keys_lt _ _ _ Hw) in Hk. lia. Qed.

(** One table changes, the heap and the counters grow. *)
Lemma wf_change t w w' :
  wf w →
  (∀ l c, mem w !! l = Some c → mem w' !! l = Some c) →
  (∀ t', current t' (this w) ≤ current t' (this w')) →
  (∀ t', t' ≠ t → table t' (this w') = table t' (this w)) →
  StronglySorted Z.lt (map_keys (table t (this w'))) →
  Forall (fun r => r ∈ table t (this w) ∨ row_ok t (mem w') (this w') r) (table t (this w')) →
  wf w'.
Proof.
  intros Hw Hh Hc Hother Hs Hrows t'. destruct (Hw t') as (H1 & Hs' & Hall').
  split; [specialize (Hc t'); lia|].
  destruct (decide (t' = t)) as [->|Hne].
  - split; [done|]. eapply Forall_impl; [exact Hrows|].
    intros r [Hr|Hr]; [|done]. eapply Forall_forall in Hall'; [|done].
    eapply row_ok_mono; eauto.
  - rewrite (Hother _ Hne). split; [done|].
    eapply Forall_impl; [exact Hall'|]. intros r Hr. eapply row_ok_mono; eauto.
Qed.

Lemma wf_init h : wf (mkWorld h constructor).
Proof. intros t. destruct t; simpl; (split; [lia|]); split; constructor. Qed.

Lemma wf_alloc c w : wf w → wf (alloc c w).2.
Proof.
  intros Hw. apply (wf_change User w); simpl; auto.
  - intros l c' Hl. by apply lookup_app_l_Some.
  - intros; lia.
  - by apply (wf_sorted w User).
  - apply Forall_forall. auto.
Qed.

(** A fresh row under the next id. *)
Lemma wf_insert t w h' l o :
  wf w →
  (mem w ++ h') !! l = Some (HObj o) →
  o !! "id" = Some (VNum (current t (this w))) →
  (t = DiscussionPost → o !! "votes" = Some (VNum 0)) →
  wf (mkWorld (mem w ++ h')
        (with_table t (map_set (table t (this w)) (current t (this w)) l)
           (with_current t (current t (this w) + 1) (this w)))).
Proof.
  intros Hw Hl Hid Hv. apply (wf_change t w); simpl; auto.
  - intros l' c' Hl'. by apply lookup_app_l_Some.
  - intros t'. autorewrite with store. case_decide; subst; lia.
  - intros t' Hne. autorewrite with store. by rewrite decide_False.
  - autorewrite with store. rewrite decide_True by done.
    rewrite map_set_fresh by by apply wf_current_fresh.
    unfold map_keys. rewrite map_app. apply StronglySorted_app. split_and!.
    + intros k1 k2 Hk1 ->%list_elem_of_singleton. by apply (wf_keys_lt w t).
    + by apply wf_sorted.
    + repeat constructor.
  - autorewrite with store. rewrite decide_True by done.
    rewrite map_set_fresh by by apply wf_current_fresh.
    apply Forall_app. split; [apply Forall_forall; auto|].
    constructor; [|constructor]. right. split; simpl.
    + autorewrite with store. rewrite decide_True by done.
      destruct (Hw t) as (? & _). lia.
    + exists o. split; [done|]. split; [done|]. intros Ht. eauto.
Qed.

(** The row of a present key is replaced. *)
Lemma wf_replace t w id l0 o :
  wf w →
  map_get (table t (this w)) id = Some l0 →
  (t ≠ User → o !! "id" = fields (mem w) l0 !! "id") →
  (t = DiscussionPost → ∀ n, fields (mem w) l0 !! "votes" = Some (VNum n) →
     ∃ n', o !! "votes" = Some (VNum n')) →
  wf (mkWorld (mem w ++ [HObj o])
        (with_table t (map_set (table t (this w)) id (length (mem w))) (this w))).
Proof.
  intros Hw Hget Hid Hv.
  pose proof (map_get_Some_elem _ _ _ Hget) as Hin.
  destruct (wf_row _ _ _ _ Hw Hin) as [Hk (o0 & Ho0 & Hid0 & Hv0)]. simpl in *.
  assert (fields (mem w) l0 = o0) as Hf by (unfold fields; by rewrite Ho0).
  apply (wf_change t w); simpl; auto.
  - intros l' c' Hl'. by apply lookup_app_l_Some.
  - intros t'. autorewrite with store. lia.
  - intros t' Hne. autorewrite with store. by rewrite decide_False.
  - autorewrite with store. rewrite decide_True by done.
    rewrite map_set_keys; [by apply wf_sorted|]. apply elem_of_map_keys; eauto.
  - autorewrite with store. rewrite decide_True by done.
    apply Forall_forall. intros r [->|Hr]%map_set_elem; [|by left].
    right. split; simpl; [by autorewrite with store|].
    exists o. split; [apply lookup_new|]. split.
    + intros Ht. rewrite Hid, Hf by done. auto.
    + intros Ht. destruct (Hv0 Ht) as [n Hn]. apply (Hv Ht n). by rewrite Hf.
Qed.

Lemma wf_delete w id :
  wf w →
  wf (mkWorld (mem w)
        (with_table StudyGroupMember
           (map_delete (table StudyGroupMember (this w)) id) (this w))).
Proof.
  intros Hw. apply (wf_change StudyGroupMember w); cbn [mem this]; auto.
  - intros t'. autorewrite with store. lia.
  - intros t' Hne. autorewrite with store. by rewrite decide_False.
  - autorewrite with store. rewrite decide_True by done.
    by apply map_delete_sorted, wf_sorted.
  - autorewrite with store. rewrite decide_True by done.
    apply Forall_forall. intros r Hr%map_delete_elem. by left.
Qed.

Lemma fmap_M_eq {A B} (f : A → B) (m : M A) w : fmap_M f m w = (f (m w).1, (m w).2).
Proof. unfold fmap_M, bind, ret. by destruct (m w). Qed.

Section Invariant.
Context `{Builtins}.

Lemma js_add_num h m n : js_add h (VNum m) (VNum n) = VNum (m + n).
Proof. reflexivity. Qed.

Lemma js_add_double_num h m n :
  js_add_double h (VNum m) (VNum n) = VNum (to_double (m + n)).
Proof. reflexivity. Qed.

Lemma get_lookup h l k v : fields h l !! k = Some v → get h l k = v.
Proof. unfold get, prop. by intros ->. Qed.

(** What an update does to [id] and to a post's [votes]. *)
Lemma updates_shape c t id f :
  shape_of c = SUpdate t id f →
  ∀ h l, (t ≠ User → f h l !! "id" = fields h l !! "id") ∧
         (t = DiscussionPost → ∀ n, fields h l !! "votes" = Some (VNum n) →
            ∃ n', f h l !! "votes" = Some (VNum n')).
Proof.
  destruct c; simpl; intros [= <- <- <-] h l;
    (split; [intros; by simplify_map_eq|]); try done.
  intros _ n Hn. rewrite (get_lookup _ _ _ _ Hn), js_add_double_num, lookup_insert_eq.
  eauto.
Qed.

Lemma removeStudyGroupMember_eq groupId userId w :
  removeStudyGroupMember groupId userId w =
  match List.find (is_membership (mem w) groupId userId) (stored StudyGroupMember w) with
  | Some memberToDelete =>
      match get (mem w) memberToDelete "id" with
      | VNum id =>
          (map_has (studyGroupMembers (this w)) id,
           mkWorld (mem w)
             (with_table StudyGroupMember
                (map_delete (studyGroupMembers (this w)) id) (this w)))
      | _ => (false, w)
      end
  | None => (false, w)
  end.
Proof.
  unfold removeStudyGroupMember, bind, Map_values, the_heap, stored. simpl.
  change (fun member => _ && _) with (is_membership (mem w) groupId userId).
  destruct (List.find _ _); [|done].
  unfold Map_delete_key. by destruct (get _ _ _).
Qed.

Lemma wf_exec c w : wf w → wf (exec c w).2.
Proof.
  intros Hw. pose proof (exec_shape c w) as He.
  destruct (shape_of c) as [|t stamp build|t id f|g u] eqn:Hs.
  - destruct He as [_ ->]. done.
  - destruct He as (Hc & -> & ->). rewrite fmap_M_eq. simpl.
    destruct (creates_shape _ _ Hc) as (build' & Hs' & Hb).
    rewrite Hs in Hs'. injection Hs' as <-.
    destruct (clock_of c) as [clock|].
    + rewrite gen_create_Some. simpl.
      eapply wf_insert; [done| |apply Hb|apply Hb].
      rewrite (lookup_app_r (mem w)) by lia.
      replace (S (length (mem w)) - length (mem w))%nat with 1%nat by lia. done.
    + rewrite gen_create_None. simpl.
      eapply wf_insert; [done|apply lookup_new|apply Hb|apply Hb].
  - rewrite He, fmap_M_eq. simpl.
    destruct (map_get (table t (this w)) id) as [l0|] eqn:Hget.
    + rewrite (gen_update_Some _ _ _ _ _ Hget). simpl.
      destruct (updates_shape _ _ _ _ Hs (mem w) l0) as [Hid Hv].
      by apply wf_replace with l0.
    + by rewrite (gen_update_None _ _ _ _ Hget).
  - rewrite He, fmap_M_eq, removeStudyGroupMember_eq. simpl.
    destruct (List.find _ _); [|done].
    destruct (get _ _ _); try done. simpl. by apply wf_delete.
Qed.

Lemma wf_step a w : wf w → wf (step a w).
Proof. destruct a; simpl; [apply wf_exec | apply wf_alloc]. Qed.

Lemma wf_play acts w : wf w → wf (play acts w).
Proof.
  revert w. induction acts as [|a acts IH]; intros w Hw; simpl; [done|].
  by apply IH, wf_step.
Qed.

Lemma reachable_wf w : reachable w → wf w.
Proof. intros (h & acts & ->). apply wf_play, wf_init. Qed.
End Invariant.

(** ** Creates, counters and keys *)

Section Creates.
Context `{Builtins}.

Lemma exec_create c t w :
  creates c = Some t →
  ∃ o,
    exec c w =
      (Entity (new_loc (clock_of c) (mem w)),
       mkWorld (mem w ++ new_cells (clock_of c) o)
         (with_table t
            (map_set (table t (this w)) (current t (this w)) (new_loc (clock_of c) (mem w)))
            (with_current t (current t (this w) + 1) (this w)))) ∧
    (mem w ++ new_cells (clock_of c) o) !! new_loc (clock_of c) (mem w) = Some (HObj o) ∧
    o !! "id" = Some (VNum (current t (this w))) ∧
    (t = DiscussionPost → o !! "votes" = Some (VNum 0)) ∧
    (∀ clock, clock_of c = Some clock →
       o !! timestamp_field t = Some (VRef (length (mem w)))) ∧
    (clock_of c = None →
       ∃ session, c = CreateStudySession session ∧
                  o = <["id" := VNum (current t (this w))]> session).
Proof.
  intros Hc. destruct (creates_shape _ _ Hc) as (build & Hs & Hb).
  pose proof (exec_shape c w) as He. rewrite Hs in He. destruct He as (_ & _ & He).
  exists (build (current t (this w))
            (match clock_of c with Some _ => length (mem w) | None => 0%nat end)).
  split_and!.
  - rewrite He, fmap_M_eq. destruct (clock_of c).
    + by rewrite gen_create_Some.
    + by rewrite gen_create_None.
  - destruct (clock_of c); simpl.
    + rewrite (lookup_app_r (mem w)) by lia.
      replace (S (length (mem w)) - length (mem w))%nat with 1%nat by lia. done.
    + apply lookup_new.
  - apply Hb.
  - apply Hb.
  - intros clock Hclock. rewrite Hclock. eapply Hb; eauto.
  - intros Hnone. rewrite Hnone. clear -Hc Hs Hnone.
    destruct c; simpl in *; try discriminate.
    injection Hc as <-. injection Hs as <-. eauto.
Qed.

(** The [id] of the entity a create returns is the counter. *)
Lemma issued_by_eq t a w :
  issued_by t a w =
  match a with
  | Call c => if decide (creates c = Some t) then [VNum (current t (this w))] else []
  | New _ => []
  end.
Proof.
  destruct a as [c|]; simpl; [|done]. case_decide as Hc; [|done].
  destruct (exec_create c t w Hc) as (o & -> & Hl & Hid & _).
  simpl. by rewrite (get_lookup _ _ _ (VNum (current t (this w))));
    [|unfold fields; rewrite Hl].
Qed.

(** A counter moves only when an entity of its type is created. *)
Lemma current_step t a w :
  current t (this (step a w)) =
  match a with
  | Call c => if decide (creates c = Some t) then current t (this w) + 1
              else current t (this w)
  | New _ => current t (this w)
  end.
Proof.
  destruct a as [c|]; simpl; [|done].
  pose proof (exec_shape c w) as He.
  destruct (shape_of c) as [|t' stamp build|t' id f|g u] eqn:Hs.
  - destruct He as [Hr ->]. case_decide as Hc; [|done].
    destruct c; simpl in *; congruence.
  - destruct He as (Hc & _ & _).
    destruct (exec_create c t' w Hc) as (o & -> & _). simpl.
    autorewrite with store. rewrite Hc.
    destruct (decide (t = t')) as [->|Hne].
    + by rewrite decide_True.
    + rewrite decide_False; [done|]. congruence.
  - rewrite decide_False by (destruct c; simpl in *; congruence).
    rewrite He, fmap_M_eq. simpl.
    destruct (map_get (table t' (this w)) id) as [l0|] eqn:Hget.
    + rewrite (gen_update_Some _ _ _ _ _ Hget). simpl. by autorewrite with store.
    + by rewrite (gen_update_None _ _ _ _ Hget).
  - rewrite decide_False by (destruct c; simpl in *; congruence).
    rewrite He, fmap_M_eq, removeStudyGroupMember_eq. simpl.
    destruct (List.find _ _); [|done].
    destruct (get _ _ _); try done. simpl. by autorewrite with store.
Qed.

Lemma issued_by_key t a w : issued_by t a w = map VNum (key_issued t a w).
Proof. rewrite issued_by_eq. destruct a; simpl; [|done]. by case_decide. Qed.

(** The keys of a map after a step: a create appends the id it
    issued; nothing else adds a key, and only the removal of a
    membership row takes one away. *)
Lemma keys_step t a w :
  wf w → t ≠ StudyGroupMember →
  map_keys (table t (this (step a w))) =
  map_keys (table t (this w)) ++ key_issued t a w.
Proof.
  intros Hw Ht. destruct a as [c|]; simpl; [|by rewrite app_nil_r].
  pose proof (exec_shape c w) as He.
  destruct (shape_of c) as [|t' stamp build|t' id f|g u] eqn:Hs.
  - destruct He as [Hr ->]. rewrite decide_False, app_nil_r; [done|].
    destruct c; simpl in *; congruence.
  - destruct He as (Hc & _ & _).
    destruct (exec_create c t' w Hc) as (o & -> & _). simpl.
    autorewrite with store. rewrite Hc.
    destruct (decide (t = t')) as [->|Hne].
    + rewrite decide_True by done.
      rewrite map_set_fresh by by apply wf_current_fresh.
      unfold map_keys. by rewrite map_app.
    + rewrite decide_False, app_nil_r; [done|]. congruence.
  - rewrite decide_False, app_nil_r by (destruct c; simpl in *; congruence).
    rewrite He, fmap_M_eq. simpl.
    destruct (map_get (table t' (this w)) id) as [l0|] eqn:Hget.
    + rewrite (gen_update_Some _ _ _ _ _ Hget). simpl. autorewrite with store.
      case_decide; [subst|done]. apply map_set_keys, elem_of_map_keys.
      eauto using map_get_Some_elem.
    + by rewrite (gen_update_None _ _ _ _ Hget).
  - rewrite decide_False, app_nil_r by (destruct c; simpl in *; congruence).
    rewrite He, fmap_M_eq, removeStudyGroupMember_eq. simpl.
    destruct (List.find _ _); [|done].
    destruct (get _ _ _); try done. simpl. autorewrite with store.
    by rewrite decide_False.
Qed.

Lemma keys_play t acts w :
  wf w → t ≠ StudyGroupMember →
  map VNum (map_keys (table t (this (play acts w)))) =
  map VNum (map_keys (table t (this w))) ++ issued t acts w.
Proof.
  intros Hw Ht. revert w Hw. induction acts as [|a acts IH]; intros w Hw; simpl.
  - by rewrite app_nil_r.
  - rewrite IH by by apply wf_step. rewrite keys_step, issued_by_key by done.
    by rewrite map_app, app_assoc.
Qed.

Lemma seqZ_sorted m n : StronglySorted Z.lt (seqZ m n).
Proof.
  destruct (decide (n ≤ 0)) as [|Hn]; [rewrite seqZ_nil by done; constructor|].
  rewrite <- (Z2Nat.id n) by lia. generalize (Z.to_nat n) as k. clear. intros k.
  revert m. induction k as [|k IH]; intros m; [constructor|].
  rewrite seqZ_cons by lia. apply StronglySorted_cons. split.
  - apply Forall_seqZ. intros; lia.
  - replace (Z.pred (Z.of_nat (S k))) with (Z.of_nat k) by lia. apply IH.
Qed.

(** The ids issued for [t] during a history are the values the counter
    of [t] went through. *)
Lemma issued_seq t acts w :
  current t (this w) ≤ current t (this (play acts w)) ∧
  issued t acts w =
    map VNum (seqZ (current t (this w))
                   (current t (this (play acts w)) - current t (this w))).
Proof.
  revert w. induction acts as [|a acts IH]; intros w; simpl.
  - split; [lia|]. by rewrite Z.sub_diag.
  - destruct (IH (step a w)) as [Hle ->]. rewrite issued_by_key.
    pose proof (current_step t a w) as Hc. unfold key_issued.
    destruct a as [c|]; simpl in *.
    + case_decide.
      * split; [lia|]. rewrite Hc.
        rewrite (seqZ_cons (current t (this w))) by lia. simpl. do 3 f_equal; lia.
      * rewrite Hc in Hle |- *. done.
    + done.
Qed.

(** Under a well-formed store the [id] of a stored entity is its key. *)
Lemma stored_ids w t :
  wf w → t ≠ User →
  map (fun l => get (mem w) l "id") (stored t w) =
  map VNum (map_keys (table t (this w))).
Proof.
  intros Hw Ht. unfold stored, map_values, map_keys. rewrite !map_map.
  apply map_ext_in. intros [k l] Hin%list_elem_of_In.
  destruct (wf_row _ _ _ _ Hw Hin) as [_ (o & Ho & Hid & _)]. simpl in *.
  apply get_lookup. unfold fields. rewrite Ho. auto.
Qed.
End Creates.

(** ** Identifiers *)

(** C2: over any sequence of store operations, from any state of the
    store, the ids of the entities that the creates of one entity type
    return are strictly increasing, each strictly greater than all issued
    before it; removals are among the operations, so an id does not come
    back after a deletion.  The ids are the successive values of the
    type's counter. *)
Theorem create_ids_strictly_increase `{Builtins} (t : etype) (acts : list action) (w : world) :
  ∃ ks, issued t acts w = map VNum ks ∧
        StronglySorted Z.lt ks ∧
        Forall (fun k => current t (this w) ≤ k < current t (this (play acts w))) ks.
Proof.
  destruct (issued_seq t acts w) as [Hle ->]. eexists. split; [done|]. split.
  - apply seqZ_sorted.
  - apply Forall_seqZ. intros; lia.
Qed.

(** ** Lookup by id *)

Lemma get_method_eq t get_by_id :
  get_method t get_by_id →
  t ≠ StudyGroupMember ∧
  ∀ id w, get_by_id id w = (map_get (table t (this w)) id, w).
Proof. destruct 1; done. Qed.

(** C9: for each entity type with a lookup by id, looking up the id of
    the entity a create has just returned yields that very object, so a
    value deep-equal to it; looking up an id that was never issued
    returns the absent value, and the lookup leaves the world as it
    was. *)
Theorem get_by_id_after_create `{Builtins} (t : etype) (get_by_id : Z → M (option loc)) :
  get_method t get_by_id →
  (∀ c w, creates c = Some t →
     ∃ l id, (exec c w).1 = Entity l ∧
             get (mem (exec c w).2) l "id" = VNum id ∧
             get_by_id id (exec c w).2 = (Some l, (exec c w).2)) ∧
  (∀ h acts id,
     VNum id ∉ issued t acts (mkWorld h constructor) →
     get_by_id id (play acts (mkWorld h constructor)) =
       (None, play acts (mkWorld h constructor))).
Proof.
  intros [Ht Hget]%get_method_eq. split.
  - intros c w Hc. destruct (exec_create c t w Hc) as (o & -> & Hl & Hid & _).
    eexists _, (current t (this w)). simpl. split; [done|]. split.
    + apply get_lookup. unfold fields. by rewrite Hl.
    + rewrite Hget. simpl. autorewrite with store.
      by rewrite decide_True, map_get_set_eq.
  - intros h acts id Hid. rewrite Hget. f_equal. apply map_get_None.
    intros Hk. apply Hid.
    pose proof (keys_play t acts _ (wf_init h) Ht) as Hkeys.
    replace (map_keys (table t (this (mkWorld h constructor)))) with (@nil Z) in Hkeys
      by (by destruct t).
    simpl in Hkeys. rewrite <- Hkeys.
    change (map VNum ?x) with (VNum <$> x). by apply list_elem_of_fmap_2.
Qed.

(** ** Listing and filtering *)

Lemma matches_spec h (filters : obj) l :
  matches h filters l = true ↔
  ∀ k v, filters !! k = Some v → strict_eq (get h l k) v = true.
Proof.
  unfold matches. rewrite forallb_forall. split.
  - intros Hall k v Hk. apply (Hall (k, v)).
    by apply list_elem_of_In, elem_of_map_to_list.
  - intros Hall [k v] Hin%list_elem_of_In%elem_of_map_to_list. by apply Hall.
Qed.

Lemma filter_sublist {A} (p : A → bool) (l : list A) : sublist (List.filter p l) l.
Proof.
  induction l as [|x l IH]; simpl; [constructor|].
  destruct (p x); by constructor.
Qed.

Lemma elem_of_filter {A} (p : A → bool) (l : list A) x :
  x ∈ List.filter p l ↔ x ∈ l ∧ p x = true.
Proof. rewrite !list_elem_of_In. apply filter_In. Qed.

Lemma list_method_eq t list :
  list_method t list →
  t ≠ User ∧ t ≠ StudyGroupMember ∧
  ∀ filters w,
    list filters w =
    (match filters with
     | None => stored t w
     | Some filters => List.filter (matches (mem w) filters) (stored t w)
     end, w).
Proof. destruct 1; (split; [done|]); (split; [done|]); by intros [?|] ?. Qed.

(** C1: for each entity type with a list operation: without a filter it
    returns the entities created so far, in creation order (their ids
    are the ids the creates issued, in that order); with a filter it
    returns, in the same order, exactly the entities whose property is
    strictly equal to the filter's value for every property the filter
    names; and an entity passes a filter exactly when it passes each of
    the filter's single-property filters.  The filters are those whose
    keys are not names of members inherited from [Object.prototype],
    such as [toString]: for those the code compares the inherited
    member. *)
Theorem list_returns_created_and_filters `{Builtins} (t : etype)
    (list : option obj → M (list loc)) :
  list_method t list →
  (∀ h acts,
     map (fun l => get (mem (play acts (mkWorld h constructor))) l "id")
         (list None (play acts (mkWorld h constructor))).1 =
     issued t acts (mkWorld h constructor)) ∧
  (∀ w filters,
     own_names filters →
     (list None w).2 = w ∧ (list (Some filters) w).2 = w ∧
     sublist (list (Some filters) w).1 (list None w).1 ∧
     ∀ l, l ∈ (list (Some filters) w).1 ↔
          l ∈ (list None w).1 ∧
          ∀ k v, filters !! k = Some v → strict_eq (get (mem w) l k) v = true) ∧
  (∀ w filters l,
     own_names filters →
     l ∈ (list (Some filters) w).1 ↔
     l ∈ (list None w).1 ∧
     ∀ k v, filters !! k = Some v → l ∈ (list (Some {[k := v]}) w).1).
Proof.
  intros (Hu & Hm & Hlist)%list_method_eq. split_and!.
  - intros h acts. rewrite Hlist. simpl.
    rewrite stored_ids by (done || apply wf_play, wf_init).
    rewrite keys_play by (done || apply wf_init). by destruct t.
  - intros w filters _. rewrite !Hlist. simpl.
    split_and!; [done|done|apply filter_sublist|].
    intros l. by rewrite elem_of_filter, matches_spec.
  - intros w filters l _. rewrite !Hlist. simpl. rewrite elem_of_filter, matches_spec.
    split.
    + intros [Hl Hall]. split; [done|]. intros k v Hk.
      rewrite Hlist. simpl. rewrite elem_of_filter, matches_spec. split; [done|].
      intros k' v' [-> ->]%lookup_singleton_Some. auto.
    + intros [Hl Hall]. split; [done|]. intros k v Hk.
      specialize (Hall k v Hk). rewrite Hlist in Hall. simpl in Hall.
      apply elem_of_filter in Hall as [_ Hall]. rewrite matches_spec in Hall.
      apply Hall. apply lookup_singleton_eq.
Qed.

(** ** Counters *)

Section Counters.
Context `{Builtins}.

Lemma incrementPaperDownloads_Some id w l n :
  map_get (papers (this w)) id = Some l →
  get (mem w) l "downloads" = VNum n →
  incrementPaperDownloads id w =
  (Some (length (mem w)),
   mkWorld (mem w ++ [HObj (<["downloads" := VNum (n + 1)]> (fields (mem w) l))])
     (with_table Paper (map_set (papers (this w)) id (length (mem w))) (this w))).
Proof.
  intros Hl Hn.
  unfold incrementPaperDownloads, bind, getPaper, Map_get, the_heap, spread,
    new_object, alloc, Map_set, ret. simpl.
  by rewrite Hl, Hn, js_add_num.
Qed.

Lemma incrementPaperDownloads_None id w :
  map_get (papers (this w)) id = None → incrementPaperDownloads id w = (None, w).
Proof.
  intros Hl. unfold incrementPaperDownloads, bind, getPaper, Map_get, ret. simpl.
  by rewrite Hl.
Qed.


Lemma createPaper_eq paper clock w :
  createPaper paper clock w =
  (S (length (mem w)),
   mkWorld
     (mem w ++ [HDate (Some clock);
                HObj (<["downloads" := VNum 0]>
                        (<["uploadDate" := VRef (length (mem w))]>
                           (<["id" := VNum (currentPaperId (this w))]> paper)))])
     (with_table Paper
        (map_set (papers (this w)) (currentPaperId (this w)) (S (length (mem w))))
        (with_current Paper (currentPaperId (this w) + 1) (this w)))).
Proof.
  apply (gen_create_Some Paper clock (fun id now =>
           <["downloads" := VNum 0]>
             (<["uploadDate" := VRef now]> (<["id" := VNum id]> paper)))).
Qed.

(** One more download of a stored paper. *)
Lemma increment_once id w l n :
  (getPaper id w).1 = Some l →
  get (mem w) l "downloads" = VNum n →
  ∃ l', incrementPaperDownloads id w = (Some l', (incrementPaperDownloads id w).2) ∧
        (getPaper id (incrementPaperDownloads id w).2).1 = Some l' ∧
        get (mem (incrementPaperDownloads id w).2) l' "downloads" = VNum (n + 1).
Proof.
  intros Hl Hn. simpl in Hl.
  rewrite (incrementPaperDownloads_Some _ _ _ _ Hl Hn). eexists. split; [done|].
  simpl. split.
  - destruct (this w). simpl. apply map_get_set_eq.
  - unfold get. rewrite fields_new. unfold prop. by rewrite lookup_insert_eq.
Qed.

Lemma increment_many id (N : nat) w l n :
  (getPaper id w).1 = Some l →
  get (mem w) l "downloads" = VNum n →
  ∃ l', (getPaper id (Nat.iter N (fun w => (incrementPaperDownloads id w).2) w)).1 = Some l' ∧
        get (mem (Nat.iter N (fun w => (incrementPaperDownloads id w).2) w)) l' "downloads"
        = VNum (n + Z.of_nat N).
Proof.
  intros Hl Hn. induction N as [|N (l' & Hl' & Hn')].
  - exists l. simpl. by rewrite Z.add_0_r.
  - destruct (increment_once _ _ _ _ Hl' Hn') as (l'' & _ & Hl'' & Hn'').
    exists l''. rewrite Nat.iter_succ. split; [done|].
    rewrite Hn''. f_equal. lia.
Qed.

(** C7: a paper made by [createPaper] starts with [downloads] 0; each
    [incrementPaperDownloads] on a stored paper whose counter is [n]
    returns and stores a paper whose counter is [n + 1]; so after [N]
    calls on the new paper's id the stored counter is [N]; and on an id
    that is not in the store the call returns the absent value and the
    world is exactly as before. *)
Theorem increment_downloads_counts :
  (∀ paper clock w (N : nat),
     ∃ id, get (mem (createPaper paper clock w).2) (createPaper paper clock w).1 "id"
             = VNum id ∧
           get (mem (createPaper paper clock w).2) (createPaper paper clock w).1 "downloads"
             = VNum 0 ∧
           ∃ l, (getPaper id (Nat.iter N (fun w => (incrementPaperDownloads id w).2)
                                (createPaper paper clock w).2)).1 = Some l ∧
                get (mem (Nat.iter N (fun w => (incrementPaperDownloads id w).2)
                            (createPaper paper clock w).2)) l "downloads"
                = VNum (Z.of_nat N)) ∧
  (∀ id w l n,
     (getPaper id w).1 = Some l →
     get (mem w) l "downloads" = VNum n →
     ∃ l', incrementPaperDownloads id w = (Some l', (incrementPaperDownloads id w).2) ∧
           (getPaper id (incrementPaperDownloads id w).2).1 = Some l' ∧
           get (mem (incrementPaperDownloads id w).2) l' "downloads" = VNum (n + 1)) ∧
  (∀ id w, (getPaper id w).1 = None → incrementPaperDownloads id w = (None, w)).
Proof.
  split_and!.
  - intros paper clock w N. exists (currentPaperId (this w)).
    rewrite createPaper_eq. cbn [fst snd].
    match goal with |- context [Nat.iter N _ ?w1] => set (W := w1) end.
    assert (∀ k v, (<["downloads" := VNum 0]>
               (<["uploadDate" := VRef (length (mem w))]>
                  (<["id" := VNum (currentPaperId (this w))]> paper))) !! k = Some v →
            get (mem W) (S (length (mem w))) k = v) as Hget.
    { intros k v Hk. apply get_lookup. unfold fields. simpl. by rewrite lookup_new2. }
    split; [apply Hget; by simplify_map_eq|].
    split; [apply Hget; by simplify_map_eq|].
    destruct (increment_many (currentPaperId (this w)) N W (S (length (mem w))) 0)
      as (l' & ? & Hn).
    + simpl. destruct (this w). simpl. apply map_get_set_eq.
    + apply Hget. by simplify_map_eq.
    + exists l'. split; [done|]. by rewrite Hn, Z.add_0_l.
  - apply increment_once.
  - intros id w Hl. by apply incrementPaperDownloads_None.
Qed.
End Counters.

(** ** Votes *)

Section Votes.
Context `{Builtins}.





End Votes.

(** ** Removing a member *)

Lemma find_values_split (p : loc → bool) (m : jsmap) l :
  List.find p (map_values m) = Some l →
  ∃ m1 k m2, m = m1 ++ (k, l) :: m2 ∧ p l = true ∧ Forall (fun r => p r.2 = false) m1.
Proof.
  induction m as [|[k' l'] m IH]; simpl; [done|].
  destruct (p l') eqn:Hp.
  - intros [= ->]. exists [], k', m. by repeat split.
  - intros (m1 & k & m2 & -> & Hl & Hall)%IH.
    exists ((k', l') :: m1), k, m2. repeat split; [done|]. by constructor.
Qed.

Lemma find_values_None (p : loc → bool) (ls : list loc) :
  List.find p ls = None ↔ ∀ l, l ∈ ls → p l = false.
Proof.
  split.
  - intros Hf l Hl%list_elem_of_In. by apply (find_none _ _ Hf).
  - intros Hall. destruct (List.find p ls) as [l|] eqn:Hf; [|done].
    apply find_some in Hf as [Hin%list_elem_of_In Hp]. rewrite (Hall _ Hin) in Hp. done.
Qed.

(** C6: in a store built by the store's operations: when no membership
    row has the given [groupId] and [userId], [removeStudyGroupMember]
    returns [false] and the world is exactly as before; when some row
    has, it returns [true], and the membership map is the old one without
    one row, which matches [(groupId, userId)] (the first such row); the
    other rows, the other maps, the counters and every object are as
    before. *)
Theorem remove_member_removes_one_row `{Builtins} (w : world) (groupId userId : Z) :
  reachable w →
  ((∀ m, m ∈ stored StudyGroupMember w → is_membership (mem w) groupId userId m = false) →
   removeStudyGroupMember groupId userId w = (false, w)) ∧
  ((∃ m, m ∈ stored StudyGroupMember w ∧ is_membership (mem w) groupId userId m = true) →
   ∃ rows1 id l rows2,
     studyGroupMembers (this w) = rows1 ++ (id, l) :: rows2 ∧
     is_membership (mem w) groupId userId l = true ∧
     Forall (fun r => is_membership (mem w) groupId userId r.2 = false) rows1 ∧
     removeStudyGroupMember groupId userId w =
       (true, mkWorld (mem w) (with_table StudyGroupMember (rows1 ++ rows2) (this w)))).
Proof.
  intros Hw%reachable_wf. rewrite removeStudyGroupMember_eq. split.
  - intros Hnone. by apply find_values_None in Hnone as ->.
  - intros (m & Hm & Hp).
    destruct (List.find _ _) as [l|] eqn:Hf;
      [|rewrite find_values_None in Hf; rewrite (Hf _ Hm) in Hp; done].
    apply find_values_split in Hf as (rows1 & id & rows2 & Hrows & Hl & Hfirst).
    exists rows1, id, l, rows2. change (table StudyGroupMember (this w)) with
      (studyGroupMembers (this w)) in Hrows. split_and!; [done..|].
    assert ((id, l) ∈ table StudyGroupMember (this w)) as Hin.
    { simpl. rewrite Hrows. apply elem_of_app. right. apply list_elem_of_here. }
    destruct (wf_row _ _ _ _ Hw Hin) as [_ (o & Ho & Hid & _)]. simpl in Ho, Hid.
    rewrite (get_lookup _ _ _ (VNum id)) by (unfold fields; rewrite Ho; auto).
    assert (id ∉ map_keys rows1) as Hfresh.
    { pose proof (wf_sorted w StudyGroupMember Hw) as Hs. simpl in Hs.
      apply sorted_NoDup in Hs. rewrite Hrows in Hs. unfold map_keys in *.
      rewrite map_app in Hs. simpl in Hs. apply NoDup_app in Hs as (_ & Hs & _).
      intros Hk. apply (Hs _ Hk). apply list_elem_of_here. }
    destruct (map_delete_split rows1 rows2 id l Hfresh) as [Hdel Hget].
    rewrite Hrows. unfold map_has. rewrite Hdel, Hget.
    by rewrite bool_decide_eq_true_2.
Qed.

(** ** Groups and sessions of a user *)

Lemma includes_spec arr x :
  includes arr x = true ↔ ∃ y, y ∈ arr ∧ same_value_zero y x = true.
Proof.
  unfold includes. rewrite existsb_exists. by setoid_rewrite list_elem_of_In.
Qed.

Section UserQueries.
Context `{Builtins}.

Lemma includes_memberGroups w userId g :
  includes (memberGroups_of (mem w) userId (stored StudyGroupMember w)) g = true ↔
  member_of w userId g.
Proof.
  rewrite includes_spec. unfold memberGroups_of, member_of. split.
  - intros (y & Hy & Hsame). change (map ?f ?l) with (f <$> l) in Hy.
    apply list_elem_of_fmap in Hy as (m & -> & [Hm Hu]%elem_of_filter). eauto.
  - intros (m & Hm & Hu & Hsame). exists (get (mem w) m "groupId"). split; [|done].
    change (map ?f ?l) with (f <$> l).
    apply (list_elem_of_fmap_2 (fun member => get (mem w) member "groupId")).
    by apply elem_of_filter.
Qed.

Lemma getUserStudyGroups_eq userId w :
  getUserStudyGroups userId w =
  (List.filter
     (fun group =>
        includes (memberGroups_of (mem w) userId (stored StudyGroupMember w))
                 (get (mem w) group "id"))
     (stored StudyGroup w), w).
Proof. reflexivity. Qed.

(** The stored entities of a type other than users have distinct ids,
    so they are distinct objects. *)
Lemma stored_ids_NoDup w t :
  wf w → t ≠ User → NoDup (map (fun l => get (mem w) l "id") (stored t w)).
Proof.
  intros Hw Ht. rewrite stored_ids by done. change (map ?f ?l) with (f <$> l).
  apply NoDup_fmap_2; [by intros ?? [=]|]. by apply sorted_NoDup, wf_sorted.
Qed.

(** C10: in a store built by the store's operations,
    [getUserStudyGroups] returns no group twice, neither as an object
    nor by id, however many membership rows the user has for it: the
    result is the stored groups, in their order, whose [id] is the
    [groupId] of at least one membership row of the user. *)
Theorem user_groups_without_repeats (w : world) (userId : Z) :
  reachable w →
  (getUserStudyGroups userId w).2 = w ∧
  NoDup (getUserStudyGroups userId w).1 ∧
  NoDup (map (fun g => get (mem w) g "id") (getUserStudyGroups userId w).1) ∧
  sublist (getUserStudyGroups userId w).1 (stored StudyGroup w) ∧
  ∀ g, g ∈ (getUserStudyGroups userId w).1 ↔
       g ∈ stored StudyGroup w ∧ member_of w userId (get (mem w) g "id").
Proof.
  intros Hw%reachable_wf. rewrite getUserStudyGroups_eq. cbn [fst snd].
  pose proof (stored_ids_NoDup w StudyGroup Hw ltac:(done)) as Hids.
  assert (NoDup (map (fun g => get (mem w) g "id")
                   (List.filter
                      (fun group =>
                         includes (memberGroups_of (mem w) userId
                                     (stored StudyGroupMember w))
                                  (get (mem w) group "id"))
                      (stored StudyGroup w)))) as Hnd.
  { eapply sublist_NoDup; [exact Hids|].
    change (map ?f ?l) with (f <$> l).
    apply (fmap_sublist (fun g => get (mem w) g "id")), filter_sublist. }
  split_and!; [done| |done|apply filter_sublist|].
  - change (map ?f ?l) with (f <$> l) in Hnd. by apply NoDup_fmap_1 in Hnd.
  - intros g. by rewrite elem_of_filter, includes_memberGroups.
Qed.
End UserQueries.

(** ** Sorting *)

Lemma sort_insert_perm {A} (gt : A → A → bool) x l : sort_insert gt x l ≡ₚ x :: l.
Proof.
  induction l as [|y l IH]; simpl; [done|].
  destruct (gt x y); [|done]. rewrite IH. apply Permutation_swap.
Qed.

Lemma js_sort_perm {A} (gt : A → A → bool) l : js_sort gt l ≡ₚ l.
Proof.
  induction l as [|x l IH]; simpl; [done|].
  rewrite sort_insert_perm. by rewrite IH.
Qed.

Section SortByTime.
Context {A : Type} (key : A → option Z).

Lemma sort_insert_sorted x l :
  has_time key x → Forall (has_time key) l → StronglySorted (time_le key) l →
  StronglySorted (time_le key) (sort_insert (time_gt key) x l).
Proof.
  intros [tx Hx] Hl Hs. induction l as [|y l IH]; simpl.
  - repeat constructor.
  - apply Forall_cons in Hl as [[ty Hy] Hl].
    apply StronglySorted_cons in Hs as [Hall Hs].
    unfold time_gt at 1, minus_positive. rewrite Hx, Hy.
    destruct (0 <? tx - ty) eqn:E.
    + apply StronglySorted_cons. split; [|by apply IH].
      rewrite sort_insert_perm. constructor; [|done].
      exists ty, tx. repeat split; [done..|lia].
    + apply StronglySorted_cons. split; [|by apply StronglySorted_cons].
      constructor; [exists tx, ty; repeat split; [done..|lia]|].
      eapply Forall_impl; [exact Hall|].
      intros z (ty' & tz & Hy' & Hz & Hle). exists tx, tz.
      repeat split; [done..|]. rewrite Hy in Hy'. injection Hy' as <-. lia.
Qed.

Lemma js_sort_sorted l :
  Forall (has_time key) l → StronglySorted (time_le key) (js_sort (time_gt key) l).
Proof.
  induction l as [|x l IH]; simpl; [constructor|].
  intros [Hx Hl]%Forall_cons. apply sort_insert_sorted; [done| |by apply IH].
  by rewrite js_sort_perm.
Qed.
End SortByTime.

Section Upcoming.
Context `{Builtins}.

Lemma getUpcomingStudySessions_eq userId clock w :
  getUpcomingStudySessions userId clock w =
  (js_sort (fun a b => minus_positive (start_time w a) (start_time w b))
     (List.filter
        (fun session =>
           includes (memberGroups_of (mem w) userId (stored StudyGroupMember w))
                    (get (mem w) session "groupId")
           && starts_after (mem w) clock session)
        (stored StudySession w)), w).
Proof. reflexivity. Qed.

Lemma starts_after_spec w clock session :
  starts_after (mem w) clock session = true ↔
  ∃ t, start_time w session = Some t ∧ clock < t.
Proof.
  unfold starts_after, start_time. destruct (Date_getTime _ _) as [t|].
  - rewrite Z.ltb_lt. split; [eauto|]. by intros (t' & [= <-] & ?).
  - split; [done|]. by intros (? & ? & ?).
Qed.

(** C5, as the code has it: [getUpcomingStudySessions] reads only; it
    returns exactly the stored sessions whose [groupId] is the [groupId]
    of a membership row of the user, whether or not a group is stored
    under that id, and whose start time is strictly after the clock
    reading (a session that starts at or before it, or whose start is
    not a date, is left out), each once, in ascending order of start
    time. *)
Theorem upcoming_sessions_filtered_and_sorted (w : world) (userId clock : Z) :
  (getUpcomingStudySessions userId clock w).2 = w ∧
  (∀ s, s ∈ (getUpcomingStudySessions userId clock w).1 ↔
        s ∈ stored StudySession w ∧
        member_of w userId (get (mem w) s "groupId") ∧
        ∃ t, start_time w s = Some t ∧ clock < t) ∧
  StronglySorted (starts_no_later w) (getUpcomingStudySessions userId clock w).1 ∧
  ∃ sub, sublist sub (stored StudySession w) ∧
         (getUpcomingStudySessions userId clock w).1 ≡ₚ sub.
Proof.
  rewrite getUpcomingStudySessions_eq. cbn [fst snd].
  assert (∀ s, s ∈ List.filter
                 (fun session =>
                    includes (memberGroups_of (mem w) userId (stored StudyGroupMember w))
                             (get (mem w) session "groupId")
                    && starts_after (mem w) clock session)
                 (stored StudySession w) ↔
               s ∈ stored StudySession w ∧
               member_of w userId (get (mem w) s "groupId") ∧
               ∃ t, start_time w s = Some t ∧ clock < t) as Hfilter.
  { intros s. rewrite elem_of_filter, andb_true_iff.
    by rewrite includes_memberGroups, starts_after_spec. }
  split_and!; [done| | |].
  - intros s. by rewrite js_sort_perm.
  - apply (js_sort_sorted (start_time w)). apply Forall_forall.
    intros s (_ & _ & t & Ht & _)%Hfilter. by exists t.
  - eexists. split; [apply filter_sublist|apply js_sort_perm].
Qed.
End Upcoming.

(** ** Reads hand out the stored objects *)

Lemma find_lower_elem `{Builtins} h key s ls l :
  find_lower h key s ls = Some (Some l) → l ∈ ls.
Proof.
  induction ls as [|x ls IH]; simpl; [done|].
  destruct (get h x key); try done.
  destruct (String.eqb _ _).
  - intros [= ->]. apply list_elem_of_here.
  - intros ?. apply list_elem_of_further. auto.
Qed.

Lemma limited_elem limit arr l : l ∈ limited limit arr → l ∈ arr.
Proof.
  unfold limited, slice0. destruct limit as [n|]; [|done].
  destruct (n =? 0); [done|].
  destruct (n <? 0); intros Hl; eapply elem_of_sublist; eauto using sublist_take.
Qed.

Lemma map_get_stored t w id l : map_get (table t (this w)) id = Some l → l ∈ stored t w.
Proof. intros Hl%map_get_Some_elem. apply elem_of_map_values. eauto. Qed.

Section Reads.
Context `{Builtins}.

Lemma reads_refs c w l :
  reads c = true → l ∈ refs_of (exec c w).1 → ∃ t, l ∈ stored t w.
Proof.
  destruct c; try discriminate; intros _; try destruct filters; simpl; intros Hl;
    repeat match goal with
      | H : _ ∈ refs_of (of_find ?o) |- _ =>
          destruct o as [[?|]|] eqn:?; simpl in H;
          [apply list_elem_of_singleton in H; subst
          |by apply elem_of_nil in H|by apply elem_of_nil in H]
      | H : _ ∈ refs_of (of_option ?o) |- _ =>
          destruct o eqn:?; simpl in H;
          [apply list_elem_of_singleton in H; subst|by apply elem_of_nil in H]
      | H : find_lower _ _ _ _ = Some (Some _) |- _ => apply find_lower_elem in H
      | H : _ ∈ limited _ _ |- _ => apply limited_elem in H
      | H : _ ∈ js_sort _ _ |- _ => rewrite js_sort_perm in H
      | H : _ ∈ List.filter _ _ |- _ => apply elem_of_filter in H as [H _]
      end;
    first [ by exists User | by exists Paper | by exists DiscussionPost
          | by exists DiscussionReply | by exists Resource | by exists StudyGroup
          | by exists StudyGroupMember | by exists StudySession | by exists Activity
          | exists User; eapply (map_get_stored User); eassumption
          | exists Paper; eapply (map_get_stored Paper); eassumption
          | exists DiscussionPost; eapply (map_get_stored DiscussionPost); eassumption
          | exists Resource; eapply (map_get_stored Resource); eassumption
          | exists StudyGroup; eapply (map_get_stored StudyGroup); eassumption
          | exists StudySession; eapply (map_get_stored StudySession); eassumption ].
Qed.

(** The store's methods leave every existing cell of the heap as it
    is: an update puts a new object in the map. *)
Lemma exec_keeps_cells c w (l : loc) :
  (l < length (mem w))%nat → mem (exec c w).2 !! l = mem w !! l.
Proof.
  intros Hl. pose proof (exec_shape c w) as He.
  destruct (shape_of c) as [|t stamp build|t id f|g u] eqn:Hs.
  - by destruct He as [_ ->].
  - destruct He as (Hc & _ & _).
    destruct (exec_create c t w Hc) as (o & -> & _). simpl. by apply lookup_old.
  - rewrite He, fmap_M_eq. simpl.
    destruct (map_get (table t (this w)) id) as [l0|] eqn:Hget.
    + rewrite (gen_update_Some _ _ _ _ _ Hget). simpl. by apply lookup_old.
    + by rewrite (gen_update_None _ _ _ _ Hget).
  - rewrite He, fmap_M_eq, removeStudyGroupMember_eq. simpl.
    destruct (List.find _ _); [|done]. by destruct (get _ _ _).
Qed.

(** C3, as the code has it: a read leaves the world as it is and the
    references it returns are the ones the store holds, not copies; an
    assignment by the caller through such a reference changes the
    entity the store holds; and the store's own methods never change an
    object that exists, an update replacing the stored reference by a
    new object. *)
Theorem reads_return_the_stored_objects :
  (∀ c w, reads c = true →
     (exec c w).2 = w ∧ ∀ l, l ∈ refs_of (exec c w).1 → ∃ t, l ∈ stored t w) ∧
  (∀ t id l o k v w,
     map_get (table t (this w)) id = Some l →
     mem w !! l = Some (HObj o) →
     stored_entity t id (assign l k v w) = Some (<[k := v]> o)) ∧
  (∀ c w (l : loc),
     (l < length (mem w))%nat → mem (exec c w).2 !! l = mem w !! l).
Proof.
  split_and!.
  - intros c w Hr. split.
    + pose proof (exec_shape c w) as He. rewrite (reads_shape _ Hr) in He. apply He.
    + intros l. by apply reads_refs.
  - intros t id l o k v w Hget Hl. unfold stored_entity, assign, put. simpl.
    rewrite Hget, Hl. simpl. unfold fields.
    rewrite list_lookup_insert_eq; [done|]. by eapply lookup_lt_Some.
  - apply exec_keeps_cells.
Qed.
End Reads.

(** ** What a create stamps on the entity *)

(** C4, as the code has it: every create returns a new object, stored
    under the next id of its type, whose [id] is that id, and moves the
    counter by one.  The eight creates that read the clock also allocate
    a [Date] of that reading and put it in the entity's timestamp
    property ([createdAt], [uploadDate] or [joinedAt]);
    [createStudySession] reads no clock: the only cell it allocates is
    the entity, which has the caller's properties and the [id], and no
    property of it refers to a [Date] made by the call. *)
Theorem creates_assign_id_and_timestamp `{Builtins} (c : call) (t : etype) (w : world) :
  creates c = Some t →
  ∃ l, (exec c w).1 = Entity l ∧
       mem w !! l = None ∧
       map_get (table t (this (exec c w).2)) (current t (this w)) = Some l ∧
       get (mem (exec c w).2) l "id" = VNum (current t (this w)) ∧
       current t (this (exec c w).2) = current t (this w) + 1 ∧
       match clock_of c with
       | Some clock =>
           has_timestamp (mem w) (exec c w).2 l ∧
           ∃ d, fields (mem (exec c w).2) l !! timestamp_field t = Some (VRef d) ∧
                mem w !! d = None ∧
                mem (exec c w).2 !! d = Some (HDate (Some clock))
       | None =>
           ¬ has_timestamp (mem w) (exec c w).2 l ∧
           ∃ session,
             c = CreateStudySession session ∧
             mem (exec c w).2 =
               mem w ++ [HObj (<["id" := VNum (current t (this w))]> session)]
       end.
Proof.
  intros Hc. destruct (exec_create c t w Hc) as (o & -> & Hl & Hid & _ & Hts & Hnone).
  eexists. cbn [fst snd mem this]. split; [done|]. split_and!.
  - apply lookup_ge_None. destruct (clock_of c); simpl; lia.
  - autorewrite with store. by rewrite decide_True, map_get_set_eq.
  - apply get_lookup. unfold fields. by rewrite Hl.
  - autorewrite with store. by rewrite decide_True.
  - destruct (clock_of c) as [clock|] eqn:Hclock.
    + assert (fields (mem w ++ new_cells (Some clock) o) (new_loc (Some clock) (mem w))
                !! timestamp_field t = Some (VRef (length (mem w))) ∧
              mem w !! length (mem w) = None ∧
              (mem w ++ new_cells (Some clock) o) !! length (mem w)
                = Some (HDate (Some clock))) as (Hf & Hold & Hnew).
      { split_and!.
        - unfold fields. rewrite Hl. eauto.
        - by apply lookup_ge_None.
        - simpl. by rewrite lookup_app_r, Nat.sub_diag. }
      split; [|by exists (length (mem w))].
      exists (timestamp_field t), (length (mem w)), (Some clock). done.
    + destruct (Hnone eq_refl) as (session & -> & ->). split; [|by exists session].
      intros (k & d & t' & _ & Hold & Hd). simpl in Hd.
      apply lookup_ge_None in Hold.
      rewrite lookup_app_r in Hd by done.
      destruct (d - length (mem w))%nat as [|[|?]]; simpl in Hd; discriminate.
Qed.

(** ** The worked history, evaluated *)

Section Examples.
#[local] Existing Instance sample_builtins.

Lemma example_reachable : reachable example_world.
Proof. by exists [], example_history. Qed.

Example example_papers : (getPapers None example_world).1 = [17%nat; 13%nat].
Proof. reflexivity. Qed.

Example example_filter :
  (getPapers (Some {[ "course" := VStr "MATH102"; "year" := VNum 2020 ]}) example_world).1
  = [13%nat].
Proof. reflexivity. Qed.

Example example_issued :
  issued StudySession example_history fresh_world = [VNum 1; VNum 2; VNum 3].
Proof. reflexivity. Qed.

Example example_groups : (getUserStudyGroups 1 example_world).1 = [3%nat].
Proof. reflexivity. Qed.

Example example_upcoming :
  (getUpcomingStudySessions 1 5000 example_world).1 = [15%nat; 14%nat].
Proof. reflexivity. Qed.

Lemma list_returns_created_and_filters_witness :
  list_method Paper getPapers ∧
  own_names {[ "course" := VStr "MATH102"; "year" := VNum 2020 ]} ∧
  map (fun l => get (mem (play example_history (mkWorld [] constructor))) l "id")
      (getPapers None (play example_history (mkWorld [] constructor))).1 =
    issued Paper example_history (mkWorld [] constructor) ∧
  ∀ l, l ∈ (getPapers (Some {[ "course" := VStr "MATH102"; "year" := VNum 2020 ]})
              example_world).1 ↔
       l ∈ (getPapers None example_world).1 ∧
       ∀ k v, ({[ "course" := VStr "MATH102"; "year" := VNum 2020 ]} : obj) !! k = Some v →
              strict_eq (get (mem example_world) l k) v = true.
Proof.
  assert (own_names {[ "course" := VStr "MATH102"; "year" := VNum 2020 ]}) as Hown.
  { intros key Hkey.
    repeat (apply elem_of_cons in Hkey as [->|Hkey]; [reflexivity|]).
    by apply elem_of_nil in Hkey. }
  split; [constructor|]. split; [exact Hown|]. split.
  - exact (proj1 (list_returns_created_and_filters Paper getPapers list_papers)
             [] example_history).
  - exact (proj2 (proj2 (proj2
             (proj1 (proj2 (list_returns_created_and_filters Paper getPapers list_papers))
                example_world {[ "course" := VStr "MATH102"; "year" := VNum 2020 ]}
                Hown)))).
Defined.

(** C3 as stated fails: the paper that [getPaper] returns is the
    stored object, and an assignment to its [downloads] by the caller
    changes the paper the store holds, without any store operation. *)
Lemma read_is_not_a_copy :
  (getPaper 1 example_world).1 = Some 17%nat ∧
  stored_entity Paper 1 (assign 17%nat "downloads" (VNum 41) example_world)
  ≠ stored_entity Paper 1 example_world.
Proof.
  split; [reflexivity|]. intros Heq.
  apply (f_equal (fun o => (fun p => p !! "downloads") <$> o)) in Heq.
  vm_compute in Heq. discriminate.
Qed.

Lemma reads_return_the_stored_objects_witness :
  reads (GetPaper 1) = true ∧
  (exec (GetPaper 1) example_world).2 = example_world ∧
  ∀ l, l ∈ refs_of (exec (GetPaper 1) example_world).1 → ∃ t, l ∈ stored t example_world.
Proof.
  split; [reflexivity|].
  apply (proj1 reads_return_the_stored_objects (GetPaper 1) example_world).
  reflexivity.
Defined.

(** C4 as stated fails: the session that [createStudySession] makes
    on an empty heap is the only cell of the heap afterwards, so no
    property of it refers to a [Date]. *)
Lemma createStudySession_stamps_no_time :
  creates (CreateStudySession {[ "groupId" := VNum 1; "title" := VStr "Revision" ]})
    = Some StudySession ∧
  ¬ has_timestamp (mem fresh_world)
      (createStudySession {[ "groupId" := VNum 1; "title" := VStr "Revision" ]}
         fresh_world).2
      (createStudySession {[ "groupId" := VNum 1; "title" := VStr "Revision" ]}
         fresh_world).1.
Proof.
  split; [reflexivity|]. intros (k & d & t & _ & _ & Hd).
  destruct d as [|[|d]]; simpl in Hd; discriminate.
Qed.

Lemma creates_assign_id_and_timestamp_witness :
  creates (CreatePaper {[ "course" := VStr "MATH101" ]} 4000) = Some Paper ∧
  ∃ l, (exec (CreatePaper {[ "course" := VStr "MATH101" ]} 4000) fresh_world).1 = Entity l ∧
       mem fresh_world !! l = None ∧
       map_get (table Paper
                  (this (exec (CreatePaper {[ "course" := VStr "MATH101" ]} 4000)
                           fresh_world).2))
               (current Paper (this fresh_world)) = Some l ∧
       get (mem (exec (CreatePaper {[ "course" := VStr "MATH101" ]} 4000) fresh_world).2)
           l "id" = VNum (current Paper (this fresh_world)) ∧
       current Paper
         (this (exec (CreatePaper {[ "course" := VStr "MATH101" ]} 4000) fresh_world).2)
       = current Paper (this fresh_world) + 1 ∧
       has_timestamp (mem fresh_world)
         (exec (CreatePaper {[ "course" := VStr "MATH101" ]} 4000) fresh_world).2 l ∧
       ∃ d, fields (mem (exec (CreatePaper {[ "course" := VStr "MATH101" ]} 4000)
                           fresh_world).2) l !! "uploadDate" = Some (VRef d) ∧
            mem fresh_world !! d = None ∧
            mem (exec (CreatePaper {[ "course" := VStr "MATH101" ]} 4000) fresh_world).2
              !! d = Some (HDate (Some 4000)).
Proof.
  split; [reflexivity|].
  exact (creates_assign_id_and_timestamp
           (CreatePaper {[ "course" := VStr "MATH101" ]} 4000) Paper fresh_world eq_refl).
Defined.

(** C5 as stated fails: the user has a membership row for group id 9
    and a session carries that id, but no group is stored under it, so
    the user is a member of no group; the session is returned all the
    same. *)
Lemma upcoming_session_of_no_group :
  reachable orphan_world ∧
  (getUpcomingStudySessions 1 5000 orphan_world).1 = [2%nat] ∧
  get (mem orphan_world) 2%nat "groupId" = VNum 9 ∧
  (getStudyGroup 9 orphan_world).1 = None ∧
  stored StudyGroup orphan_world = [] ∧
  (getUserStudyGroups 1 orphan_world).1 = [].
Proof.
  split; [by exists [], orphan_history|]. repeat split; reflexivity.
Qed.

Lemma remove_member_removes_one_row_witness :
  reachable example_world ∧
  (∃ m, m ∈ stored StudyGroupMember example_world ∧
        is_membership (mem example_world) 1 1 m = true) ∧
  ∃ rows1 id l rows2,
    studyGroupMembers (this example_world) = rows1 ++ (id, l) :: rows2 ∧
    is_membership (mem example_world) 1 1 l = true ∧
    Forall (fun r => is_membership (mem example_world) 1 1 r.2 = false) rows1 ∧
    removeStudyGroupMember 1 1 example_world =
      (true, mkWorld (mem example_world)
               (with_table StudyGroupMember (rows1 ++ rows2) (this example_world))).
Proof.
  assert (∃ m, m ∈ stored StudyGroupMember example_world ∧
               is_membership (mem example_world) 1 1 m = true) as Hm.
  { exists 5%nat. split; [apply list_elem_of_here|reflexivity]. }
  split; [apply example_reachable|]. split; [exact Hm|].
  apply (proj2 (remove_member_removes_one_row example_world 1 1 example_reachable) Hm).
Defined.

Lemma increment_downloads_counts_witness :
  (getPaper 1 example_world).1 = Some 17%nat ∧
  get (mem example_world) 17%nat "downloads" = VNum 1 ∧
  ∃ l', incrementPaperDownloads 1 example_world
          = (Some l', (incrementPaperDownloads 1 example_world).2) ∧
        (getPaper 1 (incrementPaperDownloads 1 example_world).2).1 = Some l' ∧
        get (mem (incrementPaperDownloads 1 example_world).2) l' "downloads"
          = VNum (1 + 1).
Proof.
  split; [reflexivity|]. split; [reflexivity|].
  apply (proj1 (proj2 increment_downloads_counts) 1 example_world 17%nat 1);
    reflexivity.
Defined.



Lemma get_by_id_after_create_witness :
  get_method Paper getPaper ∧
  creates (CreatePaper {[ "course" := VStr "MATH103" ]} 5000) = Some Paper ∧
  ∃ l id,
    (exec (CreatePaper {[ "course" := VStr "MATH103" ]} 5000) example_world).1 = Entity l ∧
    get (mem (exec (CreatePaper {[ "course" := VStr "MATH103" ]} 5000) example_world).2)
        l "id" = VNum id ∧
    getPaper id (exec (CreatePaper {[ "course" := VStr "MATH103" ]} 5000) example_world).2
    = (Some l, (exec (CreatePaper {[ "course" := VStr "MATH103" ]} 5000) example_world).2).
Proof.
  split; [constructor|]. split; [reflexivity|].
  apply (proj1 (get_by_id_after_create Paper getPaper get_paper)
           (CreatePaper {[ "course" := VStr "MATH103" ]} 5000) example_world).
  reflexivity.
Defined.

Lemma user_groups_without_repeats_witness :
  reachable example_world ∧
  (getUserStudyGroups 1 example_world).2 = example_world ∧
  NoDup (getUserStudyGroups 1 example_world).1 ∧
  NoDup (map (fun g => get (mem example_world) g "id")
           (getUserStudyGroups 1 example_world).1) ∧
  sublist (getUserStudyGroups 1 example_world).1 (stored StudyGroup example_world) ∧
  ∀ g, g ∈ (getUserStudyGroups 1 example_world).1 ↔
       g ∈ stored StudyGroup example_world ∧
       member_of example_world 1 (get (mem example_world) g "id").
Proof.
  split; [apply example_reachable|].
  apply (user_groups_without_repeats example_world 1 example_reachable).
Defined.
End Examples.

(** * Further properties of the store and of the group routes *)


Section MoreShapes.
Context `{Builtins}.

(** The result and the world of a call, by its shape. *)
Lemma exec_by_shape c w :
  match shape_of c with
  | SRead => (exec c w).2 = w
  | SCreate t stamp build =>
      exec c w =
      (Entity (new_loc stamp (mem w)),
       mkWorld
         (mem w ++ new_cells stamp (build (current t (this w)) (new_now stamp (mem w))))
         (with_table t
            (map_set (table t (this w)) (current t (this w)) (new_loc stamp (mem w)))
            (with_current t (current t (this w) + 1) (this w))))
  | SUpdate t id f =>
      match map_get (table t (this w)) id with
      | Some l =>
          exec c w =
          (Entity (length (mem w)),
           mkWorld (mem w ++ [HObj (f (mem w) l)])
             (with_table t (map_set (table t (this w)) id (length (mem w))) (this w)))
      | None => exec c w = (Undefined, w)
      end
  | SRemove groupId userId =>
      exec c w = fmap_M Boolean (removeStudyGroupMember groupId userId) w
  end.
Proof.
  pose proof (exec_shape c w) as He.
  destruct (shape_of c) as [|t stamp build|t id f|g u].
  - apply He.
  - destruct He as (_ & _ & ->). rewrite fmap_M_eq.
    destruct stamp; [by rewrite gen_create_Some|by rewrite gen_create_None].
  - rewrite He, fmap_M_eq.
    destruct (map_get _ _) as [l|] eqn:Hl.
    + by rewrite (gen_update_Some _ _ _ _ _ Hl).
    + by rewrite (gen_update_None _ _ _ _ Hl).
  - done.
Qed.

Lemma shape_touches c :
  match shape_of c with
  | SRead => touches c = None
  | SCreate t _ _ => touches c = Some t ∧ creates c = Some t
  | SUpdate t _ _ => touches c = Some t ∧ creates c = None
  | SRemove _ _ => touches c = Some StudyGroupMember ∧ creates c = None
  end.
Proof. by destruct c. Qed.
End MoreShapes.

Section RowInvariants.
Context `{Builtins}.

Lemma new_loc_lookup stamp (h : heap) o :
  (h ++ new_cells stamp o) !! new_loc stamp h = Some (HObj o).
Proof. destruct stamp; simpl; [apply lookup_new2|apply lookup_new]. Qed.

(** A property of the stored objects that survives the growth of the
    heap, holds of what the creates build and is kept by what the
    updates build is kept by every call. *)
Lemma rows_satisfy_exec (P : etype → heap → obj → Prop) c w :
  (∀ t h h' o, P t h o → P t (h ++ h') o) →
  (∀ t stamp build, shape_of c = SCreate t stamp build →
     ∀ h id, P t (h ++ new_cells stamp (build id (new_now stamp h)))
               (build id (new_now stamp h))) →
  (∀ t id f, shape_of c = SUpdate t id f →
     ∀ h l o, h !! l = Some (HObj o) → P t h o → P t (h ++ [HObj (f h l)]) (f h l)) →
  rows_satisfy P w → rows_satisfy P (exec c w).2.
Proof.
  intros Hmono Hcreate Hupdate Hw.
  assert (∀ h' t k l, (k, l) ∈ table t (this w) →
            ∃ o, (mem w ++ h') !! l = Some (HObj o) ∧ P t (mem w ++ h') o) as Hold.
  { intros h' t k l (o & Hl & HP)%Hw. exists o. split; [by apply lookup_app_l_Some|auto]. }
  pose proof (exec_by_shape c w) as He.
  destruct (shape_of c) as [|t stamp build|t id f|g u] eqn:Hs.
  - by rewrite He.
  - rewrite He. intros t' k l. cbn [fst snd mem this]. autorewrite with store.
    case_decide as Ht; [subst t'|by apply Hold].
    intros [[= -> ->]|Hin]%map_set_elem; [|by eapply Hold].
    eexists. split; [apply new_loc_lookup|]. by apply Hcreate.
  - destruct (map_get (table t (this w)) id) as [l0|] eqn:Hget; rewrite He; [|done].
    intros t' k l. cbn [fst snd mem this]. autorewrite with store.
    case_decide as Ht; [subst t'|by apply Hold].
    intros [[= -> ->]|Hin]%map_set_elem; [|by eapply Hold].
    eexists. split; [apply lookup_new|].
    destruct (Hw _ _ _ (map_get_Some_elem _ _ _ Hget)) as (o & Hl & HP).
    by eapply Hupdate.
  - rewrite He, fmap_M_eq, removeStudyGroupMember_eq. cbn [snd].
    destruct (List.find _ _); [|done]. destruct (get _ _ _); try done.
    intros t' k' l'. cbn [fst snd mem this]. autorewrite with store.
    case_decide as Ht; [subst t'|by apply Hw].
    intros Hin%map_delete_elem. by apply (Hw StudyGroupMember k' l').
Qed.

Lemma rows_satisfy_alloc (P : etype → heap → obj → Prop) c w :
  (∀ t h h' o, P t h o → P t (h ++ h') o) →
  rows_satisfy P w → rows_satisfy P (alloc c w).2.
Proof.
  intros Hmono Hw t k l (o & Hl & HP)%Hw. exists o. simpl.
  split; [by apply lookup_app_l_Some|auto].
Qed.

Lemma date_lookup_app (h h' : heap) (d : loc) time :
  h !! d = Some (HDate (Some time)) → (h ++ h') !! d = Some (HDate (Some time)).
Proof. apply lookup_app_l_Some. Qed.

Lemma well_typed_mono t h h' o : well_typed t h o → well_typed t (h ++ h') o.
Proof.
  destruct t; simpl; try done;
    repeat match goal with
      | |- _ ∧ _ → _ => intros [? ?]
      | |- (∃ _, _) → _ => intros [? ?]
      | |- _ → _ => intros ?
      end;
    repeat match goal with
      | H : _ ∧ _ |- _ => destruct H
      | H : ∃ _, _ |- _ => destruct H
      end;
    repeat split; eauto 10 using date_lookup_app.
Qed.

Lemma well_typed_create c t stamp build h id :
  shape_of c = SCreate t stamp build →
  well_typed t (h ++ new_cells stamp (build id (new_now stamp h)))
    (build id (new_now stamp h)).
Proof.
  destruct c; simpl; intros [= <- <- <-]; simpl; try done;
    repeat split;
    try (eexists; split; [by simplify_map_eq|lia]);
    try (eexists; by simplify_map_eq);
    try (exists (length h), clock; split; [by simplify_map_eq|];
         by rewrite lookup_app_r, Nat.sub_diag).
Qed.

Lemma well_typed_update c t id f h l o :
  shape_of c = SUpdate t id f →
  h !! l = Some (HObj o) →
  well_typed t h o →
  well_typed t (h ++ [HObj (f h l)]) (f h l).
Proof.
  intros Hs Hl. assert (fields h l = o) as Hf by (unfold fields; by rewrite Hl).
  assert (∀ k, get h l k = default VUndef (o !! k)) as Hget
    by (intros k; unfold get, prop; by rewrite Hf).
  destruct c; simpl in Hs; try discriminate; injection Hs as <- <- <-; simpl;
    try done; rewrite ?Hf, ?Hget;
    repeat match goal with
      | |- _ ∧ _ → _ => intros [? ?]
      | |- (∃ _, _) → _ => intros [? ?]
      end;
    repeat match goal with
      | H : _ ∧ _ |- _ => destruct H
      | H : ∃ _, _ |- _ => destruct H
      end;
    repeat match goal with
      | H : o !! _ = Some _ |- _ => rewrite ?H; simpl
      end;
    repeat split;
    try (eexists; split; [by simplify_map_eq|lia]);
    try (eexists; by simplify_map_eq);
    try (do 2 eexists; split; [by simplify_map_eq|by apply date_lookup_app]).
Qed.

Lemma well_typed_play acts w :
  rows_satisfy well_typed w → rows_satisfy well_typed (play acts w).
Proof.
  revert w. induction acts as [|a acts IH]; intros w Hw; simpl; [done|].
  apply IH. destruct a as [c|c]; simpl.
  - apply rows_satisfy_exec; eauto using well_typed_mono, well_typed_create, well_typed_update.
  - apply rows_satisfy_alloc; eauto using well_typed_mono.
Qed.

Lemma reachable_well_typed w : reachable w → rows_satisfy well_typed w.
Proof.
  intros (h & acts & ->). apply well_typed_play.
  intros t k l Hin. destruct t; simpl in Hin; by apply elem_of_nil in Hin.
Qed.
End RowInvariants.

Section StoreInvariants.
Context `{Builtins}.

Lemma stored_entity_Some t id w o :
  wf w → stored_entity t id w = Some o →
  ∃ l, (id, l) ∈ table t (this w) ∧ mem w !! l = Some (HObj o).
Proof.
  intros Hw. unfold stored_entity.
  destruct (map_get _ _) as [l|] eqn:Hl; [|done]. intros [= <-].
  apply map_get_Some_elem in Hl. exists l. split; [done|].
  destruct (wf_row _ _ _ _ Hw Hl) as [_ (o & Ho & _)]. simpl in Ho.
  unfold fields. by rewrite Ho.
Qed.

(** X1: in a store built by the store's operations, the properties
    that the store itself writes keep their types: the download counter of
    every stored paper and resource is a natural number, the votes of
    every post and reply and the rating of every resource are numbers,
    and the creation timestamp of every stored entity other than a user
    or a session refers to a valid [Date].  Users are left out because
    [updateUser] writes whatever the caller passes. *)
Theorem stored_values_stay_typed (w : world) (t : etype) (id : Z) (o : obj) :
  reachable w → stored_entity t id w = Some o → well_typed t (mem w) o.
Proof.
  intros Hw Ho.
  destruct (stored_entity_Some _ _ _ _ (reachable_wf _ Hw) Ho) as (l & Hin & Hl).
  destruct (reachable_well_typed _ Hw _ _ _ Hin) as (o' & Hl' & HP). congruence.
Qed.

(** X2: in a store built by the store's operations, the entity
    stored under the key [id] has [id] as its own [id] property, for
    every entity type but users (whose [id] property [updateUser] can
    overwrite). *)
Theorem stored_id_is_key (w : world) (t : etype) (id : Z) (o : obj) :
  reachable w → t ≠ User → stored_entity t id w = Some o → o !! "id" = Some (VNum id).
Proof.
  intros Hw%reachable_wf Ht Ho.
  destruct (stored_entity_Some _ _ _ _ Hw Ho) as (l & Hin & Hl).
  destruct (wf_row _ _ _ _ Hw Hin) as [_ (o' & Hl' & Hid & _)]. simpl in *.
  assert (o' = o) as -> by congruence. auto.
Qed.

Lemma reachable_keys w t :
  reachable w → t ≠ StudyGroupMember →
  map_keys (table t (this w)) = seqZ 1 (current t (this w) - 1).
Proof.
  intros (h & acts & ->) Ht.
  pose proof (keys_play t acts _ (wf_init h) Ht) as Hkeys.
  destruct (issued_seq t acts (mkWorld h constructor)) as [_ Hissued].
  rewrite Hissued in Hkeys.
  replace (map_keys (table t (this (mkWorld h constructor)))) with (@nil Z) in Hkeys
    by (by destruct t).
  replace (current t (this (mkWorld h constructor))) with 1 in Hkeys by (by destruct t).
  simpl in Hkeys. change (map VNum ?x) with (VNum <$> x) in Hkeys.
  assert (Inj (=) (=) VNum) by (by intros ?? [=]).
  by apply (inj (fmap VNum)).
Qed.

(** X3: in a store built by the store's operations, an entity is
    stored under [id] only if [id] lies between 1 and the last id that the
    type's counter issued; for every type but membership rows, the only
    type with a removal, the converse holds too: the keys of the map are
    exactly 1, 2, ..., counter - 1, without gaps. *)
Theorem present_iff_issued (w : world) (t : etype) (id : Z) :
  reachable w →
  (is_Some (stored_entity t id w) → 1 ≤ id < current t (this w)) ∧
  (t ≠ StudyGroupMember →
   1 ≤ id < current t (this w) → is_Some (stored_entity t id w)) ∧
  (t ≠ StudyGroupMember →
   map_keys (table t (this w)) = seqZ 1 (current t (this w) - 1)).
Proof.
  intros Hw. split_and!.
  - intros [o Ho]. destruct (stored_entity_Some _ _ _ _ (reachable_wf _ Hw) Ho) as (l & Hin & _).
    apply (wf_keys_lt w t id (reachable_wf _ Hw)). apply elem_of_map_keys. eauto.
  - intros Ht Hid. unfold stored_entity.
    destruct (map_get (table t (this w)) id) as [l|] eqn:Hl; [by eexists|].
    apply map_get_None in Hl. rewrite (reachable_keys _ _ Hw Ht) in Hl.
    exfalso. apply Hl. apply elem_of_seqZ. lia.
  - by apply reachable_keys.
Qed.
End StoreInvariants.

Section Frames.
Context `{Builtins}.

(** X4: a call of the store changes the map and the counter of at
    most one entity type, the one its method belongs to; the maps and
    counters of all other types are as before, from any store state. *)
Theorem call_changes_one_table (c : call) (w : world) (t : etype) :
  touches c ≠ Some t →
  table t (this (exec c w).2) = table t (this w) ∧
  current t (this (exec c w).2) = current t (this w).
Proof.
  intros Ht. pose proof (exec_by_shape c w) as He. pose proof (shape_touches c) as Hc.
  destruct (shape_of c) as [|t' stamp build|t' id f|g u].
  - by rewrite He.
  - destruct Hc as [Hc _]. rewrite He. cbn [snd this]. autorewrite with store.
    rewrite !decide_False by congruence. done.
  - destruct Hc as [Hc _].
    destruct (map_get _ _); rewrite He; [|done]. cbn [snd this]. autorewrite with store.
    rewrite !decide_False by congruence. done.
  - destruct Hc as [Hc _]. rewrite He, fmap_M_eq, removeStudyGroupMember_eq. cbn [snd].
    destruct (List.find _ _); [|done]. destruct (get _ _ _); try done.
    cbn [snd this]. autorewrite with store. rewrite !decide_False by congruence. done.
Qed.

(** The heap only grows. *)
Lemma exec_heap_prefix c w : mem w `prefix_of` mem (exec c w).2.
Proof.
  pose proof (exec_by_shape c w) as He.
  destruct (shape_of c) as [|t' stamp build|t' id f|g u].
  - by rewrite He.
  - rewrite He. by eexists.
  - destruct (map_get _ _); rewrite He; [by eexists|done].
  - rewrite He, fmap_M_eq, removeStudyGroupMember_eq. cbn [snd].
    destruct (List.find _ _); [|done]. by destruct (get _ _ _).
Qed.

Lemma play_heap_prefix acts w : mem w `prefix_of` mem (play acts w).
Proof.
  revert w. induction acts as [|a acts IH]; intros w; simpl; [done|].
  etrans; [|apply IH]. destruct a; simpl; [apply exec_heap_prefix|by eexists].
Qed.

Lemma shape_update_not_append_only c t id f :
  shape_of c = SUpdate t id f → append_only t = false.
Proof. destruct c; simpl; intros [= <- <- <-]; done. Qed.

Lemma exec_append_only c w t :
  wf w → append_only t = true →
  table t (this w) `prefix_of` table t (this (exec c w).2).
Proof.
  intros Hw Ht. pose proof (exec_by_shape c w) as He.
  destruct (shape_of c) as [|t' stamp build|t' id f|g u] eqn:Hs.
  - by rewrite He.
  - rewrite He. cbn [snd this]. autorewrite with store. case_decide; [subst|done].
    rewrite map_set_fresh by by apply wf_current_fresh. by eexists.
  - apply shape_update_not_append_only in Hs.
    destruct (map_get _ _); rewrite He; [|done]. cbn [snd this]. autorewrite with store.
    rewrite decide_False by congruence. done.
  - rewrite He, fmap_M_eq, removeStudyGroupMember_eq. cbn [snd].
    destruct (List.find _ _); [|done]. destruct (get _ _ _); try done.
    cbn [snd this]. autorewrite with store. rewrite decide_False; [done|].
    intros ->. done.
Qed.

(** X5: study groups, study sessions and activities are
    append-only: over any sequence of store calls, the map of such a type
    keeps its rows as a prefix, and the objects stored in it keep all
    their properties. *)
Theorem append_only_tables_grow (t : etype) (acts : list action) (w : world) :
  reachable w → append_only t = true →
  table t (this w) `prefix_of` table t (this (play acts w)) ∧
  ∀ l, l ∈ stored t w → fields (mem (play acts w)) l = fields (mem w) l.
Proof.
  intros Hw%reachable_wf Ht. split.
  - revert w Hw. induction acts as [|a acts IH]; intros w Hw; simpl; [done|].
    etrans; [|apply IH; by apply wf_step]. destruct a; simpl; [by apply exec_append_only|done].
  - intros l [k Hin]%elem_of_map_values.
    destruct (wf_row _ _ _ _ Hw Hin) as [_ (o & Ho & _)]. simpl in Ho.
    destruct (play_heap_prefix acts w) as [h' ->].
    by apply fields_app_old with (HObj o).
Qed.
End Frames.

Section Users.
Context `{Builtins}.

Lemma user_lookup_eq key method :
  user_lookup key method →
  (key = "username" ∨ key = "email") ∧
  ∀ s w, method s w = (find_lower (mem w) key s (stored User w), w).
Proof. destruct 1; split; auto. Qed.

Lemma find_lower_spec h key s ls :
  match find_lower h key s ls with
  | Some (Some l) =>
      ∃ before after, ls = before ++ l :: after ∧
        Forall (other_lower h key s) before ∧ same_lower h key s l
  | Some None => Forall (other_lower h key s) ls
  | None =>
      ∃ before l after, ls = before ++ l :: after ∧
        Forall (other_lower h key s) before ∧ ∀ x, get h l key ≠ VStr x
  end.
Proof.
  induction ls as [|u ls IH]; simpl; [constructor|].
  destruct (get h u key) as [| | | | |x|] eqn:Hu;
    try (exists [], u, ls; split; [done|]; split; [constructor|]; by rewrite Hu).
  destruct (String.eqb (toLowerCase x) (toLowerCase s)) eqn:Heq.
  - apply String.eqb_eq in Heq. exists [], ls. split; [done|]. split; [constructor|].
    by exists x.
  - apply String.eqb_neq in Heq.
    assert (other_lower h key s u) as Hother by (by exists x).
    destruct (find_lower h key s ls) as [[l|]|].
    + destruct IH as (before & after & -> & Hb & Hl).
      exists (u :: before), after. split; [done|]. split; [by constructor|done].
    + by constructor.
    + destruct IH as (before & l & after & -> & Hb & Hl).
      exists (u :: before), l, after. split; [done|]. split; [by constructor|done].
Qed.

(** X6: [getUserByUsername] and [getUserByEmail] leave the store
    unchanged and compare case-insensitively.  They return the first
    stored user, in insertion order, whose property equals the argument
    up to case; they return undefined when every stored user has a string
    there that differs up to case; and they throw exactly when, before
    any match, they meet a user whose property is not a string. *)
Theorem user_lookup_finds_first_match (key : string)
    (method : string → M (option (option loc))) (s : string) (w : world) :
  user_lookup key method →
  (method s w).2 = w ∧
  match (method s w).1 with
  | Some (Some l) =>
      ∃ before after, stored User w = before ++ l :: after ∧
        Forall (other_lower (mem w) key s) before ∧ same_lower (mem w) key s l
  | Some None => Forall (other_lower (mem w) key s) (stored User w)
  | None =>
      ∃ before l after, stored User w = before ++ l :: after ∧
        Forall (other_lower (mem w) key s) before ∧ ∀ x, get (mem w) l key ≠ VStr x
  end.
Proof.
  intros [_ Hm]%user_lookup_eq. rewrite Hm. split; [done|]. apply find_lower_spec.
Qed.

Lemma find_lower_ext h h' key s ls :
  (∀ l, l ∈ ls → get h' l key = get h l key) →
  find_lower h' key s ls = find_lower h key s ls.
Proof.
  induction ls as [|u ls IH]; simpl; [done|]. intros Hext.
  rewrite (Hext u) by apply list_elem_of_here.
  rewrite IH; [done|]. intros l Hl. apply Hext. by apply list_elem_of_further.
Qed.

Lemma find_lower_snoc h key s ls u :
  find_lower h key s (ls ++ [u]) =
  match find_lower h key s ls with
  | Some None => find_lower h key s [u]
  | r => r
  end.
Proof.
  induction ls as [|v ls IH]; simpl; [by destruct (get h u key)|].
  destruct (get h v key); try done.
  destruct (String.eqb _ _); [done|]. apply IH.
Qed.

Lemma createUser_eq insertUser clock w :
  createUser insertUser clock w =
  (S (length (mem w)),
   mkWorld
     (mem w ++ [HDate (Some clock);
                HObj (<["points" := VNum 0]>
                        (<["createdAt" := VRef (length (mem w))]>
                           (<["id" := VNum (currentUserId (this w))]> insertUser)))])
     (with_table User
        (map_set (users (this w)) (currentUserId (this w)) (S (length (mem w))))
        (with_current User (currentUserId (this w) + 1) (this w)))).
Proof.
  apply (gen_create_Some User clock (fun id now =>
           <["points" := VNum 0]>
             (<["createdAt" := VRef now]> (<["id" := VNum id]> insertUser)))).
Qed.

(** X7: after [createUser] with a string user name (e-mail
    address), a lookup by name (address) that found a user before still
    finds that same user, a lookup that threw still throws, and a lookup
    that found nobody finds the new user exactly when its argument equals
    the new name (address) up to case.  So the store accepts a second
    user with a name already taken, and lookups keep returning the
    first. *)
Theorem created_user_is_found (key : string)
    (method : string → M (option (option loc)))
    (insertUser : obj) (clock : Z) (w : world) (s : string) :
  user_lookup key method →
  reachable w →
  insertUser !! key = Some (VStr s) →
  ∀ q,
    (method q (createUser insertUser clock w).2).1 =
    match (method q w).1 with
    | Some None =>
        if String.eqb (toLowerCase s) (toLowerCase q)
        then Some (Some (createUser insertUser clock w).1)
        else Some None
    | r => r
    end.
Proof.
  intros [Hkey Hm]%user_lookup_eq Hw%reachable_wf Hs q. rewrite !Hm.
  rewrite createUser_eq. cbn [fst snd mem this]. unfold stored. cbn [this].
  autorewrite with store. rewrite decide_True by done.
  change (table User (this w)) with (users (this w)).
  rewrite map_set_fresh by apply (wf_current_fresh w User Hw).
  unfold map_values. rewrite map_app. simpl. rewrite find_lower_snoc.
  erewrite (find_lower_ext (mem w)).
  - destruct (find_lower (mem w) key q _) as [[l|]|]; try done. simpl.
    unfold get at 1, fields. rewrite lookup_new2. unfold prop.
    rewrite !lookup_insert_ne by (destruct Hkey as [-> | ->]; done).
    rewrite Hs. simpl. by destruct (String.eqb _ _).
  - intros l [k Hin]%elem_of_map_values.
    destruct (wf_row _ User _ _ Hw Hin) as [_ (o & Ho & _)]. simpl in Ho.
    unfold get. by erewrite fields_app_old.
Qed.
End Users.

Section UpdateUser.
Context `{Builtins}.

Lemma updateUser_eq id userData w :
  updateUser id userData w =
  match map_get (users (this w)) id with
  | Some l =>
      (Some (length (mem w)),
       mkWorld (mem w ++ [HObj (userData ∪ fields (mem w) l)])
         (with_table User (map_set (users (this w)) id (length (mem w))) (this w)))
  | None => (None, w)
  end.
Proof.
  unfold updateUser, bind, getUser, Map_get. simpl. by destruct (map_get _ _).
Qed.

(** X8: [updateUser] on an absent id returns undefined and changes
    nothing; on a stored user it stores a new object under the same key
    whose properties are those of [userData] where it has one, the
    id included, and those of the old user elsewhere; the keys of the map
    and the id counter are as before. *)
Theorem updateUser_merges (id : Z) (userData : obj) (w : world) :
  match (getUser id w).1 with
  | None => updateUser id userData w = (None, w)
  | Some l =>
      ∃ l', (updateUser id userData w).1 = Some l' ∧
            mem w !! l' = None ∧
            (getUser id (updateUser id userData w).2).1 = Some l' ∧
            (∀ k, fields (mem (updateUser id userData w).2) l' !! k =
                  match userData !! k with
                  | Some v => Some v
                  | None => fields (mem w) l !! k
                  end) ∧
            map_keys (users (this (updateUser id userData w).2)) =
              map_keys (users (this w)) ∧
            currentUserId (this (updateUser id userData w).2) = currentUserId (this w)
  end.
Proof.
  rewrite updateUser_eq. simpl. destruct (map_get (users (this w)) id) as [l|] eqn:Hl; [|done].
  exists (length (mem w)). cbn [fst snd mem this]. split_and!.
  - done.
  - by apply lookup_ge_None.
  - destruct (this w). simpl. apply map_get_set_eq.
  - intros k. rewrite fields_new, lookup_union.
    destruct (userData !! k), (fields (mem w) l !! k); done.
  - destruct (this w). simpl in *. apply map_set_keys, elem_of_map_keys.
    eauto using map_get_Some_elem.
  - by destruct (this w).
Qed.
End UpdateUser.

Section Updates.
Context `{Builtins}.

Lemma written_shape c key :
  written_property c = Some key →
  ∃ t id f, shape_of c = SUpdate t id f ∧ touches c = Some t ∧ updated_id c = Some id ∧
    ∀ h l k, k ≠ key → f h l !! k = fields h l !! k.
Proof.
  destruct c; simpl; intros [= <-]; do 3 eexists; (split; [reflexivity|]);
    (split; [reflexivity|]); (split; [reflexivity|]);
    intros h l k Hk; by rewrite lookup_insert_ne.
Qed.

(** X9: each of the five counter updates
    ([incrementPaperDownloads], [voteDiscussionPost], [voteDiscussionReply],
    [incrementResourceDownloads], [rateResource]) returns undefined and
    changes nothing on an absent id; on a stored entity it returns a
    freshly allocated object, stored under the same key, that differs
    from the old entity in one property at most (downloads, votes or
    rating), and the keys of the map are as before. *)
Theorem counter_update_writes_one_property (c : call) (key : string) (w : world) :
  written_property c = Some key →
  ∃ t id, touches c = Some t ∧ updated_id c = Some id ∧
    match stored_entity t id w with
    | None => exec c w = (Undefined, w)
    | Some o =>
        ∃ l' o', exec c w = (Entity l', (exec c w).2) ∧
          mem w !! l' = None ∧
          stored_entity t id (exec c w).2 = Some o' ∧
          mem (exec c w).2 !! l' = Some (HObj o') ∧
          (∀ k, k ≠ key → o' !! k = o !! k) ∧
          map_keys (table t (this (exec c w).2)) = map_keys (table t (this w))
    end.
Proof.
  intros (t & id & f & Hs & Ht & Hid & Hf)%written_shape. exists t, id.
  split; [done|]. split; [done|].
  pose proof (exec_by_shape c w) as He. rewrite Hs in He. unfold stored_entity.
  destruct (map_get (table t (this w)) id) as [l|] eqn:Hl; rewrite He; [|done]. simpl.
  exists (length (mem w)), (f (mem w) l). autorewrite with store.
  rewrite decide_True by done. rewrite map_get_set_eq. simpl. rewrite fields_new.
  split_and!.
  - done.
  - by apply lookup_ge_None.
  - done.
  - apply lookup_new.
  - intros k Hk. by apply Hf.
  - apply map_set_keys, elem_of_map_keys. eauto using map_get_Some_elem.
Qed.

Lemma stored_prop_after_update t id l (o : obj) key w :
  stored_prop t id key
    (mkWorld (mem w ++ [HObj o])
       (with_table t (map_set (table t (this w)) id l) (this w)))
  = (fun p => prop p key) <$> Some (fields (mem w ++ [HObj o]) l).
Proof.
  unfold stored_prop, stored_entity. cbn [mem this]. autorewrite with store.
  by rewrite decide_True, map_get_set_eq.
Qed.

Lemma stored_typed w t id l :
  reachable w → map_get (table t (this w)) id = Some l →
  mem w !! l = Some (HObj (fields (mem w) l)) ∧ well_typed t (mem w) (fields (mem w) l).
Proof.
  intros Hw Hl%map_get_Some_elem.
  destruct (reachable_well_typed _ Hw _ _ _ Hl) as (o & Ho & HP).
  unfold fields. by rewrite Ho.
Qed.



Lemma incrementResourceDownloads_eq id w :
  incrementResourceDownloads id w =
  match map_get (resources (this w)) id with
  | Some l =>
      (Some (length (mem w)),
       mkWorld
         (mem w ++ [HObj (<["downloads" := js_add (mem w) (get (mem w) l "downloads") (VNum 1)]>
                            (fields (mem w) l))])
         (with_table Resource (map_set (resources (this w)) id (length (mem w))) (this w)))
  | None => (None, w)
  end.
Proof.
  unfold incrementResourceDownloads, bind, getResource, Map_get. simpl.
  by destruct (map_get _ _).
Qed.

Lemma rateResource_eq id rating w :
  rateResource id rating w =
  match map_get (resources (this w)) id with
  | Some l =>
      (Some (length (mem w)),
       mkWorld (mem w ++ [HObj (<["rating" := VNum rating]> (fields (mem w) l))])
         (with_table Resource (map_set (resources (this w)) id (length (mem w))) (this w)))
  | None => (None, w)
  end.
Proof.
  unfold rateResource, bind, getResource, Map_get. simpl. by destruct (map_get _ _).
Qed.

(** X11: in a store built by the store's operations,
    [incrementResourceDownloads] adds one to the download counter of a
    stored resource and keeps its rating; [rateResource] replaces the
    rating by the one given (no average is taken) and keeps the download
    counter; on an absent id both return undefined and change nothing. *)
Theorem resource_downloads_and_rating (w : world) (id : Z) :
  reachable w →
  match stored_entity Resource id w with
  | None =>
      incrementResourceDownloads id w = (None, w) ∧
      ∀ rating, rateResource id rating w = (None, w)
  | Some o =>
      ∃ n r, o !! "downloads" = Some (VNum n) ∧ 0 ≤ n ∧ o !! "rating" = Some (VNum r) ∧
        stored_prop Resource id "downloads" (incrementResourceDownloads id w).2
          = Some (VNum (n + 1)) ∧
        stored_prop Resource id "rating" (incrementResourceDownloads id w).2
          = Some (VNum r) ∧
        ∀ rating,
          stored_prop Resource id "rating" (rateResource id rating w).2
            = Some (VNum rating) ∧
          stored_prop Resource id "downloads" (rateResource id rating w).2
            = Some (VNum n)
  end.
Proof.
  intros Hw. unfold stored_entity.
  destruct (map_get (table Resource (this w)) id) as [l|] eqn:Hl; simpl.
  - destruct (stored_typed _ _ _ _ Hw Hl) as [Hlive [(n & Hn & Hpos) [[r Hr] _]]].
    exists n, r. split_and!; try done.
    + rewrite incrementResourceDownloads_eq. simpl in Hl. rewrite Hl. cbn [snd].
      rewrite (stored_prop_after_update Resource). simpl. rewrite fields_new.
      unfold prop. rewrite lookup_insert_eq. simpl.
      by rewrite (get_lookup _ _ _ _ Hn).
    + rewrite incrementResourceDownloads_eq. simpl in Hl. rewrite Hl. cbn [snd].
      rewrite (stored_prop_after_update Resource). simpl. rewrite fields_new.
      unfold prop. rewrite lookup_insert_ne by done. by rewrite Hr.
    + intros rating. rewrite rateResource_eq. simpl in Hl. rewrite Hl. cbn [snd].
      rewrite !(stored_prop_after_update Resource). simpl. rewrite fields_new.
      unfold prop. rewrite lookup_insert_eq, lookup_insert_ne by done. by rewrite Hn.
  - simpl in Hl. rewrite incrementResourceDownloads_eq, Hl. split; [done|].
    intros rating. by rewrite rateResource_eq, Hl.
Qed.
End Updates.

Section FilteredLists.
Context `{Builtins}.

Lemma field_list_eq t key method :
  field_list t key method →
  ∀ q w, method q w =
    (List.filter (fun x => strict_eq (get (mem w) x key) (VNum q)) (stored t w), w).
Proof. by destruct 1. Qed.

Lemma stored_get_app w t l h' key :
  wf w → l ∈ stored t w → get (mem w ++ h') l key = get (mem w) l key.
Proof.
  intros Hw [k Hin]%elem_of_map_values.
  destruct (wf_row _ _ _ _ Hw Hin) as [_ (o & Ho & _)]. simpl in Ho.
  unfold get. by erewrite fields_app_old.
Qed.

Lemma create_stored c t w :
  wf w → creates c = Some t →
  ∃ new h', (exec c w).1 = Entity new ∧
    mem (exec c w).2 = mem w ++ h' ∧
    stored t (exec c w).2 = stored t w ++ [new] ∧
    table t (this (exec c w).2) = table t (this w) ++ [(current t (this w), new)] ∧
    get (mem w ++ h') new "id" = VNum (current t (this w)).
Proof.
  intros Hw Hc. destruct (exec_create c t w Hc) as (o & -> & Hl & Hid & _).
  do 2 eexists. cbn [fst snd mem this]. split; [done|]. split; [done|].
  unfold stored. cbn [this]. autorewrite with store. rewrite decide_True by done.
  rewrite map_set_fresh by by apply wf_current_fresh.
  unfold map_values. rewrite map_app. split; [done|]. split; [done|].
  apply get_lookup. unfold fields. by rewrite Hl.
Qed.

(** X12: for [getDiscussionReplies], [getStudyGroupMembers] and
    [getStudySessions]: after a create of the listed type, the list for
    any number [q] is the list as it was before, followed by the new
    entity exactly when its [postId] (or [groupId]) is strictly equal to
    [q]; nothing checks that a post or group with that id exists. *)
Theorem create_appends_to_its_list (t : etype) (key : string) (method : Z → M (list loc))
    (c : call) (w : world) :
  field_list t key method →
  reachable w →
  creates c = Some t →
  ∃ new, (exec c w).1 = Entity new ∧
    ∀ q, (method q (exec c w).2).1 =
         (method q w).1 ++
         (if strict_eq (get (mem (exec c w).2) new key) (VNum q) then [new] else []).
Proof.
  intros Hfl Hw%reachable_wf Hc. pose proof (field_list_eq _ _ _ Hfl) as Hm.
  destruct (create_stored c t w Hw Hc) as (new & h' & Hnew & Hmem & Hst & _).
  exists new. split; [done|]. intros q. rewrite !Hm. cbn [fst].
  rewrite Hst, Hmem, List.filter_app. f_equal.
  apply filter_ext_in. intros l Hl%list_elem_of_In. by erewrite stored_get_app.
Qed.
End FilteredLists.

Section AddRemove.
Context `{Builtins}.

Lemma find_snoc_none {A} (p : A → bool) (l : list A) (x : A) :
  (∀ y, y ∈ l → p y = false) → List.find p (l ++ [x]) = if p x then Some x else None.
Proof.
  induction l as [|y l IH]; simpl; intros Hall; [done|].
  rewrite (Hall y) by apply list_elem_of_here. apply IH.
  intros z Hz. apply Hall. by apply list_elem_of_further.
Qed.

Lemma addStudyGroupMember_eq member clock w :
  addStudyGroupMember member clock w =
  (S (length (mem w)),
   mkWorld
     (mem w ++ [HDate (Some clock);
                HObj (<["joinedAt" := VRef (length (mem w))]>
                        (<["id" := VNum (currentStudyGroupMemberId (this w))]> member))])
     (with_table StudyGroupMember
        (map_set (studyGroupMembers (this w)) (currentStudyGroupMemberId (this w))
           (S (length (mem w))))
        (with_current StudyGroupMember (currentStudyGroupMemberId (this w) + 1) (this w)))).
Proof.
  apply (gen_create_Some StudyGroupMember clock (fun id now =>
           <["joinedAt" := VRef now]> (<["id" := VNum id]> member))).
Qed.

(** X13: when no membership row has the pair (group, user),
    [addStudyGroupMember] for that pair followed by
    [removeStudyGroupMember] of it returns [true] and leaves the
    membership map exactly as it was before the two calls; the id counter
    has moved on by one, so the id of the removed row is not issued
    again. *)
Theorem add_then_remove_member_restores (member : obj) (clock : Z) (w : world)
    (groupId userId : Z) :
  reachable w →
  member !! "groupId" = Some (VNum groupId) →
  member !! "userId" = Some (VNum userId) →
  (∀ m, m ∈ stored StudyGroupMember w → is_membership (mem w) groupId userId m = false) →
  (removeStudyGroupMember groupId userId (addStudyGroupMember member clock w).2).1 = true ∧
  studyGroupMembers
    (this (removeStudyGroupMember groupId userId (addStudyGroupMember member clock w).2).2)
  = studyGroupMembers (this w) ∧
  currentStudyGroupMemberId
    (this (removeStudyGroupMember groupId userId (addStudyGroupMember member clock w).2).2)
  = currentStudyGroupMemberId (this w) + 1.
Proof.
  intros Hw%reachable_wf Hg Hu Hnone.
  rewrite addStudyGroupMember_eq. cbn [snd]. rewrite removeStudyGroupMember_eq.
  unfold stored. cbn [mem this]. autorewrite with store. rewrite decide_True by done.
  change (table StudyGroupMember (this w)) with (studyGroupMembers (this w)).
  pose proof (wf_current_fresh w StudyGroupMember Hw) as Hfresh. simpl in Hfresh.
  rewrite map_set_fresh by done.
  unfold map_values. rewrite map_app. simpl. rewrite find_snoc_none.
  - set (o := <["joinedAt" := VRef (length (mem w))]>
                (<["id" := VNum (currentStudyGroupMemberId (this w))]> member)).
    assert (∀ k v, o !! k = Some v →
              get (mem w ++ [HDate (Some clock); HObj o]) (S (length (mem w))) k = v) as Hget.
    { intros k v Hk. apply get_lookup. unfold fields. by rewrite lookup_new2. }
    unfold is_membership.
    rewrite (Hget "groupId" (VNum groupId)), (Hget "userId" (VNum userId))
      by (subst o; by simplify_map_eq).
    simpl. rewrite !Z.eqb_refl. simpl.
    rewrite (Hget "id" (VNum (currentStudyGroupMemberId (this w))))
      by (subst o; by simplify_map_eq).
    destruct (map_delete_split (studyGroupMembers (this w)) []
                (currentStudyGroupMemberId (this w)) (S (length (mem w))) Hfresh)
      as [Hdel Hget'].
    change (studyGroupMembers (with_table ?a ?b ?c))
      with (table StudyGroupMember (with_table a b c)).
    autorewrite with store. rewrite !decide_True by done.
    unfold map_has. rewrite Hdel, Hget', app_nil_r. cbn [fst snd this].
    split; [by rewrite bool_decide_eq_true_2|].
    change (studyGroupMembers ?s) with (table StudyGroupMember s).
    change (currentStudyGroupMemberId ?s) with (current StudyGroupMember s).
    autorewrite with store. by rewrite !decide_True.
  - intros m Hm. rewrite <- (Hnone m Hm). unfold is_membership.
    by rewrite !(stored_get_app w StudyGroupMember).
Qed.
End AddRemove.

Section Feeds.
Context `{Builtins}.

Lemma sort_insert_ext {A} (gt gt' : A → A → bool) x l :
  (∀ a b, gt a b = gt' a b) → sort_insert gt x l = sort_insert gt' x l.
Proof.
  intros Hext. induction l as [|y l IH]; simpl; [done|]. by rewrite Hext, IH.
Qed.

Lemma js_sort_ext {A} (gt gt' : A → A → bool) l :
  (∀ a b, gt a b = gt' a b) → js_sort gt l = js_sort gt' l.
Proof.
  intros Hext. induction l as [|x l IH]; simpl; [done|].
  rewrite IH. by apply sort_insert_ext.
Qed.

Lemma StronglySorted_weaken {A} (R R' : A → A → Prop) l :
  (∀ a b, R a b → R' a b) → StronglySorted R l → StronglySorted R' l.
Proof.
  intros Himpl. induction 1 as [|x l Hs IH Hall]; constructor; [done|].
  eapply Forall_impl; eauto.
Qed.

Lemma feed_eq userId limit w :
  feed userId limit w =
  (limited limit
     (js_sort (earlier_created (mem w))
        match userId with
        | Some u =>
            List.filter
              (fun activity => strict_eq (get (mem w) activity "userId") (VNum u))
              (stored Activity w)
        | None => stored Activity w
        end), w).
Proof. by destruct userId. Qed.

Lemma reachable_created_time w a :
  reachable w → a ∈ stored Activity w → ∃ t, created_time w a = Some t.
Proof.
  intros Hw [k Hin]%elem_of_map_values.
  destruct (reachable_well_typed _ Hw _ _ _ Hin) as (o & Ho & d & time & Hd & Hdate).
  exists time. unfold created_time.
  rewrite (get_lookup _ _ _ (VRef d)) by (unfold fields; by rewrite Ho).
  simpl. by rewrite Hdate.
Qed.

(** X14: [getUserActivities] and [getRecentActivities] leave the
    store unchanged; without a limit they return, without repetition,
    exactly the stored activities (of the given user), newest first.  A
    limit of 0 is no limit, a positive limit [n] keeps the first [n], and
    a negative limit [n] drops the last [-n]. *)
Theorem activity_feed_newest_first (w : world) (userId : option Z) :
  reachable w →
  (∀ limit, (feed userId limit w).2 = w) ∧
  (∀ a, a ∈ (feed userId None w).1 ↔ in_feed w userId a) ∧
  NoDup (feed userId None w).1 ∧
  StronglySorted (created_no_earlier w) (feed userId None w).1 ∧
  (feed userId (Some 0) w).1 = (feed userId None w).1 ∧
  (∀ n, 0 < n →
     (feed userId (Some n) w).1 = take (Z.to_nat n) (feed userId None w).1) ∧
  (∀ n, n < 0 →
     (feed userId (Some n) w).1 =
     take (length (feed userId None w).1 - Z.to_nat (- n)) (feed userId None w).1).
Proof.
  intros Hw. setoid_rewrite feed_eq. cbn [fst snd limited].
  set (source := match userId with
                 | Some u => List.filter _ (stored Activity w)
                 | None => stored Activity w
                 end).
  assert (∀ a, a ∈ source ↔ in_feed w userId a) as Hsource.
  { intros a. unfold in_feed. subst source.
    destruct userId; [by rewrite elem_of_filter|tauto]. }
  assert (NoDup source) as Hnd.
  { pose proof (stored_ids_NoDup w Activity (reachable_wf _ Hw) ltac:(done)) as Hids.
    change (map ?f ?l) with (f <$> l) in Hids. apply NoDup_fmap_1 in Hids.
    subst source. destruct userId; [|done].
    eapply sublist_NoDup; [exact Hids|apply filter_sublist]. }
  split_and!.
  - done.
  - intros a. by rewrite js_sort_perm.
  - by rewrite js_sort_perm.
  - rewrite (js_sort_ext _ (time_gt (fun a => Z.opp <$> created_time w a))).
    + eapply StronglySorted_weaken; [|apply js_sort_sorted].
      * intros a b (x & y & Ha & Hb & Hle). unfold created_no_earlier.
        destruct (created_time w a) as [ta|], (created_time w b) as [tb|];
          simpl in *; try done.
        exists ta, tb. repeat split; [done..|].
        injection Ha as <-. injection Hb as <-. lia.
      * apply Forall_forall. intros a [Ha _]%Hsource.
        destruct (reachable_created_time w a Hw Ha) as [t Ht].
        exists (- t). by rewrite Ht.
    + intros a b. unfold earlier_created, time_gt, created_time.
      destruct (Date_getTime _ (get _ a _)) as [ta|], (Date_getTime _ (get _ b _)) as [tb|];
        simpl; try done.
      destruct (0 <? tb - ta) eqn:E; symmetry;
        [apply Z.ltb_lt in E; apply Z.ltb_lt; lia|].
      apply Z.ltb_ge in E. apply Z.ltb_ge. lia.
  - done.
  - intros n Hn. unfold slice0.
    destruct (n =? 0) eqn:E1; [lia|]. destruct (n <? 0) eqn:E2; [lia|]. done.
  - intros n Hn. unfold slice0.
    destruct (n =? 0) eqn:E1; [lia|]. destruct (n <? 0) eqn:E2; [|lia].
    f_equal. lia.
Qed.
End Feeds.

Section Reach.
Context `{Builtins}.

Lemma play_snoc acts a w : play (acts ++ [a]) w = step a (play acts w).
Proof. unfold play. by rewrite foldl_app. Qed.

Lemma reachable_step a w : reachable w → reachable (step a w).
Proof. intros (h & acts & ->). exists h, (acts ++ [a]). by rewrite play_snoc. Qed.

Lemma createStudyGroup_eq group clock w :
  createStudyGroup group clock w =
  (S (length (mem w)),
   mkWorld
     (mem w ++ [HDate (Some clock);
                HObj (<["createdAt" := VRef (length (mem w))]>
                        (<["id" := VNum (currentStudyGroupId (this w))]> group))])
     (with_table StudyGroup
        (map_set (studyGroups (this w)) (currentStudyGroupId (this w)) (S (length (mem w))))
        (with_current StudyGroup (currentStudyGroupId (this w) + 1) (this w)))).
Proof.
  apply (gen_create_Some StudyGroup clock (fun id now =>
           <["createdAt" := VRef now]> (<["id" := VNum id]> group))).
Qed.

Lemma createActivity_eq activity clock w :
  createActivity activity clock w =
  (S (length (mem w)),
   mkWorld
     (mem w ++ [HDate (Some clock);
                HObj (<["createdAt" := VRef (length (mem w))]>
                        (<["id" := VNum (currentActivityId (this w))]> activity))])
     (with_table Activity
        (map_set (activities (this w)) (currentActivityId (this w)) (S (length (mem w))))
        (with_current Activity (currentActivityId (this w) + 1) (this w)))).
Proof.
  apply (gen_create_Some Activity clock (fun id now =>
           <["createdAt" := VRef now]> (<["id" := VNum id]> activity))).
Qed.

(** The methods as steps of a history. *)
Lemma createStudyGroup_step group clock w :
  (createStudyGroup group clock w).2 = step (Call (CreateStudyGroup group clock)) w.
Proof.
  change (step _ w) with (fmap_M Entity (createStudyGroup group clock) w).2.
  by rewrite fmap_M_eq.
Qed.

Lemma addStudyGroupMember_step member clock w :
  (addStudyGroupMember member clock w).2 = step (Call (AddStudyGroupMember member clock)) w.
Proof.
  change (step _ w) with (fmap_M Entity (addStudyGroupMember member clock) w).2.
  by rewrite fmap_M_eq.
Qed.

Lemma createActivity_step activity clock w :
  (createActivity activity clock w).2 = step (Call (CreateActivity activity clock)) w.
Proof.
  change (step _ w) with (fmap_M Entity (createActivity activity clock) w).2.
  by rewrite fmap_M_eq.
Qed.

Lemma new_object_step o w : (new_object o w).2 = step (New (HObj o)) w.
Proof. done. Qed.

Lemma removeStudyGroupMember_step groupId userId w :
  (removeStudyGroupMember groupId userId w).2
  = step (Call (RemoveStudyGroupMember groupId userId)) w.
Proof.
  change (step _ w) with (fmap_M Boolean (removeStudyGroupMember groupId userId) w).2.
  by rewrite fmap_M_eq.
Qed.
End Reach.

Section CreateEffect.
Context `{Builtins}.

Lemma shape_create_input c t stamp build :
  shape_of c = SCreate t stamp build →
  ∀ id now k,
    match List.find (fun p => String.eqb p.1 k) (store_assigned t) with
    | None => build id now !! k = input_of c !! k
    | Some (_, Some v) => build id now !! k = Some v
    | Some (_, None) =>
        build id now !! k = Some (if String.eqb k "id" then VNum id else VRef now)
    end.
Proof.
  destruct c; cbn [shape_of]; intros [= <- <- <-] i now k;
    cbn [store_assigned List.find fst input_of];
    repeat match goal with
      | |- context [String.eqb ?a k] =>
          destruct (String.eqb_spec a k); [subst k; simpl; by simplify_map_eq|]
      end;
    by simplify_map_eq.
Qed.

Lemma get_prefix (h h' : heap) l o k :
  h `prefix_of` h' → h !! l = Some (HObj o) → get h' l k = get h l k.
Proof. intros [h2 ->] Hl. unfold get. by erewrite fields_app_old. Qed.

Lemma get_live h l k n : get h l k = VNum n → ∃ o, h !! l = Some (HObj o).
Proof.
  unfold get, fields, prop.
  destruct (h !! l) as [[o|]|]; eauto; by rewrite lookup_empty.
Qed.

Lemma create_effect c t w :
  wf w → creates c = Some t →
  ∃ new o h',
    (exec c w).1 = Entity new ∧
    mem (exec c w).2 = mem w ++ h' ∧
    (mem w ++ h') !! new = Some (HObj o) ∧ mem w !! new = None ∧
    (∀ k, match List.find (fun p => String.eqb p.1 k) (store_assigned t) with
          | None => o !! k = input_of c !! k
          | Some (_, Some v) => o !! k = Some v
          | Some (_, None) =>
              if String.eqb k "id" then o !! k = Some (VNum (current t (this w)))
              else ∃ d time, o !! k = Some (VRef d) ∧ mem w !! d = None ∧
                     (mem w ++ h') !! d = Some (HDate (Some time)) ∧
                     clock_of c = Some time
          end) ∧
    table t (this (exec c w).2) = table t (this w) ++ [(current t (this w), new)] ∧
    (∀ t', t' ≠ t → table t' (this (exec c w).2) = table t' (this w)) ∧
    (∀ t', current t' (this (exec c w).2) =
           if decide (t' = t) then current t (this w) + 1 else current t' (this w)).
Proof.
  intros Hw Hc. destruct (creates_shape _ _ Hc) as (build & Hs & _).
  pose proof (exec_by_shape c w) as He. rewrite Hs in He.
  pose proof (shape_create_input _ _ _ _ Hs) as Hin.
  exists (new_loc (clock_of c) (mem w)),
    (build (current t (this w)) (new_now (clock_of c) (mem w))),
    (new_cells (clock_of c) (build (current t (this w)) (new_now (clock_of c) (mem w)))).
  rewrite He. cbn [fst snd mem this]. split_and!; try done.
  - apply new_loc_lookup.
  - apply lookup_ge_None. destruct (clock_of c); simpl; lia.
  - intros k. specialize (Hin (current t (this w)) (new_now (clock_of c) (mem w)) k).
    destruct (List.find _ _) as [[k' [v|]]|] eqn:Hf; try done.
    destruct (String.eqb_spec k "id") as [->|Hk]; [done|].
    destruct (clock_of c) as [clock|] eqn:Hclock.
    + exists (length (mem w)), clock. split_and!; try done.
      * by apply lookup_ge_None.
      * simpl. by rewrite lookup_app_r, Nat.sub_diag.
    + exfalso. clear -Hc Hclock Hf Hk.
      destruct c; cbn [creates clock_of] in *; try discriminate; injection Hc as <-;
        cbn [store_assigned List.find fst] in Hf;
        repeat match goal with
          | H : context [String.eqb ?a k] |- _ =>
              destruct (String.eqb_spec a k); simplify_eq
          end.
  - autorewrite with store. rewrite decide_True by done.
    by rewrite map_set_fresh by by apply wf_current_fresh.
  - intros t' Ht'. autorewrite with store. by rewrite decide_False.
  - intros t'. autorewrite with store. by case_decide; subst.
Qed.
End CreateEffect.

Section GroupRoutes.
Context `{Builtins} `{Schemas}.

Lemma bind_eq {A B} (m : M A) (f : A → M B) w : bind m f w = f (m w).1 (m w).2.
Proof. unfold bind. by destruct (m w). Qed.

Lemma exec_createStudyGroup group clock w :
  exec (CreateStudyGroup group clock) w =
  (Entity (createStudyGroup group clock w).1, (createStudyGroup group clock w).2).
Proof. apply fmap_M_eq. Qed.

Lemma exec_addStudyGroupMember member clock w :
  exec (AddStudyGroupMember member clock) w =
  (Entity (addStudyGroupMember member clock w).1, (addStudyGroupMember member clock w).2).
Proof. apply fmap_M_eq. Qed.

Lemma exec_createActivity activity clock w :
  exec (CreateActivity activity clock) w =
  (Entity (createActivity activity clock w).1, (createActivity activity clock w).2).
Proof. apply fmap_M_eq. Qed.

Lemma Entity_inj a b : Entity a = Entity b → a = b.
Proof. by intros [=]. Qed.

Lemma stored_app t w w' rows :
  table t (this w') = table t (this w) ++ rows → stored t w' = stored t w ++ map snd rows.
Proof. unfold stored, map_values. intros ->. by rewrite map_app. Qed.

Lemma stored_same t w w' :
  table t (this w') = table t (this w) → stored t w' = stored t w.
Proof. unfold stored. by intros ->. Qed.

Lemma stored_live w t l : wf w → l ∈ stored t w → ∃ o, mem w !! l = Some (HObj o).
Proof.
  intros Hw [k Hin]%elem_of_map_values.
  destruct (wf_row _ _ _ _ Hw Hin) as [_ (o & Ho & _)]. eauto.
Qed.

Lemma filter_field_ext (h h' : heap) key (v : val) (ls : list loc) :
  (∀ l, l ∈ ls → get h' l key = get h l key) →
  List.filter (fun x => strict_eq (get h' x key) v) ls
  = List.filter (fun x => strict_eq (get h x key) v) ls.
Proof.
  intros Hext. apply filter_ext_in. intros l Hl%list_elem_of_In. by rewrite Hext.
Qed.
End GroupRoutes.

Section PostGroups.
Context `{Builtins} `{Schemas}.

(** X16: the handler of [POST /api/groups], for a logged-in user
    with a numeric id and a body that the schema accepts, answers 201
    with a new group that takes the next group id, appends to the members
    of that group one row with the user's id and [isAdmin] true (after any
    rows that already carried that group id), makes the group one of the
    user's groups, and appends one activity of type [group_created] that
    names the user and the group. *)
Theorem post_groups_makes_creator_admin (w : world) (body groupData : obj)
    (clock1 clock2 clock3 : Z) (user : loc) (u : Z) :
  reachable w →
  get (mem w) user "id" = VNum u →
  insertStudyGroupSchema (<["creatorId" := VNum u]> body) = Some groupData →
  ∃ newGroup row activity,
    (post_groups body clock1 clock2 clock3 user w).1 = SendJson 201 newGroup ∧
    reachable (post_groups body clock1 clock2 clock3 user w).2 ∧
    stored StudyGroup (post_groups body clock1 clock2 clock3 user w).2
      = stored StudyGroup w ++ [newGroup] ∧
    get (mem (post_groups body clock1 clock2 clock3 user w).2) newGroup "id"
      = VNum (currentStudyGroupId (this w)) ∧
    (getStudyGroupMembers (currentStudyGroupId (this w))
       (post_groups body clock1 clock2 clock3 user w).2).1
      = (getStudyGroupMembers (currentStudyGroupId (this w)) w).1 ++ [row] ∧
    get (mem (post_groups body clock1 clock2 clock3 user w).2) row "userId" = VNum u ∧
    get (mem (post_groups body clock1 clock2 clock3 user w).2) row "isAdmin" = VBool true ∧
    newGroup ∈ (getUserStudyGroups u (post_groups body clock1 clock2 clock3 user w).2).1 ∧
    stored Activity (post_groups body clock1 clock2 clock3 user w).2
      = stored Activity w ++ [activity] ∧
    get (mem (post_groups body clock1 clock2 clock3 user w).2) activity "type"
      = VStr "group_created" ∧
    get (mem (post_groups body clock1 clock2 clock3 user w).2) activity "targetId"
      = VNum (currentStudyGroupId (this w)) ∧
    get (mem (post_groups body clock1 clock2 clock3 user w).2) activity "userId" = VNum u.
Proof.
  intros Hr Hu Hparse. pose proof (reachable_wf _ Hr) as Hw.
  destruct (get_live _ _ _ _ Hu) as [ou Hlive].
  unfold post_groups. rewrite bind_eq. cbn [the_heap fst snd]. rewrite Hu, Hparse.
  rewrite bind_eq.
  (* the group *)
  destruct (create_effect (CreateStudyGroup groupData clock1) StudyGroup w Hw eq_refl)
    as (g & og & h1 & Hg & Hm1 & Hgl & _ & Hgo & Hgt & Hgf & _).
  rewrite exec_createStudyGroup in Hg, Hm1, Hgt, Hgf. cbn [fst snd] in Hg, Hm1, Hgt, Hgf.
  apply Entity_inj in Hg.
  assert (reachable (createStudyGroup groupData clock1 w).2) as Hr1
    by (rewrite createStudyGroup_step; by apply reachable_step).
  set (w1 := (createStudyGroup groupData clock1 w).2) in *.
  rewrite Hg. pose proof (reachable_wf _ Hr1) as Hw1.
  assert (get (mem w1) g "id" = VNum (currentStudyGroupId (this w))) as Hgid.
  { apply get_lookup. unfold fields. rewrite Hm1, Hgl. apply (Hgo "id"). }
  assert (get (mem w1) user "id" = VNum u) as Hu1.
  { rewrite <- Hu, Hm1. eapply get_prefix; [by eexists|done]. }
  rewrite bind_eq. cbn [the_heap fst snd]. rewrite Hu1, Hgid. rewrite bind_eq.
  (* the membership row *)
  set (member := <["isAdmin" := VBool true]>
                   (<["userId" := VNum u]>
                      {[ "groupId" := VNum (currentStudyGroupId (this w)) ]}) : obj).
  destruct (create_effect (AddStudyGroupMember member clock2) StudyGroupMember w1 Hw1 eq_refl)
    as (r & or & h2 & Hrow & Hm2 & Hrl & _ & Hro & Hrt & Hrf & _).
  rewrite exec_addStudyGroupMember in Hrow, Hm2, Hrt, Hrf.
  cbn [fst snd] in Hrow, Hm2, Hrt, Hrf. apply Entity_inj in Hrow.
  assert (reachable (addStudyGroupMember member clock2 w1).2) as Hr2
    by (rewrite addStudyGroupMember_step; by apply reachable_step).
  set (w2 := (addStudyGroupMember member clock2 w1).2) in *.
  pose proof (reachable_wf _ Hr2) as Hw2.
  assert (mem w1 !! g = Some (HObj og)) as Hgl1 by (by rewrite Hm1).
  assert (get (mem w2) g "id" = VNum (currentStudyGroupId (this w))) as Hgid2.
  { rewrite <- Hgid, Hm2. eapply get_prefix; [by eexists|done]. }
  assert (get (mem w2) user "id" = VNum u) as Hu2.
  { rewrite <- Hu1, Hm2, Hm1. eapply get_prefix; [by eexists|].
    by apply lookup_app_l_Some. }
  rewrite bind_eq. cbn [the_heap fst snd]. rewrite Hgid2, Hu2. rewrite bind_eq.
  (* the metadata object *)
  set (meta := {[ "name" := get (mem w2) g "name" ]} : obj).
  assert (reachable (new_object meta w2).2) as Hr3
    by (rewrite new_object_step; by apply reachable_step).
  assert (mem (new_object meta w2).2 = mem w2 ++ [HObj meta]) as Hm3 by done.
  assert (this (new_object meta w2).2 = this w2) as Ht3 by done.
  assert ((new_object meta w2).1 = length (mem w2)) as Hmeta by done.
  set (w3 := (new_object meta w2).2) in *. rewrite Hmeta.
  pose proof (reachable_wf _ Hr3) as Hw3.
  rewrite bind_eq.
  (* the activity *)
  set (act := <["metadata" := VRef (length (mem w2))]>
                (<["targetType" := VStr "study_group"]>
                   (<["targetId" := VNum (currentStudyGroupId (this w))]>
                      (<["type" := VStr "group_created"]> {[ "userId" := VNum u ]})))
           : obj).
  destruct (create_effect (CreateActivity act clock3) Activity w3 Hw3 eq_refl)
    as (a & oa & h4 & Hact & Hm4 & Hal & _ & Hao & Hat & Haf & _).
  rewrite exec_createActivity in Hact, Hm4, Hat, Haf.
  cbn [fst snd] in Hact, Hm4, Hat, Haf. apply Entity_inj in Hact.
  assert (reachable (createActivity act clock3 w3).2) as Hr4
    by (rewrite createActivity_step; by apply reachable_step).
  set (w4 := (createActivity act clock3 w3).2) in *.
  cbn [ret fst snd].
  (* the heaps grow *)
  assert (mem w `prefix_of` mem w4) as Hp0.
  { rewrite Hm4, Hm3, Hm2, Hm1. rewrite <- !app_assoc. by eexists. }
  assert (mem w1 `prefix_of` mem w4) as Hp1.
  { rewrite Hm4, Hm3, Hm2. rewrite <- !app_assoc. by eexists. }
  assert (mem w2 `prefix_of` mem w4) as Hp2.
  { rewrite Hm4, Hm3. rewrite <- !app_assoc. by eexists. }
  assert (mem w2 !! r = Some (HObj or)) as Hrl2 by (by rewrite Hm2).
  assert (mem w4 !! a = Some (HObj oa)) as Hal4 by (by rewrite Hm4).
  assert (∀ k v, or !! k = Some v → get (mem w4) r k = v) as Hrget.
  { intros k v Hk. rewrite (get_prefix _ _ _ _ _ Hp2 Hrl2).
    apply get_lookup. unfold fields. by rewrite Hrl2. }
  assert (∀ k v, oa !! k = Some v → get (mem w4) a k = v) as Haget.
  { intros k v Hk. apply get_lookup. unfold fields. by rewrite Hal4. }
  assert (or !! "groupId" = Some (VNum (currentStudyGroupId (this w))) ∧
          or !! "userId" = Some (VNum u) ∧ or !! "isAdmin" = Some (VBool true))
    as (Hrg & Hru & Hra).
  { split_and!; [rewrite (Hro "groupId")|rewrite (Hro "userId")|rewrite (Hro "isAdmin")];
      subst member; by simplify_map_eq. }
  assert (stored StudyGroupMember w4 = stored StudyGroupMember w ++ [r]) as Hsm.
  { rewrite (stored_same _ w3 w4) by by apply Haf.
    unfold stored at 1. rewrite Ht3. fold (stored StudyGroupMember w2).
    rewrite (stored_app _ w1 w2 _ Hrt). simpl.
    by rewrite (stored_same _ w w1) by by apply Hgf. }
  assert (stored StudyGroup w4 = stored StudyGroup w ++ [g]) as Hsg.
  { rewrite (stored_same _ w3 w4) by by apply Haf.
    unfold stored at 1. rewrite Ht3. fold (stored StudyGroup w2).
    rewrite (stored_same _ w1 w2) by by apply Hrf.
    by rewrite (stored_app _ w w1 _ Hgt). }
  assert (get (mem w4) g "id" = VNum (currentStudyGroupId (this w))) as Hgid4.
  { by rewrite (get_prefix _ _ _ _ _ Hp1 Hgl1). }
  exists g, r, a. split_and!.
  - done.
  - done.
  - done.
  - done.
  - cbn [getStudyGroupMembers bind Map_values the_heap ret fst snd].
    fold (stored StudyGroupMember w4). fold (stored StudyGroupMember w).
    rewrite Hsm, List.filter_app. f_equal.
    + apply filter_field_ext. intros l Hl.
      destruct (stored_live _ _ _ Hw Hl) as [o Ho]. by eapply get_prefix.
    + cbn [List.filter]. rewrite (Hrget _ _ Hrg). cbn [strict_eq].
      by rewrite Z.eqb_refl.
  - by apply Hrget.
  - by apply Hrget.
  - rewrite getUserStudyGroups_eq. cbn [fst]. apply elem_of_filter. split.
    + rewrite Hsg. apply elem_of_app. right. apply list_elem_of_here.
    + apply includes_memberGroups. exists r. split_and!.
      * rewrite Hsm. apply elem_of_app. right. apply list_elem_of_here.
      * rewrite (Hrget _ _ Hru). simpl. apply Z.eqb_refl.
      * rewrite (Hrget _ _ Hrg), Hgid4. simpl. apply Z.eqb_refl.
  - rewrite (stored_app _ w3 w4 _ Hat). simpl. f_equal.
    unfold stored. rewrite Ht3. fold (stored Activity w2).
    rewrite (stored_same _ w1 w2) by by apply Hrf.
    by rewrite (stored_same _ w w1) by by apply Hgf.
  - apply Haget. rewrite (Hao "type"). subst act. by simplify_map_eq.
  - apply Haget. rewrite (Hao "targetId"). subst act. by simplify_map_eq.
  - apply Haget. rewrite (Hao "userId"). subst act. by simplify_map_eq.
Qed.
End PostGroups.

Section JoinGroup.
Context `{Builtins} `{Schemas}.

(** X17: the handler of [POST /api/groups/:id/members], for an
    existing group and a body that the schema accepts, answers 201 and
    appends one membership row whose properties other than [id] and
    [joinedAt] are the validated data, and one activity of type
    [group_joined]; it does so whether or not the user already has a row
    in the group. *)
Theorem join_group_appends_a_row (w : world) (groupId : Z) (body memberData : obj)
    (clock1 clock2 : Z) (user group : loc) :
  reachable w →
  (getStudyGroup groupId w).1 = Some group →
  insertStudyGroupMemberSchema (<["groupId" := VNum groupId]> body) = Some memberData →
  ∃ row activity,
    (post_group_members groupId body clock1 clock2 user w).1 = SendJson 201 row ∧
    reachable (post_group_members groupId body clock1 clock2 user w).2 ∧
    stored StudyGroupMember (post_group_members groupId body clock1 clock2 user w).2
      = stored StudyGroupMember w ++ [row] ∧
    (∀ k, k ≠ "id" → k ≠ "joinedAt" →
       get (mem (post_group_members groupId body clock1 clock2 user w).2) row k
       = prop memberData k) ∧
    stored Activity (post_group_members groupId body clock1 clock2 user w).2
      = stored Activity w ++ [activity] ∧
    get (mem (post_group_members groupId body clock1 clock2 user w).2) activity "type"
      = VStr "group_joined" ∧
    get (mem (post_group_members groupId body clock1 clock2 user w).2) activity "targetId"
      = VNum groupId ∧
    get (mem (post_group_members groupId body clock1 clock2 user w).2) activity "userId"
      = prop memberData "userId".
Proof.
  intros Hr Hgroup Hparse. pose proof (reachable_wf _ Hr) as Hw.
  unfold post_group_members. rewrite bind_eq.
  assert ((getStudyGroup groupId w).2 = w) as -> by done.
  rewrite Hgroup, Hparse. rewrite bind_eq.
  (* the membership row *)
  destruct (create_effect (AddStudyGroupMember memberData clock1) StudyGroupMember w Hw eq_refl)
    as (r & or & h1 & Hrow & Hm1 & Hrl & _ & Hro & Hrt & Hrf & _).
  rewrite exec_addStudyGroupMember in Hrow, Hm1, Hrt, Hrf.
  cbn [fst snd] in Hrow, Hm1, Hrt, Hrf. apply Entity_inj in Hrow.
  assert (reachable (addStudyGroupMember memberData clock1 w).2) as Hr1
    by (rewrite addStudyGroupMember_step; by apply reachable_step).
  set (w1 := (addStudyGroupMember memberData clock1 w).2) in *.
  rewrite Hrow. rewrite bind_eq. cbn [the_heap fst snd]. rewrite bind_eq.
  (* the metadata object *)
  set (meta := {[ "name" := get (mem w1) group "name" ]} : obj).
  assert (reachable (new_object meta w1).2) as Hr2
    by (rewrite new_object_step; by apply reachable_step).
  assert (mem (new_object meta w1).2 = mem w1 ++ [HObj meta]) as Hm2 by done.
  assert (this (new_object meta w1).2 = this w1) as Ht2 by done.
  assert ((new_object meta w1).1 = length (mem w1)) as Hmeta by done.
  set (w2 := (new_object meta w1).2) in *. rewrite Hmeta.
  pose proof (reachable_wf _ Hr2) as Hw2.
  rewrite bind_eq.
  (* the activity *)
  set (act := <["metadata" := VRef (length (mem w1))]>
                (<["targetType" := VStr "study_group"]>
                   (<["targetId" := VNum groupId]>
                      (<["type" := VStr "group_joined"]>
                         {[ "userId" := prop memberData "userId" ]})))
           : obj).
  destruct (create_effect (CreateActivity act clock2) Activity w2 Hw2 eq_refl)
    as (a & oa & h3 & Hact & Hm3 & Hal & _ & Hao & Hat & Haf & _).
  rewrite exec_createActivity in Hact, Hm3, Hat, Haf.
  cbn [fst snd] in Hact, Hm3, Hat, Haf. apply Entity_inj in Hact.
  assert (reachable (createActivity act clock2 w2).2) as Hr3
    by (rewrite createActivity_step; by apply reachable_step).
  set (w3 := (createActivity act clock2 w2).2) in *.
  cbn [ret fst snd].
  assert (mem w1 `prefix_of` mem w3) as Hp1.
  { rewrite Hm3, Hm2. rewrite <- !app_assoc. by eexists. }
  assert (mem w1 !! r = Some (HObj or)) as Hrl1 by (by rewrite Hm1).
  assert (mem w3 !! a = Some (HObj oa)) as Hal3 by (by rewrite Hm3).
  assert (∀ k v, oa !! k = Some v → get (mem w3) a k = v) as Haget.
  { intros k v Hk. apply get_lookup. unfold fields. by rewrite Hal3. }
  exists r, a. split_and!.
  - done.
  - done.
  - rewrite (stored_same _ w2 w3) by by apply Haf.
    unfold stored at 1. rewrite Ht2. fold (stored StudyGroupMember w1).
    by rewrite (stored_app _ w w1 _ Hrt).
  - intros k Hid Hjoined. rewrite (get_prefix _ _ _ _ _ Hp1 Hrl1).
    unfold get, fields. rewrite Hrl1. unfold prop. f_equal.
    specialize (Hro k). cbn [store_assigned List.find fst input_of] in Hro.
    destruct (String.eqb_spec "id" k) as [|_]; [congruence|].
    by destruct (String.eqb_spec "joinedAt" k) as [|_]; [congruence|].
  - rewrite (stored_app _ w2 w3 _ Hat). simpl. f_equal.
    unfold stored. rewrite Ht2. fold (stored Activity w1).
    by rewrite (stored_same _ w w1) by by apply Hrf.
  - apply Haget. rewrite (Hao "type"). subst act. by simplify_map_eq.
  - apply Haget. rewrite (Hao "targetId"). subst act. by simplify_map_eq.
  - apply Haget. rewrite (Hao "userId"). subst act. by simplify_map_eq.
Qed.

(** X18: a request that the two POST handlers reject leaves the
    store as it was: [POST /api/groups] answers 400 when the schema
    rejects the body; [POST /api/groups/:id/members] answers 404 when the
    group does not exist, and otherwise 400 when the schema rejects the
    body. *)
Theorem rejected_posts_change_nothing (w : world) (groupId : Z) (body : obj)
    (clock1 clock2 clock3 : Z) (user : loc) :
  (insertStudyGroupSchema (<["creatorId" := get (mem w) user "id"]> body) = None →
   post_groups body clock1 clock2 clock3 user w = (SendValidationError 400, w)) ∧
  ((getStudyGroup groupId w).1 = None →
   post_group_members groupId body clock1 clock2 user w
   = (Send 404 "Study group not found", w)) ∧
  (∀ group,
     (getStudyGroup groupId w).1 = Some group →
     insertStudyGroupMemberSchema (<["groupId" := VNum groupId]> body) = None →
     post_group_members groupId body clock1 clock2 user w = (SendValidationError 400, w)).
Proof.
  split_and!.
  - intros Hparse. unfold post_groups. rewrite bind_eq. cbn [the_heap fst snd].
    by rewrite Hparse.
  - intros Hgroup. unfold post_group_members. rewrite bind_eq.
    assert ((getStudyGroup groupId w).2 = w) as -> by done. by rewrite Hgroup.
  - intros group Hgroup Hparse. unfold post_group_members. rewrite bind_eq.
    assert ((getStudyGroup groupId w).2 = w) as -> by done.
    by rewrite Hgroup, Hparse.
Qed.
End JoinGroup.

Section DeleteMember.
Context `{Builtins} `{Schemas}.

Lemma removeStudyGroupMember_first w groupId userId :
  wf w →
  match List.find (is_membership (mem w) groupId userId) (stored StudyGroupMember w) with
  | None => removeStudyGroupMember groupId userId w = (false, w)
  | Some l =>
      ∃ rows1 id rows2,
        studyGroupMembers (this w) = rows1 ++ (id, l) :: rows2 ∧
        is_membership (mem w) groupId userId l = true ∧
        Forall (fun r => is_membership (mem w) groupId userId r.2 = false) rows1 ∧
        removeStudyGroupMember groupId userId w =
          (true, mkWorld (mem w) (with_table StudyGroupMember (rows1 ++ rows2) (this w)))
  end.
Proof.
  intros Hw. rewrite removeStudyGroupMember_eq.
  destruct (List.find _ _) as [l|] eqn:Hf; [|done].
  apply find_values_split in Hf as (rows1 & id & rows2 & Hrows & Hl & Hfirst).
  exists rows1, id, rows2. change (table StudyGroupMember (this w)) with
    (studyGroupMembers (this w)) in Hrows. split_and!; [done..|].
  assert ((id, l) ∈ table StudyGroupMember (this w)) as Hin.
  { simpl. rewrite Hrows. apply elem_of_app. right. apply list_elem_of_here. }
  destruct (wf_row _ _ _ _ Hw Hin) as [_ (o & Ho & Hid & _)]. simpl in Ho, Hid.
  rewrite (get_lookup _ _ _ (VNum id)) by (unfold fields; rewrite Ho; auto).
  assert (id ∉ map_keys rows1) as Hfresh.
  { pose proof (wf_sorted w StudyGroupMember Hw) as Hs. simpl in Hs.
    apply sorted_NoDup in Hs. rewrite Hrows in Hs. unfold map_keys in *.
    rewrite map_app in Hs. simpl in Hs. apply NoDup_app in Hs as (_ & Hs & _).
    intros Hk. apply (Hs _ Hk). apply list_elem_of_here. }
  destruct (map_delete_split rows1 rows2 id l Hfresh) as [Hdel Hget].
  rewrite Hrows. unfold map_has. rewrite Hdel, Hget.
  by rewrite bool_decide_eq_true_2.
Qed.

(** X19: the handler of
    [DELETE /api/groups/:groupId/members/:userId].  A user who asks to
    remove somebody else is refused with 403, the store unchanged, unless
    the first of the user's own rows in the group has a truthy [isAdmin].
    Otherwise, when no row has the pair the handler answers 404 and the
    store is unchanged, and when one has it answers 204 and the
    membership map loses the first such row and nothing else. *)
Theorem delete_member_needs_self_or_admin (w : world) (groupId userId : Z)
    (user : loc) (u : Z) :
  reachable w →
  get (mem w) user "id" = VNum u →
  (userId ≠ u →
   (∀ m, requestingUserMembership (mem w) user (getStudyGroupMembers groupId w).1 = Some m →
         truthy (get (mem w) m "isAdmin") = false) →
   delete_group_member groupId userId user w
   = (Send 403 "You are not authorized to remove this member", w)) ∧
  (userId = u ∨
   (∃ m, requestingUserMembership (mem w) user (getStudyGroupMembers groupId w).1 = Some m ∧
         truthy (get (mem w) m "isAdmin") = true) →
   ((∀ m, m ∈ stored StudyGroupMember w → is_membership (mem w) groupId userId m = false) →
    delete_group_member groupId userId user w = (Send 404 "Member not found in group", w)) ∧
   ((∃ m, m ∈ stored StudyGroupMember w ∧ is_membership (mem w) groupId userId m = true) →
    ∃ rows1 id l rows2,
      studyGroupMembers (this w) = rows1 ++ (id, l) :: rows2 ∧
      is_membership (mem w) groupId userId l = true ∧
      Forall (fun r => is_membership (mem w) groupId userId r.2 = false) rows1 ∧
      delete_group_member groupId userId user w =
        (End_ 204, mkWorld (mem w)
                     (with_table StudyGroupMember (rows1 ++ rows2) (this w))))).
Proof.
  intros Hw%reachable_wf Hu.
  assert ((getStudyGroupMembers groupId w).2 = w) as Hread by done.
  unfold delete_group_member. rewrite bind_eq, Hread.
  rewrite bind_eq. cbn [the_heap fst snd].
  unfold may_not_remove. rewrite Hu. cbn [strict_eq].
  pose proof (removeStudyGroupMember_first w groupId userId Hw) as Hrem.
  split.
  - intros Hne Hadmin. rewrite (proj2 (Z.eqb_neq userId u) Hne). cbn [negb andb].
    destruct (requestingUserMembership _ _ _) as [m|]; [|done].
    by rewrite (Hadmin m eq_refl).
  - intros Hallowed.
    assert (negb (userId =? u)
            && match requestingUserMembership (mem w) user
                       (getStudyGroupMembers groupId w).1 with
               | Some m => negb (truthy (get (mem w) m "isAdmin"))
               | None => true
               end = false) as ->.
    { destruct Hallowed as [->|(m & -> & ->)]; [by rewrite Z.eqb_refl|].
      apply andb_false_r. }
    rewrite bind_eq. split.
    + intros Hnone%find_values_None. rewrite Hnone in Hrem. by rewrite Hrem.
    + intros (m & Hm & Hp).
      destruct (List.find _ _) as [l|] eqn:Hf;
        [|rewrite find_values_None in Hf; rewrite (Hf _ Hm) in Hp; done].
      destruct Hrem as (rows1 & id & rows2 & Hrows & Hl & Hfirst & ->).
      by exists rows1, id, l, rows2.
Qed.
End DeleteMember.

Section CreateProperties.
Context `{Builtins}.

(** X15: the entity that a create returns and stores has the
    properties of the object it was given, except those that the store
    assigns, which it has whatever the caller passed for them: the id is
    the counter, the creation timestamp a new [Date] of the clock
    reading, and points, downloads, votes and rating are 0. *)
Theorem create_overrides_store_properties (c : call) (t : etype) (w : world) :
  reachable w →
  creates c = Some t →
  ∃ new o,
    (exec c w).1 = Entity new ∧
    mem (exec c w).2 !! new = Some (HObj o) ∧
    ∀ k, match List.find (fun p => String.eqb p.1 k) (store_assigned t) with
         | None => o !! k = input_of c !! k
         | Some (_, Some v) => o !! k = Some v
         | Some (_, None) =>
             if String.eqb k "id" then o !! k = Some (VNum (current t (this w)))
             else ∃ d time, o !! k = Some (VRef d) ∧ mem w !! d = None ∧
                    mem (exec c w).2 !! d = Some (HDate (Some time)) ∧
                    clock_of c = Some time
         end.
Proof.
  intros Hw%reachable_wf Hc.
  destruct (create_effect c t w Hw Hc) as (new & o & h' & Hnew & -> & Hl & _ & Ho & _).
  by exists new, o.
Qed.
End CreateProperties.

Section MoreExamples.
#[local] Existing Instance sample_builtins.
#[local] Existing Instance sample_schemas.

Lemma second_reachable : reachable second_world.
Proof. by exists [], second_history. Qed.

Example second_feed : (getRecentActivities None second_world).1 = [27%nat; 25%nat].
Proof. reflexivity. Qed.

Lemma stored_values_stay_typed_witness :
  reachable example_world ∧
  stored_entity Paper 1 example_world = Some (fields (mem example_world) 17%nat) ∧
  well_typed Paper (mem example_world) (fields (mem example_world) 17%nat).
Proof.
  assert (stored_entity Paper 1 example_world = Some (fields (mem example_world) 17%nat))
    as Ho by reflexivity.
  split; [apply example_reachable|]. split; [exact Ho|].
  exact (stored_values_stay_typed example_world Paper 1 (fields (mem example_world) 17%nat)
           example_reachable Ho).
Defined.

Lemma stored_id_is_key_witness :
  reachable example_world ∧
  Paper ≠ User ∧
  stored_entity Paper 1 example_world = Some (fields (mem example_world) 17%nat) ∧
  fields (mem example_world) 17%nat !! "id" = Some (VNum 1).
Proof.
  assert (Paper ≠ User) as Ht by discriminate.
  assert (stored_entity Paper 1 example_world = Some (fields (mem example_world) 17%nat))
    as Ho by reflexivity.
  split; [apply example_reachable|]. split; [exact Ht|]. split; [exact Ho|].
  exact (stored_id_is_key example_world Paper 1 (fields (mem example_world) 17%nat)
           example_reachable Ht Ho).
Defined.

Lemma present_iff_issued_witness :
  reachable example_world ∧
  Paper ≠ StudyGroupMember ∧
  1 ≤ 2 < current Paper (this example_world) ∧
  is_Some (stored_entity Paper 2 example_world).
Proof.
  assert (Paper ≠ StudyGroupMember) as Ht by discriminate.
  assert (1 ≤ 2 < current Paper (this example_world)) as Hid by (split; [discriminate|reflexivity]).
  split; [apply example_reachable|]. split; [exact Ht|]. split; [exact Hid|].
  exact (proj1 (proj2 (present_iff_issued example_world Paper 2 example_reachable)) Ht Hid).
Defined.

Lemma call_changes_one_table_witness :
  touches (AddStudyGroupMember {[ "groupId" := VNum 1; "userId" := VNum 2 ]} 7000)
    ≠ Some StudyGroup ∧
  table StudyGroup
    (this (exec (AddStudyGroupMember {[ "groupId" := VNum 1; "userId" := VNum 2 ]} 7000)
             example_world).2)
  = table StudyGroup (this example_world) ∧
  current StudyGroup
    (this (exec (AddStudyGroupMember {[ "groupId" := VNum 1; "userId" := VNum 2 ]} 7000)
             example_world).2)
  = current StudyGroup (this example_world).
Proof.
  assert (touches (AddStudyGroupMember {[ "groupId" := VNum 1; "userId" := VNum 2 ]} 7000)
            ≠ Some StudyGroup) as Ht by discriminate.
  split; [exact Ht|].
  exact (call_changes_one_table
           (AddStudyGroupMember {[ "groupId" := VNum 1; "userId" := VNum 2 ]} 7000)
           example_world StudyGroup Ht).
Defined.

Lemma append_only_tables_grow_witness :
  reachable example_world ∧
  append_only StudyGroup = true ∧
  table StudyGroup (this example_world)
    `prefix_of`
    table StudyGroup
      (this (play [Call (CreateStudyGroup {[ "name" := VStr "Analysis" ]} 7000);
                   Call (UpdateUser 1 {[ "points" := VNum 5 ]})]
               example_world)) ∧
  ∀ l, l ∈ stored StudyGroup example_world →
       fields (mem (play [Call (CreateStudyGroup {[ "name" := VStr "Analysis" ]} 7000);
                          Call (UpdateUser 1 {[ "points" := VNum 5 ]})]
                      example_world)) l
       = fields (mem example_world) l.
Proof.
  split; [apply example_reachable|]. split; [reflexivity|].
  exact (append_only_tables_grow StudyGroup
           [Call (CreateStudyGroup {[ "name" := VStr "Analysis" ]} 7000);
            Call (UpdateUser 1 {[ "points" := VNum 5 ]})]
           example_world example_reachable eq_refl).
Defined.

Lemma user_lookup_finds_first_match_witness :
  user_lookup "username" getUserByUsername ∧
  (getUserByUsername "ADA" second_world).1 = Some (Some 1%nat) ∧
  (getUserByUsername "ADA" second_world).2 = second_world ∧
  match (getUserByUsername "ADA" second_world).1 with
  | Some (Some l) =>
      ∃ before after, stored User second_world = before ++ l :: after ∧
        Forall (other_lower (mem second_world) "username" "ADA") before ∧
        same_lower (mem second_world) "username" "ADA" l
  | Some None => Forall (other_lower (mem second_world) "username" "ADA")
                   (stored User second_world)
  | None =>
      ∃ before l after, stored User second_world = before ++ l :: after ∧
        Forall (other_lower (mem second_world) "username" "ADA") before ∧
        ∀ x, get (mem second_world) l "username" ≠ VStr x
  end.
Proof.
  split; [constructor|]. split; [reflexivity|].
  exact (user_lookup_finds_first_match "username" getUserByUsername "ADA" second_world
           lookup_username).
Defined.

Lemma created_user_is_found_witness :
  user_lookup "email" getUserByEmail ∧
  reachable example_world ∧
  ({[ "username" := VStr "Bob"; "email" := VStr "Bob@Example.org" ]} : obj) !! "email"
    = Some (VStr "Bob@Example.org") ∧
  ∀ q,
    (getUserByEmail q
       (createUser {[ "username" := VStr "Bob"; "email" := VStr "Bob@Example.org" ]} 6000
          example_world).2).1 =
    match (getUserByEmail q example_world).1 with
    | Some None =>
        if String.eqb (toLowerCase "Bob@Example.org") (toLowerCase q)
        then Some (Some (createUser
                           {[ "username" := VStr "Bob"; "email" := VStr "Bob@Example.org" ]}
                           6000 example_world).1)
        else Some None
    | r => r
    end.
Proof.
  split; [constructor|]. split; [apply example_reachable|]. split; [reflexivity|].
  exact (created_user_is_found "email" getUserByEmail
           {[ "username" := VStr "Bob"; "email" := VStr "Bob@Example.org" ]} 6000
           example_world "Bob@Example.org" lookup_email example_reachable eq_refl).
Defined.

Lemma counter_update_writes_one_property_witness :
  written_property (RateResource 1 4) = Some "rating" ∧
  ∃ t id, touches (RateResource 1 4) = Some t ∧ updated_id (RateResource 1 4) = Some id ∧
    match stored_entity t id second_world with
    | None => exec (RateResource 1 4) second_world = (Undefined, second_world)
    | Some o =>
        ∃ l' o', exec (RateResource 1 4) second_world
                 = (Entity l', (exec (RateResource 1 4) second_world).2) ∧
          mem second_world !! l' = None ∧
          stored_entity t id (exec (RateResource 1 4) second_world).2 = Some o' ∧
          mem (exec (RateResource 1 4) second_world).2 !! l' = Some (HObj o') ∧
          (∀ k, k ≠ "rating" → o' !! k = o !! k) ∧
          map_keys (table t (this (exec (RateResource 1 4) second_world).2))
          = map_keys (table t (this second_world))
    end.
Proof.
  split; [reflexivity|].
  exact (counter_update_writes_one_property (RateResource 1 4) "rating" second_world eq_refl).
Defined.


Lemma resource_downloads_and_rating_witness :
  reachable second_world ∧
  stored_prop Resource 1 "downloads" second_world = Some (VNum 0) ∧
  match stored_entity Resource 1 second_world with
  | None =>
      incrementResourceDownloads 1 second_world = (None, second_world) ∧
      ∀ rating, rateResource 1 rating second_world = (None, second_world)
  | Some o =>
      ∃ n r, o !! "downloads" = Some (VNum n) ∧ 0 ≤ n ∧ o !! "rating" = Some (VNum r) ∧
        stored_prop Resource 1 "downloads" (incrementResourceDownloads 1 second_world).2
          = Some (VNum (n + 1)) ∧
        stored_prop Resource 1 "rating" (incrementResourceDownloads 1 second_world).2
          = Some (VNum r) ∧
        ∀ rating,
          stored_prop Resource 1 "rating" (rateResource 1 rating second_world).2
            = Some (VNum rating) ∧
          stored_prop Resource 1 "downloads" (rateResource 1 rating second_world).2
            = Some (VNum n)
  end.
Proof.
  split; [apply second_reachable|]. split; [reflexivity|].
  exact (resource_downloads_and_rating second_world 1 second_reachable).
Defined.

Lemma create_appends_to_its_list_witness :
  field_list StudyGroupMember "groupId" getStudyGroupMembers ∧
  reachable example_world ∧
  creates (AddStudyGroupMember {[ "groupId" := VNum 1; "userId" := VNum 2 ]} 7000)
    = Some StudyGroupMember ∧
  ∃ new,
    (exec (AddStudyGroupMember {[ "groupId" := VNum 1; "userId" := VNum 2 ]} 7000)
       example_world).1 = Entity new ∧
    ∀ q,
      (getStudyGroupMembers q
         (exec (AddStudyGroupMember {[ "groupId" := VNum 1; "userId" := VNum 2 ]} 7000)
            example_world).2).1 =
      (getStudyGroupMembers q example_world).1 ++
      (if strict_eq
            (get (mem (exec (AddStudyGroupMember
                               {[ "groupId" := VNum 1; "userId" := VNum 2 ]} 7000)
                         example_world).2) new "groupId") (VNum q)
       then [new] else []).
Proof.
  split; [constructor|]. split; [apply example_reachable|]. split; [reflexivity|].
  exact (create_appends_to_its_list StudyGroupMember "groupId" getStudyGroupMembers
           (AddStudyGroupMember {[ "groupId" := VNum 1; "userId" := VNum 2 ]} 7000)
           example_world members_of_group example_reachable eq_refl).
Defined.

Lemma add_then_remove_member_restores_witness :
  reachable example_world ∧
  ({[ "groupId" := VNum 1; "userId" := VNum 2 ]} : obj) !! "groupId" = Some (VNum 1) ∧
  ({[ "groupId" := VNum 1; "userId" := VNum 2 ]} : obj) !! "userId" = Some (VNum 2) ∧
  (∀ m, m ∈ stored StudyGroupMember example_world →
        is_membership (mem example_world) 1 2 m = false) ∧
  (removeStudyGroupMember 1 2
     (addStudyGroupMember {[ "groupId" := VNum 1; "userId" := VNum 2 ]} 7000
        example_world).2).1 = true ∧
  studyGroupMembers
    (this (removeStudyGroupMember 1 2
             (addStudyGroupMember {[ "groupId" := VNum 1; "userId" := VNum 2 ]} 7000
                example_world).2).2)
  = studyGroupMembers (this example_world) ∧
  currentStudyGroupMemberId
    (this (removeStudyGroupMember 1 2
             (addStudyGroupMember {[ "groupId" := VNum 1; "userId" := VNum 2 ]} 7000
                example_world).2).2)
  = currentStudyGroupMemberId (this example_world) + 1.
Proof.
  assert (∀ m, m ∈ stored StudyGroupMember example_world →
               is_membership (mem example_world) 1 2 m = false) as Hnone.
  { apply find_values_None. reflexivity. }
  split; [apply example_reachable|]. split; [reflexivity|]. split; [reflexivity|].
  split; [exact Hnone|].
  exact (add_then_remove_member_restores
           {[ "groupId" := VNum 1; "userId" := VNum 2 ]} 7000 example_world 1 2
           example_reachable eq_refl eq_refl Hnone).
Defined.

Lemma activity_feed_newest_first_witness :
  reachable second_world ∧
  (∀ limit, (feed (Some 1) limit second_world).2 = second_world) ∧
  (∀ a, a ∈ (feed (Some 1) None second_world).1 ↔ in_feed second_world (Some 1) a) ∧
  NoDup (feed (Some 1) None second_world).1 ∧
  StronglySorted (created_no_earlier second_world) (feed (Some 1) None second_world).1 ∧
  (feed (Some 1) (Some 0) second_world).1 = (feed (Some 1) None second_world).1 ∧
  (∀ n, 0 < n →
     (feed (Some 1) (Some n) second_world).1
     = take (Z.to_nat n) (feed (Some 1) None second_world).1) ∧
  (∀ n, n < 0 →
     (feed (Some 1) (Some n) second_world).1 =
     take (length (feed (Some 1) None second_world).1 - Z.to_nat (- n))
       (feed (Some 1) None second_world).1).
Proof.
  split; [apply second_reachable|].
  exact (activity_feed_newest_first second_world (Some 1) second_reachable).
Defined.

Lemma create_overrides_store_properties_witness :
  reachable example_world ∧
  creates (CreatePaper {[ "course" := VStr "MATH103"; "downloads" := VNum 99;
                          "id" := VNum 7 ]} 5000) = Some Paper ∧
  ∃ new o,
    (exec (CreatePaper {[ "course" := VStr "MATH103"; "downloads" := VNum 99;
                          "id" := VNum 7 ]} 5000) example_world).1 = Entity new ∧
    mem (exec (CreatePaper {[ "course" := VStr "MATH103"; "downloads" := VNum 99;
                             "id" := VNum 7 ]} 5000) example_world).2 !! new
    = Some (HObj o) ∧
    ∀ k, match List.find (fun p => String.eqb p.1 k) (store_assigned Paper) with
         | None => o !! k = input_of (CreatePaper {[ "course" := VStr "MATH103";
                                                     "downloads" := VNum 99;
                                                     "id" := VNum 7 ]} 5000) !! k
         | Some (_, Some v) => o !! k = Some v
         | Some (_, None) =>
             if String.eqb k "id"
             then o !! k = Some (VNum (current Paper (this example_world)))
             else ∃ d time, o !! k = Some (VRef d) ∧ mem example_world !! d = None ∧
                    mem (exec (CreatePaper {[ "course" := VStr "MATH103";
                                              "downloads" := VNum 99;
                                              "id" := VNum 7 ]} 5000) example_world).2 !! d
                    = Some (HDate (Some time)) ∧
                    clock_of (CreatePaper {[ "course" := VStr "MATH103";
                                             "downloads" := VNum 99;
                                             "id" := VNum 7 ]} 5000) = Some time
         end.
Proof.
  split; [apply example_reachable|]. split; [reflexivity|].
  exact (create_overrides_store_properties
           (CreatePaper {[ "course" := VStr "MATH103"; "downloads" := VNum 99;
                           "id" := VNum 7 ]} 5000) Paper example_world
           example_reachable eq_refl).
Defined.

Lemma post_groups_makes_creator_admin_witness :
  reachable example_world ∧
  get (mem example_world) 1%nat "id" = VNum 1 ∧
  insertStudyGroupSchema (<["creatorId" := VNum 1]> {[ "name" := VStr "Topology" ]})
    = Some (<["creatorId" := VNum 1]> {[ "name" := VStr "Topology" ]}) ∧
  ∃ newGroup row activity,
    (post_groups {[ "name" := VStr "Topology" ]} 7000 7001 7002 1%nat example_world).1
      = SendJson 201 newGroup ∧
    reachable
      (post_groups {[ "name" := VStr "Topology" ]} 7000 7001 7002 1%nat example_world).2 ∧
    stored StudyGroup
      (post_groups {[ "name" := VStr "Topology" ]} 7000 7001 7002 1%nat example_world).2
      = stored StudyGroup example_world ++ [newGroup] ∧
    get (mem (post_groups {[ "name" := VStr "Topology" ]} 7000 7001 7002 1%nat
                example_world).2) newGroup "id"
      = VNum (currentStudyGroupId (this example_world)) ∧
    (getStudyGroupMembers (currentStudyGroupId (this example_world))
       (post_groups {[ "name" := VStr "Topology" ]} 7000 7001 7002 1%nat example_world).2).1
      = (getStudyGroupMembers (currentStudyGroupId (this example_world)) example_world).1
        ++ [row] ∧
    get (mem (post_groups {[ "name" := VStr "Topology" ]} 7000 7001 7002 1%nat
                example_world).2) row "userId" = VNum 1 ∧
    get (mem (post_groups {[ "name" := VStr "Topology" ]} 7000 7001 7002 1%nat
                example_world).2) row "isAdmin" = VBool true ∧
    newGroup ∈ (getUserStudyGroups 1
                  (post_groups {[ "name" := VStr "Topology" ]} 7000 7001 7002 1%nat
                     example_world).2).1 ∧
    stored Activity
      (post_groups {[ "name" := VStr "Topology" ]} 7000 7001 7002 1%nat example_world).2
      = stored Activity example_world ++ [activity] ∧
    get (mem (post_groups {[ "name" := VStr "Topology" ]} 7000 7001 7002 1%nat
                example_world).2) activity "type" = VStr "group_created" ∧
    get (mem (post_groups {[ "name" := VStr "Topology" ]} 7000 7001 7002 1%nat
                example_world).2) activity "targetId"
      = VNum (currentStudyGroupId (this example_world)) ∧
    get (mem (post_groups {[ "name" := VStr "Topology" ]} 7000 7001 7002 1%nat
                example_world).2) activity "userId" = VNum 1.
Proof.
  assert (get (mem example_world) 1%nat "id" = VNum 1) as Hu by reflexivity.
  assert (insertStudyGroupSchema (<["creatorId" := VNum 1]> {[ "name" := VStr "Topology" ]})
          = Some (<["creatorId" := VNum 1]> {[ "name" := VStr "Topology" ]})) as Hparse
    by reflexivity.
  split; [apply example_reachable|]. split; [exact Hu|]. split; [exact Hparse|].
  exact (post_groups_makes_creator_admin example_world {[ "name" := VStr "Topology" ]}
           (<["creatorId" := VNum 1]> {[ "name" := VStr "Topology" ]})
           7000 7001 7002 1%nat 1 example_reachable Hu Hparse).
Defined.

Lemma join_group_appends_a_row_witness :
  reachable example_world ∧
  (getStudyGroup 1 example_world).1 = Some 3%nat ∧
  insertStudyGroupMemberSchema (<["groupId" := VNum 1]> {[ "userId" := VNum 1 ]})
    = Some (<["groupId" := VNum 1]> {[ "userId" := VNum 1 ]}) ∧
  ∃ row activity,
    (post_group_members 1 {[ "userId" := VNum 1 ]} 7000 7001 1%nat example_world).1
      = SendJson 201 row ∧
    reachable
      (post_group_members 1 {[ "userId" := VNum 1 ]} 7000 7001 1%nat example_world).2 ∧
    stored StudyGroupMember
      (post_group_members 1 {[ "userId" := VNum 1 ]} 7000 7001 1%nat example_world).2
      = stored StudyGroupMember example_world ++ [row] ∧
    (∀ k, k ≠ "id" → k ≠ "joinedAt" →
       get (mem (post_group_members 1 {[ "userId" := VNum 1 ]} 7000 7001 1%nat
                   example_world).2) row k
       = prop (<["groupId" := VNum 1]> {[ "userId" := VNum 1 ]}) k) ∧
    stored Activity
      (post_group_members 1 {[ "userId" := VNum 1 ]} 7000 7001 1%nat example_world).2
      = stored Activity example_world ++ [activity] ∧
    get (mem (post_group_members 1 {[ "userId" := VNum 1 ]} 7000 7001 1%nat
                example_world).2) activity "type" = VStr "group_joined" ∧
    get (mem (post_group_members 1 {[ "userId" := VNum 1 ]} 7000 7001 1%nat
                example_world).2) activity "targetId" = VNum 1 ∧
    get (mem (post_group_members 1 {[ "userId" := VNum 1 ]} 7000 7001 1%nat
                example_world).2) activity "userId"
      = prop (<["groupId" := VNum 1]> {[ "userId" := VNum 1 ]}) "userId".
Proof.
  assert ((getStudyGroup 1 example_world).1 = Some 3%nat) as Hgroup by reflexivity.
  assert (insertStudyGroupMemberSchema (<["groupId" := VNum 1]> {[ "userId" := VNum 1 ]})
          = Some (<["groupId" := VNum 1]> {[ "userId" := VNum 1 ]})) as Hparse
    by reflexivity.
  split; [apply example_reachable|]. split; [exact Hgroup|]. split; [exact Hparse|].
  exact (join_group_appends_a_row example_world 1 {[ "userId" := VNum 1 ]}
           (<["groupId" := VNum 1]> {[ "userId" := VNum 1 ]}) 7000 7001 1%nat 3%nat
           example_reachable Hgroup Hparse).
Defined.

Lemma rejected_posts_change_nothing_witness :
  insertStudyGroupSchema (<["creatorId" := get (mem example_world) 1%nat "id"]> ∅) = None ∧
  (getStudyGroup 9 example_world).1 = None ∧
  (getStudyGroup 1 example_world).1 = Some 3%nat ∧
  insertStudyGroupMemberSchema (<["groupId" := VNum 1]> ∅) = None ∧
  post_groups ∅ 7000 7001 7002 1%nat example_world = (SendValidationError 400, example_world) ∧
  post_group_members 9 ∅ 7000 7001 1%nat example_world
  = (Send 404 "Study group not found", example_world) ∧
  post_group_members 1 ∅ 7000 7001 1%nat example_world
  = (SendValidationError 400, example_world).
Proof.
  assert (insertStudyGroupSchema (<["creatorId" := get (mem example_world) 1%nat "id"]> ∅)
          = None) as Hparse by reflexivity.
  assert ((getStudyGroup 9 example_world).1 = None) as Hnone by reflexivity.
  assert ((getStudyGroup 1 example_world).1 = Some 3%nat) as Hgroup by reflexivity.
  assert (insertStudyGroupMemberSchema (<["groupId" := VNum 1]> ∅) = None) as Hmember
    by reflexivity.
  split; [exact Hparse|]. split; [exact Hnone|]. split; [exact Hgroup|].
  split; [exact Hmember|]. split_and!.
  - exact (proj1 (rejected_posts_change_nothing example_world 9 ∅ 7000 7001 7002 1%nat)
             Hparse).
  - exact (proj1 (proj2 (rejected_posts_change_nothing example_world 9 ∅ 7000 7001 7002
                           1%nat)) Hnone).
  - exact (proj2 (proj2 (rejected_posts_change_nothing example_world 1 ∅ 7000 7001 7002
                           1%nat)) 3%nat Hgroup Hmember).
Defined.

Lemma delete_member_needs_self_or_admin_witness :
  reachable second_world ∧
  get (mem second_world) 1%nat "id" = VNum 1 ∧
  (∃ m, requestingUserMembership (mem second_world) 1%nat
          (getStudyGroupMembers 1 second_world).1 = Some m ∧
        truthy (get (mem second_world) m "isAdmin") = true) ∧
  (∃ m, m ∈ stored StudyGroupMember second_world ∧
        is_membership (mem second_world) 1 1 m = true) ∧
  ∃ rows1 id l rows2,
    studyGroupMembers (this second_world) = rows1 ++ (id, l) :: rows2 ∧
    is_membership (mem second_world) 1 1 l = true ∧
    Forall (fun r => is_membership (mem second_world) 1 1 r.2 = false) rows1 ∧
    delete_group_member 1 1 1%nat second_world =
      (End_ 204, mkWorld (mem second_world)
                   (with_table StudyGroupMember (rows1 ++ rows2) (this second_world))).
Proof.
  assert (get (mem second_world) 1%nat "id" = VNum 1) as Hu by reflexivity.
  assert (∃ m, requestingUserMembership (mem second_world) 1%nat
                 (getStudyGroupMembers 1 second_world).1 = Some m ∧
               truthy (get (mem second_world) m "isAdmin") = true) as Hadmin.
  { exists 5%nat. split; reflexivity. }
  assert (∃ m, m ∈ stored StudyGroupMember second_world ∧
               is_membership (mem second_world) 1 1 m = true) as Hm.
  { exists 5%nat. split; [apply list_elem_of_here|reflexivity]. }
  split; [apply second_reachable|]. split; [exact Hu|]. split; [exact Hadmin|].
  split; [exact Hm|].
  exact (proj2 (proj2 (delete_member_needs_self_or_admin second_world 1 1 1%nat 1
                         second_reachable Hu) (or_intror Hadmin)) Hm).
Defined.
End MoreExamples.

Section RegistrationLemmas.
Context `{Builtins}.

Lemma untyped_lookup_eq key method x w :
  user_lookup key method →
  untyped_lookup method x w =
  (match x with
   | VStr s => find_lower (mem w) key s (stored User w)
   | _ => match stored User w with [] => Some None | _ :: _ => None end
   end, w).
Proof.
  intros [_ Hm]%user_lookup_eq. destruct x; try done. apply Hm.
Qed.

Lemma untyped_lookup_absent key method x w :
  user_lookup key method →
  (untyped_lookup method x w).1 = Some None →
  stored User w = [] ∨
  ∃ s, x = VStr s ∧ Forall (other_lower (mem w) key s) (stored User w).
Proof.
  intros Hm. rewrite (untyped_lookup_eq key) by done. cbn [fst].
  destruct x as [| | | | |s|]; try (destruct (stored User w); [by left|done]).
  intros Hf. right. exists s. split; [done|].
  pose proof (find_lower_spec (mem w) key s (stored User w)) as Hspec.
  by rewrite Hf in Hspec.
Qed.

Lemma distinct_lower_snoc h h' key ls new s :
  (∀ l, l ∈ ls → get h' l key = get h l key) →
  get h' new key = VStr s →
  Forall (other_lower h key s) ls →
  distinct_lower h key ls →
  distinct_lower h' key (ls ++ [new]).
Proof.
  intros Hext Hnew Hother (names & Hnames & Hnd).
  exists (names ++ [s]). rewrite !map_app. simpl. rewrite Hnew. split.
  - f_equal. rewrite <- Hnames. apply map_ext_in. intros l Hl%list_elem_of_In. auto.
  - change (map ?f ?l) with (f <$> l). apply NoDup_app. split; [done|]. split.
    + intros x Hx Hs. apply list_elem_of_singleton in Hs as ->.
      apply list_elem_of_fmap in Hx as (n & Hn & Hin).
      assert (VStr n ∈ map VStr names) as Hv.
      { change (map ?f ?l) with (f <$> l). by apply list_elem_of_fmap_2. }
      rewrite <- Hnames in Hv. change (map ?f ?l) with (f <$> l) in Hv.
      apply list_elem_of_fmap in Hv as (l & Hl & Hlin).
      rewrite Forall_forall in Hother. destruct (Hother l Hlin) as (y & Hy & Hne).
      rewrite Hy in Hl. injection Hl as ->. by rewrite Hn in Hne.
    + apply NoDup_singleton.
Qed.

Lemma distinct_lower_other h key ls s :
  (length ls ≤ 1)%nat → Forall (other_lower h key s) ls → distinct_lower h key ls.
Proof.
  destruct ls as [|u [|v ls]]; simpl; [| |lia].
  - intros _ _. exists []. split; [done|]. constructor.
  - intros _ [(x & Hx & _) _]%Forall_cons. exists [x]. simpl. rewrite Hx.
    split; [done|]. apply NoDup_singleton.
Qed.

Lemma distinct_lower_ext h h' key ls :
  (∀ l, l ∈ ls → get h' l key = get h l key) →
  distinct_lower h key ls → distinct_lower h' key ls.
Proof.
  intros Hext (names & Hnames & Hnd). exists names. split; [|done].
  rewrite <- Hnames. apply map_ext_in. intros l Hl%list_elem_of_In. auto.
Qed.

Lemma names_unique_alloc c w : wf w → names_unique w → names_unique (alloc c w).2.
Proof.
  intros Hw [Hle|[Hu He]]; [by left|]. right.
  split; (eapply distinct_lower_ext; [|done]); intros l Hl; simpl;
    by apply (stored_get_app w User).
Qed.

Lemma createUser_step insertUser clock w :
  (createUser insertUser clock w).2 = step (Call (CreateUser insertUser clock)) w.
Proof.
  change (step _ w) with (fmap_M Entity (createUser insertUser clock) w).2.
  by rewrite fmap_M_eq.
Qed.

Lemma createUser_stored insertUser clock w :
  wf w →
  stored User (createUser insertUser clock w).2
  = stored User w ++ [(createUser insertUser clock w).1] ∧
  (∀ l key, l ∈ stored User w →
     get (mem (createUser insertUser clock w).2) l key = get (mem w) l key) ∧
  (∀ key, key ≠ "id" → key ≠ "createdAt" → key ≠ "points" →
     get (mem (createUser insertUser clock w).2) (createUser insertUser clock w).1 key
     = prop insertUser key).
Proof.
  intros Hw. rewrite createUser_eq. cbn [fst snd mem this]. split_and!.
  - unfold stored. cbn [this]. autorewrite with store. rewrite decide_True by done.
    change (table User (this w)) with (users (this w)).
    rewrite map_set_fresh by apply (wf_current_fresh w User Hw).
    unfold map_values. by rewrite map_app.
  - intros l key Hl. by apply (stored_get_app w User).
  - intros key H1 H2 H3. unfold get, fields. rewrite lookup_new2. unfold prop.
    by rewrite !lookup_insert_ne.
Qed.

Lemma names_unique_create insertUser clock w :
  wf w → names_unique w →
  (untyped_lookup getUserByUsername (prop insertUser "username") w).1 = Some None →
  (untyped_lookup getUserByEmail (prop insertUser "email") w).1 = Some None →
  names_unique (createUser insertUser clock w).2.
Proof.
  intros Hw Huniq Hname Hmail.
  destruct (createUser_stored insertUser clock w Hw) as (Hst & Hold & Hnew).
  apply (untyped_lookup_absent "username") in Hname; [|constructor].
  apply (untyped_lookup_absent "email") in Hmail; [|constructor].
  unfold names_unique. rewrite Hst.
  destruct Hname as [Hnil|(s & Hs & Hothers)]; [left; rewrite Hnil; simpl; lia|].
  destruct Hmail as [Hnil|(e & He & Hothere)]; [left; rewrite Hnil; simpl; lia|].
  right.
  assert (distinct_lower (mem w) "username" (stored User w) ∧
          distinct_lower (mem w) "email" (stored User w)) as [Hdu Hde].
  { destruct Huniq as [Hle|Hd]; [|done].
    split; by eapply distinct_lower_other. }
  split.
  - apply (distinct_lower_snoc (mem w) _ _ _ _ s); auto.
    rewrite Hnew by done. done.
  - apply (distinct_lower_snoc (mem w) _ _ _ _ e); auto.
    rewrite Hnew by done. done.
Qed.

Lemma prop_password (body : obj) hashed key :
  key ≠ "password" → prop (<["password" := hashed]> body) key = prop body key.
Proof. intros Hk. unfold prop. by rewrite lookup_insert_ne. Qed.

Lemma untyped_lookup_world method x w key :
  user_lookup key method → (untyped_lookup method x w).2 = w.
Proof. intros Hm. by rewrite (untyped_lookup_eq key). Qed.

End RegistrationLemmas.

Section Overlap.
Context `{Builtins}.

(** The lookups of a request read the store and let the request go on
    exactly when both find nobody. *)
Lemma lookups_eq r body w :
  (lookups r body w).2 = w ∧
  ((lookups r body w).1 = None ↔
   (untyped_lookup getUserByUsername (prop body "username") w).1 = Some None ∧
   (untyped_lookup getUserByEmail (prop body "email") w).1 = Some None).
Proof.
  destruct r; cbn [lookups]; [unfold register_lookups|unfold direct_register_lookups];
    rewrite bind_eq, (untyped_lookup_world _ _ _ "username") by constructor;
    (destruct (untyped_lookup getUserByUsername _ w).1 as [[l|]|];
       [split; [done|]; split; [done|by intros [? _]]| |
        split; [done|]; split; [done|by intros [? _]]]);
    rewrite bind_eq, (untyped_lookup_world _ _ _ "email") by constructor;
    (destruct (untyped_lookup getUserByEmail _ w).1 as [[l|]|];
       (split; [done|]); split; try done; by intros [_ ?]).
Qed.

(** A handler is its lookups followed by the rest. *)
Lemma handler_in_two_steps r body hashed clock login_err w :
  handler r body hashed clock login_err w =
  match (lookups r body w).1 with
  | Some answer => (answer, w)
  | None => resume r body hashed clock login_err w
  end.
Proof.
  destruct r; cbn [handler lookups resume];
    [unfold post_register, register_lookups, register_resume
    |unfold post_direct_register, direct_register_lookups, direct_register_resume];
    rewrite !bind_eq, !(untyped_lookup_world _ _ _ "username") by constructor;
    (destruct (untyped_lookup getUserByUsername _ w).1 as [[l|]|]; try done);
    rewrite !bind_eq, !(untyped_lookup_world _ _ _ "email") by constructor;
    by destruct (untyped_lookup getUserByEmail _ w).1 as [[l|]|].
Qed.

(** The rest of a handler changes nothing, or creates one user and, for
    [/api/register], allocates the copy for the response. *)
Lemma resume_cases r body hashed clock login_err w :
  (resume r body hashed clock login_err w).2 = w ∨
  ∃ hashedPassword,
    (resume r body hashed clock login_err w).2
    = (createUser (<["password" := VStr hashedPassword]> body) clock w).2 ∨
    ∃ c, (resume r body hashed clock login_err w).2
         = (alloc c (createUser (<["password" := VStr hashedPassword]> body) clock w).2).2.
Proof.
  destruct hashed as [hashedPassword|]; [|left; by destruct r].
  right. exists hashedPassword.
  destruct r; cbn [resume]; [unfold register_resume|unfold direct_register_resume].
  - right. rewrite bind_eq. unfold spread at 1. rewrite bind_eq. cbn [fst snd].
    rewrite bind_eq. eexists. unfold new_object. by destruct login_err.
  - left. rewrite bind_eq. by destruct login_err.
Qed.

Lemma resume_preserves r body hashed clock login_err w :
  reachable w → names_unique w → (lookups r body w).1 = None →
  reachable (resume r body hashed clock login_err w).2 ∧
  names_unique (resume r body hashed clock login_err w).2 ∧
  stored User w `prefix_of` stored User (resume r body hashed clock login_err w).2.
Proof.
  intros Hr Hu [Hname Hmail]%lookups_eq. pose proof (reachable_wf _ Hr) as Hw.
  destruct (resume_cases r body hashed clock login_err w) as [->|[hashedPassword Hcases]];
    [done|].
  set (insertUser := <["password" := VStr hashedPassword]> body) in *.
  assert (reachable (createUser insertUser clock w).2) as Hr1
    by (rewrite createUser_step; by apply reachable_step).
  assert (names_unique (createUser insertUser clock w).2) as Hu1.
  { apply names_unique_create; [done|done| |]; subst insertUser;
      by rewrite prop_password. }
  assert (stored User w `prefix_of` stored User (createUser insertUser clock w).2) as Hp.
  { rewrite (proj1 (createUser_stored insertUser clock w Hw)). by eexists. }
  destruct Hcases as [->|[c ->]]; [done|]. split_and!.
  - apply (reachable_step (New c)), Hr1.
  - apply names_unique_alloc; [by apply reachable_wf|done].
  - done.
Qed.

Lemma handle_settled e s :
  settled s →
  match e with Arrives _ _ => waiting s = [] | Hashed _ _ _ _ => True end →
  settled (handle e s) ∧
  stored User (state s) `prefix_of` stored User (state (handle e s)).
Proof.
  intros (Hr & Hu & Hwait) Hturn. destruct e as [r body|k hashed clock login_err].
  - cbn [handle]. destruct (lookups_eq r body (state s)) as [Hsame _].
    rewrite Hsame, Hturn.
    destruct (lookups r body (state s)).1 as [answer|] eqn:Hlook; cbn [state waiting].
    + split; [|done]. split_and!; [done..|]. by left.
    + split; [|done]. split_and!; [done..|]. right. by exists r, body.
  - cbn [handle]. destruct Hwait as [Hnil|(r & body & Hone & Hlook)].
    + rewrite Hnil, lookup_nil. split; [|done]. split_and!; [done..|by left].
    + rewrite Hone. destruct k as [|k].
      * cbn [lookup list_lookup]. destruct (resume_preserves r body hashed clock login_err (state s) Hr Hu Hlook)
          as (Hr1 & Hu1 & Hp1).
        split; [|done]. split_and!; [done..|]. by left.
      * change ([(r, body)] !! S k) with (([] : list (route * obj)) !! k).
        rewrite lookup_nil. split; [|done]. split_and!; [done..|]. right.
        by exists r, body.
Qed.

Lemma handle_all_settled es s :
  settled s → one_at_a_time es s →
  settled (handle_all es s) ∧
  stored User (state s) `prefix_of` stored User (state (handle_all es s)).
Proof.
  revert s. induction es as [|e es IH]; intros s Hs Hturns; [done|].
  destruct Hturns as [Hturn Hturns].
  destruct (handle_settled e s Hs Hturn) as [Hs1 Hp1].
  destruct (IH _ Hs1 Hturns) as [Hs2 Hp2]. cbn [handle_all fold_left].
  split; [done|]. by etrans.
Qed.

(** X20: registrations that do not overlap keep names unique.  Start
    from a store built by the store's operations in which no two users
    share a user name or an e-mail address up to case, with no request
    waiting.  Let requests to [POST /api/register] and
    [POST /api/direct-register] arrive, with any bodies, each only when
    no other request is waiting for [hashPassword].  Then the store is
    such a store again, and users were only appended. *)
Theorem registration_keeps_names_unique (es : list event) (w : world) :
  reachable w →
  names_unique w →
  one_at_a_time es (mkServer w []) →
  reachable (state (handle_all es (mkServer w []))) ∧
  names_unique (state (handle_all es (mkServer w []))) ∧
  stored User w `prefix_of` stored User (state (handle_all es (mkServer w []))).
Proof.
  intros Hr Hu Hturns.
  destruct (handle_all_settled es (mkServer w [])) as [(Hr' & Hu' & _) Hp]; [|done|done].
  split_and!; [done..|]. by left.
Qed.

(** A request that is alone at the server runs as the handler in one
    piece. *)
Lemma request_alone r body hashed clock login_err w :
  state (handle_all [Arrives r body; Hashed 0 hashed clock login_err] (mkServer w []))
  = (handler r body hashed clock login_err w).2.
Proof.
  rewrite handler_in_two_steps. cbn [handle_all fold_left handle state waiting].
  destruct (lookups_eq r body w) as [Hsame _]. rewrite Hsame.
  by destruct (lookups r body w).1.
Qed.

(** The rest of a handler whose password was hashed. *)
Lemma resume_eq r body hashedPassword clock login_err w :
  (resume r body (Some hashedPassword) clock login_err w).2 =
  match r with
  | ApiRegister =>
      (alloc (HObj (delete "password"
                      (fields
                         (mem (createUser (<["password" := VStr hashedPassword]> body)
                                 clock w).2)
                         (createUser (<["password" := VStr hashedPassword]> body)
                            clock w).1)))
         (createUser (<["password" := VStr hashedPassword]> body) clock w).2).2
  | ApiDirectRegister =>
      (createUser (<["password" := VStr hashedPassword]> body) clock w).2
  end.
Proof.
  destruct r; cbn [resume]; [unfold register_resume|unfold direct_register_resume];
    rewrite bind_eq.
  - unfold spread at 1. rewrite bind_eq. cbn [fst snd]. rewrite bind_eq.
    unfold new_object. by destruct login_err.
  - by destruct login_err.
Qed.

(** It appends one user, and keeps the other users as they are. *)
Lemma resume_creates r body hashedPassword clock login_err w :
  reachable w →
  ∃ user,
    reachable (resume r body (Some hashedPassword) clock login_err w).2 ∧
    stored User (resume r body (Some hashedPassword) clock login_err w).2
    = stored User w ++ [user] ∧
    get (mem (resume r body (Some hashedPassword) clock login_err w).2) user "username"
    = prop body "username" ∧
    ∀ l key, l ∈ stored User w →
      get (mem (resume r body (Some hashedPassword) clock login_err w).2) l key
      = get (mem w) l key.
Proof.
  intros Hr. pose proof (reachable_wf _ Hr) as Hw. rewrite resume_eq.
  set (insertUser := <["password" := VStr hashedPassword]> body).
  destruct (createUser_stored insertUser clock w Hw) as (Hst & Hold & Hnew).
  assert (reachable (createUser insertUser clock w).2) as Hr1
    by (rewrite createUser_step; by apply reachable_step).
  pose proof (reachable_wf _ Hr1) as Hw1.
  exists (createUser insertUser clock w).1.
  specialize (Hnew "username" ltac:(done) ltac:(done) ltac:(done)).
  unfold insertUser in Hnew at 3. rewrite prop_password in Hnew by done.
  assert ((createUser insertUser clock w).1 ∈ stored User (createUser insertUser clock w).2)
    as Hin by (rewrite Hst; apply elem_of_app; right; apply list_elem_of_here).
  destruct r.
  - split_and!.
    + apply (reachable_step (New _)), Hr1.
    + done.
    + cbn [alloc snd mem]. by rewrite (stored_get_app _ User).
    + intros l key Hl. cbn [alloc snd mem].
      rewrite (stored_get_app _ User) by (done || rewrite Hst; apply elem_of_app; by left).
      by apply Hold.
  - split_and!; [done|done|done|]. intros l key Hl. by apply Hold.
Qed.

Lemma not_distinct_lower h key ls user1 user2 name1 name2 :
  get h user1 key = VStr name1 →
  get h user2 key = VStr name2 →
  toLowerCase name1 = toLowerCase name2 →
  ¬ distinct_lower h key (ls ++ [user1; user2]).
Proof.
  intros H1 H2 Hlow (names & Hnames & Hnd).
  rewrite map_app in Hnames. simpl in Hnames. rewrite H1, H2 in Hnames.
  change (map ?f ?l) with (f <$> l) in Hnames. symmetry in Hnames.
  apply fmap_app_inv in Hnames as (names1 & names2 & _ & Hlast & ->).
  destruct names2 as [|x [|y [|z names2]]]; try done.
  injection Hlast as -> ->.
  change (map ?f ?l) with (f <$> l) in Hnd. rewrite fmap_app in Hnd.
  apply NoDup_app in Hnd as (_ & _ & Hnd). simpl in Hnd.
  apply NoDup_cons in Hnd as [Hnotin _]. apply Hnotin. rewrite Hlow.
  apply list_elem_of_here.
Qed.

(** X22: registrations that overlap create duplicate names.  When two
    requests whose user names are equal up to case both pass their
    lookups before either password is hashed, both users are created:
    the store then holds two users with that name, whatever it held
    before. *)
Theorem overlapping_registrations_duplicate_names (w : world) (r1 r2 : route)
    (body1 body2 : obj) (name1 name2 hashed1 hashed2 : string) (clock1 clock2 : Z)
    (login_err1 login_err2 : bool) :
  reachable w →
  prop body1 "username" = VStr name1 →
  prop body2 "username" = VStr name2 →
  toLowerCase name1 = toLowerCase name2 →
  (lookups r1 body1 w).1 = None →
  (lookups r2 body2 w).1 = None →
  ∃ user1 user2,
    stored User
      (state (handle_all
                (overlapping r1 r2 body1 body2 hashed1 hashed2 clock1 clock2
                   login_err1 login_err2)
                (mkServer w [])))
    = stored User w ++ [user1; user2] ∧
    get (mem (state (handle_all
                       (overlapping r1 r2 body1 body2 hashed1 hashed2 clock1 clock2
                          login_err1 login_err2)
                       (mkServer w []))))
        user1 "username" = VStr name1 ∧
    get (mem (state (handle_all
                       (overlapping r1 r2 body1 body2 hashed1 hashed2 clock1 clock2
                          login_err1 login_err2)
                       (mkServer w []))))
        user2 "username" = VStr name2 ∧
    ¬ names_unique
        (state (handle_all
                  (overlapping r1 r2 body1 body2 hashed1 hashed2 clock1 clock2
                     login_err1 login_err2)
                  (mkServer w []))).
Proof.
  intros Hr Hname1 Hname2 Hlow Hlook1 Hlook2.
  unfold overlapping. cbn [handle_all fold_left].
  destruct (lookups_eq r1 body1 w) as [Hsame1 _].
  destruct (lookups_eq r2 body2 w) as [Hsame2 _].
  cbn [handle state waiting]. rewrite Hlook1, Hsame1. cbn [state waiting app].
  rewrite Hlook2, Hsame2. cbn [state waiting app lookup list_lookup delete list_delete].
  destruct (resume_creates r1 body1 hashed1 clock1 login_err1 w Hr)
    as (user1 & Hr1 & Hst1 & Hu1 & Hold1).
  set (w1 := (resume r1 body1 (Some hashed1) clock1 login_err1 w).2) in *.
  destruct (resume_creates r2 body2 hashed2 clock2 login_err2 w1 Hr1)
    as (user2 & Hr2 & Hst2 & Hu2 & Hold2).
  set (w2 := (resume r2 body2 (Some hashed2) clock2 login_err2 w1).2) in *.
  assert (stored User w2 = stored User w ++ [user1; user2]) as Hst
    by (by rewrite Hst2, Hst1, <- app_assoc).
  assert (get (mem w2) user1 "username" = VStr name1) as Hget1.
  { rewrite Hold2, Hu1; [done|]. rewrite Hst1. apply elem_of_app. right.
    apply list_elem_of_here. }
  assert (get (mem w2) user2 "username" = VStr name2) as Hget2 by (by rewrite Hu2).
  exists user1, user2. split_and!; [done..|].
  intros [Hle|[Hdistinct _]].
  - rewrite Hst, length_app in Hle. simpl in Hle. lia.
  - rewrite Hst in Hdistinct.
    exact (not_distinct_lower _ _ _ _ _ _ _ Hget1 Hget2 Hlow Hdistinct).
Qed.
End Overlap.

Section RegistrationTheorems.
Context `{Builtins}.

(** X21: [POST /api/register] answers 400 and leaves the store
    unchanged when the lookup by user name, or else the lookup by e-mail
    address, finds a user.  When neither does and the password was
    hashed, it appends one user whose password is the hash and whose
    other properties, apart from those the store assigns, are the body's;
    the answer (201, unless the login that follows fails) is a new object
    that is not stored and has the user's properties without the
    password.  The user stays stored when that login fails. *)
Theorem register_stores_hash_and_answers_copy (body : obj) (hashed : option string)
    (clock : Z) (login_err : bool) (w : world) :
  reachable w →
  (∀ l, (untyped_lookup getUserByUsername (prop body "username") w).1 = Some (Some l) →
     post_register body hashed clock login_err w
     = (Send 400 "Username already exists", w)) ∧
  ((untyped_lookup getUserByUsername (prop body "username") w).1 = Some None →
   ∀ l, (untyped_lookup getUserByEmail (prop body "email") w).1 = Some (Some l) →
     post_register body hashed clock login_err w
     = (Send 400 "Email already exists", w)) ∧
  ((untyped_lookup getUserByUsername (prop body "username") w).1 = Some None →
   (untyped_lookup getUserByEmail (prop body "email") w).1 = Some None →
   ∀ hashedPassword, hashed = Some hashedPassword →
   ∃ user userResponse,
     (post_register body hashed clock login_err w).1
     = (if login_err then Next else SendJson 201 userResponse) ∧
     stored User (post_register body hashed clock login_err w).2
     = stored User w ++ [user] ∧
     get (mem (post_register body hashed clock login_err w).2) user "password"
     = VStr hashedPassword ∧
     (∀ key, key ≠ "password" → key ≠ "id" → key ≠ "createdAt" → key ≠ "points" →
        get (mem (post_register body hashed clock login_err w).2) user key
        = prop body key) ∧
     (userResponse ∉ stored User (post_register body hashed clock login_err w).2) ∧
     fields (mem (post_register body hashed clock login_err w).2) userResponse
     = delete "password" (fields (mem (post_register body hashed clock login_err w).2) user)).
Proof.
  intros Hr. pose proof (reachable_wf _ Hr) as Hw. unfold post_register.
  rewrite bind_eq, (untyped_lookup_world _ _ _ "username") by constructor.
  split_and!.
  - by intros l ->.
  - intros -> l. rewrite bind_eq, (untyped_lookup_world _ _ _ "email") by constructor.
    by intros ->.
  - intros -> Hmail hashedPassword ->.
    rewrite bind_eq, (untyped_lookup_world _ _ _ "email") by constructor. rewrite Hmail.
    destruct (createUser_stored (<["password" := VStr hashedPassword]> body) clock w Hw)
      as (Hst & Hold & Hnew).
    assert (reachable (createUser (<["password" := VStr hashedPassword]> body) clock w).2)
      as Hr1 by (rewrite createUser_step; by apply reachable_step).
    pose proof (reachable_wf _ Hr1) as Hw1.
    set (w1 := (createUser (<["password" := VStr hashedPassword]> body) clock w).2) in *.
    set (user := (createUser (<["password" := VStr hashedPassword]> body) clock w).1) in *.
    rewrite bind_eq. fold w1 user.
    assert ((do o <- spread user;
             do userResponse <- new_object (delete "password" o);
             if login_err then ret Next else ret (SendJson 201 userResponse)) w1
            = (if login_err then Next else SendJson 201 (length (mem w1)),
               mkWorld (mem w1 ++ [HObj (delete "password" (fields (mem w1) user))])
                 (this w1))) as -> by (by destruct login_err).
    cbn [fst snd mem this].
    exists user, (length (mem w1)).
    assert (user ∈ stored User w1) as Huser.
    { rewrite Hst. apply elem_of_app. right. apply list_elem_of_here. }
    destruct (stored_live _ _ _ Hw1 Huser) as [o Ho].
    assert (∀ key, get (mem w1 ++ [HObj (delete "password" (fields (mem w1) user))]) user key
                   = get (mem w1) user key) as Hsame.
    { intros key. eapply get_prefix; [by eexists|done]. }
    split_and!.
    + done.
    + done.
    + rewrite Hsame, Hnew by done. unfold prop. by rewrite lookup_insert_eq.
    + intros key H1 H2 H3 H4. rewrite Hsame, Hnew by done. by apply prop_password.
    + intros Hin. destruct (stored_live _ _ _ Hw1 Hin) as [o' Ho'].
      apply lookup_lt_Some in Ho'. lia.
    + erewrite (fields_app_old _ _ user) by done. unfold fields at 1.
      by rewrite lookup_new.
Qed.
End RegistrationTheorems.

Section RegistrationExamples.
#[local] Existing Instance sample_builtins.

Lemma register_stores_hash_and_answers_copy_witness :
  reachable example_world ∧
  (untyped_lookup getUserByUsername
     (prop {[ "username" := VStr "Bob"; "email" := VStr "bob@example.org";
              "password" := VStr "secret" ]} "username") example_world).1 = Some None ∧
  (untyped_lookup getUserByEmail
     (prop {[ "username" := VStr "Bob"; "email" := VStr "bob@example.org";
              "password" := VStr "secret" ]} "email") example_world).1 = Some None ∧
  ∃ user userResponse,
    (post_register {[ "username" := VStr "Bob"; "email" := VStr "bob@example.org";
                      "password" := VStr "secret" ]} (Some "hash") 6000 false
       example_world).1
    = SendJson 201 userResponse ∧
    stored User
      (post_register {[ "username" := VStr "Bob"; "email" := VStr "bob@example.org";
                        "password" := VStr "secret" ]} (Some "hash") 6000 false
         example_world).2
    = stored User example_world ++ [user] ∧
    get (mem (post_register {[ "username" := VStr "Bob"; "email" := VStr "bob@example.org";
                               "password" := VStr "secret" ]} (Some "hash") 6000 false
                example_world).2) user "password"
    = VStr "hash" ∧
    (∀ key, key ≠ "password" → key ≠ "id" → key ≠ "createdAt" → key ≠ "points" →
       get (mem (post_register {[ "username" := VStr "Bob";
                                  "email" := VStr "bob@example.org";
                                  "password" := VStr "secret" ]} (Some "hash") 6000 false
                   example_world).2) user key
       = prop {[ "username" := VStr "Bob"; "email" := VStr "bob@example.org";
                 "password" := VStr "secret" ]} key) ∧
    (userResponse ∉
       stored User
         (post_register {[ "username" := VStr "Bob"; "email" := VStr "bob@example.org";
                           "password" := VStr "secret" ]} (Some "hash") 6000 false
            example_world).2) ∧
    fields (mem (post_register {[ "username" := VStr "Bob";
                                  "email" := VStr "bob@example.org";
                                  "password" := VStr "secret" ]} (Some "hash") 6000 false
                   example_world).2) userResponse
    = delete "password"
        (fields (mem (post_register {[ "username" := VStr "Bob";
                                       "email" := VStr "bob@example.org";
                                       "password" := VStr "secret" ]} (Some "hash") 6000
                        false example_world).2) user).
Proof.
  assert ((untyped_lookup getUserByUsername
             (prop {[ "username" := VStr "Bob"; "email" := VStr "bob@example.org";
                      "password" := VStr "secret" ]} "username") example_world).1
          = Some None) as Hname by reflexivity.
  assert ((untyped_lookup getUserByEmail
             (prop {[ "username" := VStr "Bob"; "email" := VStr "bob@example.org";
                      "password" := VStr "secret" ]} "email") example_world).1
          = Some None) as Hmail by reflexivity.
  split; [apply example_reachable|]. split; [exact Hname|]. split; [exact Hmail|].
  exact (proj2 (proj2 (register_stores_hash_and_answers_copy
                         {[ "username" := VStr "Bob"; "email" := VStr "bob@example.org";
                            "password" := VStr "secret" ]} (Some "hash") 6000 false
                         example_world example_reachable))
           Hname Hmail "hash" eq_refl).
Defined.
End RegistrationExamples.

Section OverlapExamples.
#[local] Existing Instance sample_builtins.

Example second_registration_refused :
  handler ApiDirectRegister {[ "username" := VStr "ADA"; "email" := VStr "a@example.org" ]}
    (Some "hash") 6000 false example_world
  = (Redirect "/direct-register?error=Username+already+exists", example_world).
Proof. reflexivity. Qed.

Lemma registration_keeps_names_unique_witness :
  reachable example_world ∧
  names_unique example_world ∧
  one_at_a_time
    [Arrives ApiRegister {[ "username" := VStr "Bob"; "email" := VStr "bob@example.org" ]};
     Hashed 0 (Some "hash") 6000 false;
     Arrives ApiDirectRegister
       {[ "username" := VStr "BOB"; "email" := VStr "b@example.org" ]};
     Hashed 0 (Some "hash") 6100 false]
    (mkServer example_world []) ∧
  reachable
    (state (handle_all
       [Arrives ApiRegister {[ "username" := VStr "Bob"; "email" := VStr "bob@example.org" ]};
        Hashed 0 (Some "hash") 6000 false;
        Arrives ApiDirectRegister
          {[ "username" := VStr "BOB"; "email" := VStr "b@example.org" ]};
        Hashed 0 (Some "hash") 6100 false]
       (mkServer example_world []))) ∧
  names_unique
    (state (handle_all
       [Arrives ApiRegister {[ "username" := VStr "Bob"; "email" := VStr "bob@example.org" ]};
        Hashed 0 (Some "hash") 6000 false;
        Arrives ApiDirectRegister
          {[ "username" := VStr "BOB"; "email" := VStr "b@example.org" ]};
        Hashed 0 (Some "hash") 6100 false]
       (mkServer example_world []))) ∧
  stored User example_world
    `prefix_of`
    stored User
      (state (handle_all
         [Arrives ApiRegister
            {[ "username" := VStr "Bob"; "email" := VStr "bob@example.org" ]};
          Hashed 0 (Some "hash") 6000 false;
          Arrives ApiDirectRegister
            {[ "username" := VStr "BOB"; "email" := VStr "b@example.org" ]};
          Hashed 0 (Some "hash") 6100 false]
         (mkServer example_world []))).
Proof.
  assert (names_unique example_world) as Hu by (left; apply le_n).
  assert (one_at_a_time
            [Arrives ApiRegister
               {[ "username" := VStr "Bob"; "email" := VStr "bob@example.org" ]};
             Hashed 0 (Some "hash") 6000 false;
             Arrives ApiDirectRegister
               {[ "username" := VStr "BOB"; "email" := VStr "b@example.org" ]};
             Hashed 0 (Some "hash") 6100 false]
            (mkServer example_world [])) as Hturns.
  { split; [reflexivity|]. split; [exact I|]. split; [reflexivity|]. split; exact I. }
  split; [apply example_reachable|]. split; [exact Hu|]. split; [exact Hturns|].
  exact (registration_keeps_names_unique
           [Arrives ApiRegister
              {[ "username" := VStr "Bob"; "email" := VStr "bob@example.org" ]};
            Hashed 0 (Some "hash") 6000 false;
            Arrives ApiDirectRegister
              {[ "username" := VStr "BOB"; "email" := VStr "b@example.org" ]};
            Hashed 0 (Some "hash") 6100 false]
           example_world example_reachable Hu Hturns).
Defined.

Lemma overlapping_registrations_duplicate_names_witness :
  reachable example_world ∧
  names_unique example_world ∧
  prop {[ "username" := VStr "Bob"; "email" := VStr "bob@example.org" ]} "username"
    = VStr "Bob" ∧
  prop {[ "username" := VStr "BOB"; "email" := VStr "b@example.org" ]} "username"
    = VStr "BOB" ∧
  toLowerCase "Bob" = toLowerCase "BOB" ∧
  (lookups ApiRegister {[ "username" := VStr "Bob"; "email" := VStr "bob@example.org" ]}
     example_world).1 = None ∧
  (lookups ApiDirectRegister {[ "username" := VStr "BOB"; "email" := VStr "b@example.org" ]}
     example_world).1 = None ∧
  ¬ names_unique
      (state (handle_all
                (overlapping ApiRegister ApiDirectRegister
                   {[ "username" := VStr "Bob"; "email" := VStr "bob@example.org" ]}
                   {[ "username" := VStr "BOB"; "email" := VStr "b@example.org" ]}
                   "hash1" "hash2" 6000 6100 false false)
                (mkServer example_world []))).
Proof.
  assert (names_unique example_world) as Hu by (left; apply le_n).
  assert (prop {[ "username" := VStr "Bob"; "email" := VStr "bob@example.org" ]} "username"
          = VStr "Bob") as Hname1 by reflexivity.
  assert (prop {[ "username" := VStr "BOB"; "email" := VStr "b@example.org" ]} "username"
          = VStr "BOB") as Hname2 by reflexivity.
  assert (toLowerCase "Bob" = toLowerCase "BOB") as Hlow by reflexivity.
  assert ((lookups ApiRegister
             {[ "username" := VStr "Bob"; "email" := VStr "bob@example.org" ]}
             example_world).1 = None) as Hlook1 by reflexivity.
  assert ((lookups ApiDirectRegister
             {[ "username" := VStr "BOB"; "email" := VStr "b@example.org" ]}
             example_world).1 = None) as Hlook2 by reflexivity.
  split; [apply example_reachable|]. split; [exact Hu|]. split; [exact Hname1|].
  split; [exact Hname2|]. split; [exact Hlow|]. split; [exact Hlook1|].
  split; [exact Hlook2|].
  destruct (overlapping_registrations_duplicate_names example_world
              ApiRegister ApiDirectRegister
              {[ "username" := VStr "Bob"; "email" := VStr "bob@example.org" ]}
              {[ "username" := VStr "BOB"; "email" := VStr "b@example.org" ]}
              "Bob" "BOB" "hash1" "hash2" 6000 6100 false false
              example_reachable Hname1 Hname2 Hlow Hlook1 Hlook2)
    as (user1 & user2 & _ & _ & _ & Hdup).
  exact Hdup.
Defined.
End OverlapExamples.
